(** * PII-Cloak detection engine: a shallow embedding of
      [core/detection_engine.py] and its specification.

    Python values are modelled as follows.
    - [str] is [string]; the development covers ASCII text, so [len] is
      [String.length] and the character predicates ([isdigit], [isupper],
      [isspace], the regex classes) are their ASCII restrictions.
    - [int] is [Z]; list indices and lengths are [nat].
    - [float] confidences are rationals [Q]: every finite float is a
      rational and the code only compares confidences.
    - [dict] used as a counter is [gmap string nat]; set literals are
      [gset string]; dicts that are iterated are association lists in
      insertion order.
    - exceptions are the [exc] monad; [print] output is not modelled. *)

From Stdlib Require Import ZArith QArith Ascii Lia Sorted Permutation.
From Stdlib Require Import DecimalString.
From stdpp Require Import gmap strings list.

Local Open Scope Z_scope.

(* ===================================================================== *)
(** * Python string primitives *)
(* ===================================================================== *)

Module PyStr.

Definition code (c : ascii) : nat := nat_of_ascii c.

Definition in_range (lo hi c : ascii) : bool :=
  (code lo <=? code c)%nat && (code c <=? code hi)%nat.

(** [c.isdigit()], [c.isupper()], [c.islower()], [c.isspace()] on ASCII. *)
Definition isdigit (c : ascii) : bool := in_range "0" "9" c.
Definition isupper (c : ascii) : bool := in_range "A" "Z" c.
Definition islower (c : ascii) : bool := in_range "a" "z" c.
Definition isspace (c : ascii) : bool :=
  in_range (ascii_of_nat 9) (ascii_of_nat 13) c
  || in_range (ascii_of_nat 28) (ascii_of_nat 32) c.

Definition upper_char (c : ascii) : ascii :=
  if islower c then ascii_of_nat (code c - 32) else c.
Definition lower_char (c : ascii) : ascii :=
  if isupper c then ascii_of_nat (code c + 32) else c.

Fixpoint smap (f : ascii -> ascii) (s : string) : string :=
  match s with
  | EmptyString => EmptyString
  | String c s' => String (f c) (smap f s')
  end.

Definition upper : string -> string := smap upper_char.
Definition lower : string -> string := smap lower_char.

Fixpoint forallb (p : ascii -> bool) (s : string) : bool :=
  match s with
  | EmptyString => true
  | String c s' => p c && forallb p s'
  end.

Fixpoint existsb (p : ascii -> bool) (s : string) : bool :=
  match s with
  | EmptyString => false
  | String c s' => p c || existsb p s'
  end.

(** [c in s] for a single character. *)
Definition has_char (c : ascii) (s : string) : bool :=
  existsb (Ascii.eqb c) s.

(** [s.isdigit()]: non-empty and all digits. *)
Definition str_isdigit (s : string) : bool :=
  match s with
  | EmptyString => false
  | _ => forallb isdigit s
  end.

Fixpoint take (n : nat) (s : string) : string :=
  match n, s with
  | O, _ => EmptyString
  | S _, EmptyString => EmptyString
  | S n', String c s' => String c (take n' s')
  end.

Fixpoint drop (n : nat) (s : string) : string :=
  match n, s with
  | O, _ => s
  | S _, EmptyString => EmptyString
  | S n', String _ s' => drop n' s'
  end.

(** Python clamps a slice bound: a negative bound counts from the end,
    and anything out of range is cut to [0 .. len]. *)
Definition bound (s : string) (i : Z) : nat :=
  if i <? 0 then Z.to_nat (Z.of_nat (String.length s) + i) else Z.to_nat i.

(** [s[:i]] and [s[i:]]. *)
Definition slice_to (s : string) (i : Z) : string := take (bound s i) s.
Definition slice_from (s : string) (i : Z) : string := drop (bound s i) s.
(** [s[i:j]]. *)
Definition slice (s : string) (i j : Z) : string :=
  take (bound s j - bound s i) (drop (bound s i) s).

(** [c * n]. *)
Fixpoint replicate (n : nat) (c : ascii) : string :=
  match n with
  | O => EmptyString
  | S n' => String c (replicate n' c)
  end.

(** [s.startswith(p)]. *)
Fixpoint startswith (p s : string) : bool :=
  match p, s with
  | EmptyString, _ => true
  | String _ _, EmptyString => false
  | String a p', String b s' => Ascii.eqb a b && startswith p' s'
  end.

(** [needle in hay]. *)
Fixpoint contains (hay needle : string) : bool :=
  startswith needle hay ||
  match hay with
  | EmptyString => false
  | String _ hay' => contains hay' needle
  end.

(** [hay.find(needle)], [-1] when absent. *)
Fixpoint find_from (pos : Z) (hay needle : string) : Z :=
  if startswith needle hay then pos
  else match hay with
       | EmptyString => -1
       | String _ hay' => find_from (pos + 1) hay' needle
       end.
Definition find (hay needle : string) : Z := find_from 0 hay needle.

Fixpoint rev_onto (s acc : string) : string :=
  match s with
  | EmptyString => acc
  | String c s' => rev_onto s' (String c acc)
  end.
Definition rev (s : string) : string := rev_onto s EmptyString.

Fixpoint lstrip (s : string) : string :=
  match s with
  | EmptyString => EmptyString
  | String c s' => if isspace c then lstrip s' else s
  end.
(** [s.strip()]. *)
Definition strip (s : string) : string := rev (lstrip (rev (lstrip s))).

(** [s.endswith(c)] for a one-character suffix. *)
Definition endswith_char (c : ascii) (s : string) : bool :=
  match rev s with
  | String d _ => Ascii.eqb c d
  | EmptyString => false
  end.

(** [s.split()]: maximal runs of non-whitespace characters. *)
Fixpoint split_ws (s : string) (cur : string) : list string :=
  match s with
  | EmptyString =>
      match cur with EmptyString => [] | _ => [rev cur] end
  | String c s' =>
      if isspace c
      then match cur with
           | EmptyString => split_ws s' EmptyString
           | _ => rev cur :: split_ws s' EmptyString
           end
      else split_ws s' (String c cur)
  end.
Definition split (s : string) : list string := split_ws s EmptyString.

(** [s.split(sep)] for a one-character separator. *)
Fixpoint split_on_acc (sep : ascii) (s cur : string) : list string :=
  match s with
  | EmptyString => [rev cur]
  | String c s' =>
      if Ascii.eqb c sep then rev cur :: split_on_acc sep s' EmptyString
      else split_on_acc sep s' (String c cur)
  end.
Definition split_on (sep : ascii) (s : string) : list string :=
  split_on_acc sep s EmptyString.

(** [s.replace(c, '')] for a one-character pattern. *)
Fixpoint remove_char (c : ascii) (s : string) : string :=
  match s with
  | EmptyString => EmptyString
  | String d s' =>
      if Ascii.eqb c d then remove_char c s' else String d (remove_char c s')
  end.

(** [s.replace('##', '')]: occurrences are removed left to right. *)
Fixpoint remove_hashes (s : string) : string :=
  match s with
  | String "#" (String "#" s') => remove_hashes s'
  | String c s' => String c (remove_hashes s')
  | EmptyString => EmptyString
  end.

(** [f"{n:03d}"] for a non-negative counter. *)
Definition decimal (n : nat) : string :=
  NilZero.string_of_uint (Nat.to_uint n).
Definition format_03d (n : nat) : string :=
  let d := decimal n in
  String.append (replicate (3 - String.length d) "0") d.

(** [int(c)] for a digit character. *)
Definition digit_value (c : ascii) : Z := Z.of_nat (code c - code "0").

(** [int(s)] on ASCII input: surrounding whitespace, an optional sign,
    then digits, where single underscores may separate digits.  [None]
    stands for [ValueError]. *)
Fixpoint digits_value (s : string) (acc : Z) (prev_digit : bool) : option Z :=
  match s with
  | EmptyString => if prev_digit then Some acc else None
  | String c s' =>
      if isdigit c then digits_value s' (10 * acc + digit_value c) true
      else if Ascii.eqb c "_" && prev_digit
           then match s' with
                | String d _ => if isdigit d then digits_value s' acc false else None
                | EmptyString => None
                end
           else None
  end.
Definition int (s : string) : option Z :=
  match strip s with
  | String "-" s' => option_map Z.opp (digits_value s' 0 false)
  | String "+" s' => digits_value s' 0 false
  | s' => digits_value s' 0 false
  end.

End PyStr.

(* ===================================================================== *)
(** * Data model *)
(* ===================================================================== *)

(** [@dataclass PIIEntity]. *)
Record PIIEntity := mkEntity {
  entity_type : string;
  value : string;
  start_pos : Z;
  end_pos : Z;
  confidence : Q;
  detection_method : string;
  status : string
}.

(** [@dataclass DetectionResult]. *)
Record DetectionResult := mkResult {
  entities_found : list PIIEntity;
  masked_content : string;
  original_text : string;
  processing_time : Q;
  questionable_entities : list PIIEntity;
  residual_entities : list PIIEntity
}.

(** The keys of [self.config] that the engine reads:
    [config.get('mask_format')], [config['validation']['min_confidence']]
    and [config['validation']['questionable_band']].  A dict without the
    validation keys (on which triage raises [KeyError]) is not a [Config]. *)
Record Config := mkConfig {
  mask_format : option string;
  min_confidence : Q;
  questionable_band : Q * Q
}.

(** The default configuration of [__init__]. *)
Definition default_config : Config :=
  {| mask_format := Some "TOKEN";
     min_confidence := 35 # 100;
     questionable_band := (35 # 100, 65 # 100) |}.

(** The dataclass [__eq__]: field by field. *)
Definition entity_eqb (a b : PIIEntity) : bool :=
  String.eqb (entity_type a) (entity_type b)
  && String.eqb (value a) (value b)
  && (start_pos a =? start_pos b)
  && (end_pos a =? end_pos b)
  && Qeq_bool (confidence a) (confidence b)
  && String.eqb (detection_method a) (detection_method b)
  && String.eqb (status a) (status b).

Definition set_status (s : string) (e : PIIEntity) : PIIEntity :=
  {| entity_type := entity_type e; value := value e;
     start_pos := start_pos e; end_pos := end_pos e;
     confidence := confidence e; detection_method := detection_method e;
     status := s |}.

Definition set_entity_type (t : string) (e : PIIEntity) : PIIEntity :=
  {| entity_type := t; value := value e;
     start_pos := start_pos e; end_pos := end_pos e;
     confidence := confidence e; detection_method := detection_method e;
     status := status e |}.

(* ===================================================================== *)
(** * Validators *)
(* ===================================================================== *)

(** [[int(d) for d in str(number) if d.isdigit()]]. *)
Fixpoint digits_of (number : string) : list Z :=
  match number with
  | EmptyString => []
  | String d rest =>
      if PyStr.isdigit d then PyStr.digit_value d :: digits_of rest
      else digits_of rest
  end.

(** The loop [for i, digit in enumerate(reversed(digits))] of
    [_luhn_check], with [i] and [checksum] as loop state. *)
Fixpoint luhn_loop (rdigits : list Z) (i : nat) (checksum : Z) : Z :=
  match rdigits with
  | [] => checksum
  | digit :: rest =>
      if (i mod 2 =? 1)%nat
      then let doubled := digit * 2 in
           luhn_loop rest (S i)
             (checksum + (if doubled <? 10 then doubled else doubled - 9))
      else luhn_loop rest (S i) (checksum + digit)
  end.

Definition _luhn_check (number : string) : bool :=
  let digits := digits_of number in
  if ((length digits <? 13)%nat || (19 <? length digits)%nat)%bool then false
  else luhn_loop (rev digits) 0 0 mod 10 =? 0.

(** [_validate_ip]. *)
Definition _validate_ip (ip : string) : bool :=
  let parts := PyStr.split_on "." ip in
  if negb (length parts =? 4)%nat then false
  else
    List.forallb
      (fun part =>
         match PyStr.int part with
         | Some num => negb ((num <? 0) || (255 <? num))
         | None => false
         end) parts.

(** [_validate_ssn]. *)
Definition _validate_ssn (ssn : string) : bool :=
  let clean_ssn := PyStr.remove_char "-" ssn in
  if negb (String.length clean_ssn =? 9)%nat then false
  else if PyStr.startswith "000" clean_ssn
          || PyStr.startswith "666" clean_ssn
          || PyStr.startswith "9" clean_ssn then false
  else if String.eqb (PyStr.slice clean_ssn 3 5) "00"
          || String.eqb (PyStr.slice_from clean_ssn 5) "0000" then false
  else true.

(* ===================================================================== *)
(** * The regular expressions of the pattern table *)
(* ===================================================================== *)

(** The fragment of Python's [re] that [self.patterns] uses, matched the
    way [re] matches: leftmost, greedy, backtracking.  [finditer] yields
    the successive non-overlapping matches. *)
Module Re.

Inductive regex :=
| Eps
| Cls (p : ascii -> bool)                        (* one character of a class *)
| Seq (r1 r2 : regex)
| Rep (r : regex) (lo : nat) (hi : option nat)   (* greedy r{lo,hi} *)
| Bnd                                            (* \b *)
| NotAhead (r : regex).                          (* (?!r) *)

Definition chr (c : ascii) : regex := Cls (Ascii.eqb c).
Definition plus (r : regex) : regex := Rep r 1 None.
Definition star (r : regex) : regex := Rep r 0 None.
Definition opt (r : regex) : regex := Rep r 0 (Some 1%nat).
Definition times (n : nat) (r : regex) : regex := Rep r n (Some n).
Definition between (lo hi : nat) (r : regex) : regex := Rep r lo (Some hi).
Definition at_least (lo : nat) (r : regex) : regex := Rep r lo None.

Fixpoint seqs (rs : list regex) : regex :=
  match rs with
  | [] => Eps
  | [r] => r
  | r :: rs' => Seq r (seqs rs')
  end.

(** [\d], [\w], [\s]. *)
Definition digit : ascii -> bool := PyStr.isdigit.
Definition word (c : ascii) : bool :=
  PyStr.isdigit c || PyStr.isupper c || PyStr.islower c || Ascii.eqb c "_".
Definition space : ascii -> bool := PyStr.isspace.

(** Membership in a class under [re.IGNORECASE]: the character or one
    of its case variants belongs to the class. *)
Definition cls_test (icase : bool) (p : ascii -> bool) (c : ascii) : bool :=
  p c || (icase && (p (PyStr.lower_char c) || p (PyStr.upper_char c))).

Definition is_word_opt (o : option ascii) : bool :=
  match o with Some c => word c | None => false end.

Definition next_char (s : string) : option ascii :=
  match s with String c _ => Some c | EmptyString => None end.

(** [\b]: exactly one of the two neighbours is a word character. *)
Definition at_boundary (prev : option ascii) (s : string) : bool :=
  xorb (is_word_opt prev) (is_word_opt (next_char s)).

Definition below (n : nat) (hi : option nat) : bool :=
  match hi with Some h => (n <? h)%nat | None => true end.

(** The matcher, in continuation-passing style: [prev] is the character
    before the cursor, [s] the text from the cursor on, [pos] the
    cursor; [k] matches the rest of the pattern and returns the end of
    the whole match.  A repetition first tries one more iteration and
    falls back to leaving the loop. *)
Fixpoint run (icase : bool) (r : regex) (prev : option ascii) (s : string)
    (pos : nat) (k : option ascii -> string -> nat -> option nat)
    {struct r} : option nat :=
  match r with
  | Eps => k prev s pos
  | Cls p =>
      match s with
      | String c s' => if cls_test icase p c then k (Some c) s' (S pos) else None
      | EmptyString => None
      end
  | Seq r1 r2 =>
      run icase r1 prev s pos (fun prev' s' pos' => run icase r2 prev' s' pos' k)
  | Rep r' lo hi =>
      (fix loop (fuel n : nat) (prev : option ascii) (s : string) (pos : nat)
           {struct fuel} : option nat :=
         let leave := if (lo <=? n)%nat then k prev s pos else None in
         match fuel with
         | O => leave
         | S fuel' =>
             if below n hi then
               match run icase r' prev s pos
                       (fun prev' s' pos' =>
                          if (pos' =? pos)%nat then None
                          else loop fuel' (S n) prev' s' pos') with
               | Some e => Some e
               | None => leave
               end
             else leave
         end) (S (String.length s)) O prev s pos
  | Bnd => if at_boundary prev s then k prev s pos else None
  | NotAhead r' =>
      match run icase r' prev s pos (fun _ _ e => Some e) with
      | Some _ => None
      | None => k prev s pos
      end
  end.

(** [pattern.match] at the cursor: the end of the match. *)
Definition match_at (icase : bool) (r : regex) (prev : option ascii)
    (s : string) (pos : nat) : option nat :=
  run icase r prev s pos (fun _ _ e => Some e).

(** Move the cursor [n] characters forward. *)
Fixpoint advance (n : nat) (prev : option ascii) (s : string)
    : option ascii * string :=
  match n, s with
  | S n', String c s' => advance n' (Some c) s'
  | _, _ => (prev, s)
  end.

(** The scan of [finditer]: try the cursor; after a match go on from
    its end (one further for an empty match), else move one on. *)
Fixpoint scan (fuel : nat) (icase : bool) (r : regex) (prev : option ascii)
    (s : string) (pos : nat) : list (nat * nat) :=
  match fuel with
  | O => []
  | S fuel' =>
      match match_at icase r prev s pos with
      | Some e =>
          let n := if (e =? pos)%nat then 1%nat else (e - pos)%nat in
          let '(prev', s') := advance n prev s in
          (pos, e) ::
            match s with
            | EmptyString => []
            | _ => scan fuel' icase r prev' s' (pos + n)
            end
      | None =>
          match s with
          | String c s' => scan fuel' icase r (Some c) s' (S pos)
          | EmptyString => []
          end
      end
  end.

(** [re.finditer(pattern, text, re.IGNORECASE)] as the list of
    [(match.start(), match.end())]. *)
Definition finditer (icase : bool) (r : regex) (text : string)
    : list (nat * nat) :=
  scan (S (String.length text)) icase r None text 0.

End Re.

(** ** [self.patterns] *)

Section Patterns.
Import Re.

Definition any_of (s : string) (c : ascii) : bool := PyStr.has_char c s.
Definition alnum (c : ascii) : bool :=
  PyStr.isupper c || PyStr.islower c || PyStr.isdigit c.
Definition letter (c : ascii) : bool := PyStr.isupper c || PyStr.islower c.
Definition d : regex := Cls digit.

(** [\b[A-Za-z0-9._%+-]+@[A-Za-z0-9.-]+\.[A-Z|a-z]{2,}\b] *)
Definition EMAIL_re : regex :=
  seqs [ Bnd;
         plus (Cls (fun c => alnum c || any_of "._%+-" c));
         chr "@";
         plus (Cls (fun c => alnum c || any_of ".-" c));
         chr ".";
         at_least 2 (Cls (fun c => letter c || any_of "|" c));
         Bnd ].

(** [\b\(?\d{3}\)?[-.\s]?\d{3}[-.\s]?\d{4}\b(?!\d)] *)
Definition PHONE_re : regex :=
  seqs [ Bnd;
         opt (chr "(");
         times 3 d;
         opt (chr ")");
         opt (Cls (fun c => any_of "-." c || space c));
         times 3 d;
         opt (Cls (fun c => any_of "-." c || space c));
         times 4 d;
         Bnd;
         NotAhead d ].

(** [\b\d{3}-\d{2}-\d{4}\b] *)
Definition SSN_re : regex :=
  seqs [ Bnd; times 3 d; chr "-"; times 2 d; chr "-"; times 4 d; Bnd ].

(** [\b\d{4}[-\s]?\d{4}[-\s]?\d{4}[-\s]?\d{4}\b] *)
Definition CREDIT_CARD_re : regex :=
  let sep := opt (Cls (fun c => any_of "-" c || space c)) in
  seqs [ Bnd; times 4 d; sep; times 4 d; sep; times 4 d; sep; times 4 d; Bnd ].

(** [\b(?:\d{1,3}\.){3}\d{1,3}\b] *)
Definition IP_ADDRESS_re : regex :=
  seqs [ Bnd;
         times 3 (Seq (between 1 3 d) (chr "."));
         between 1 3 d;
         Bnd ].

(** The URL pattern, piece by piece (each piece is quoted beside its
    translation; [(?:...)] groups are non-capturing). *)
Definition URL_re : regex :=
  seqs [ chr "h"; chr "t"; chr "t"; chr "p"; opt (chr "s");  (* https? *)
         chr ":"; chr "/"; chr "/";                          (* :// *)
         plus (Cls (fun c => any_of "-." c || word c));      (* (?:[-\w.])+ *)
         opt (plus (Cls (fun c => any_of ":" c || digit c))); (* (?:[:\d]+)? *)
         opt (seqs                                           (* (?:/ ... )? *)
                [ chr "/";
                  (* (?:[\w/_.]) starred *)
                  star (Cls (fun c => word c || any_of "/_." c));
                  (* (?:\? (?:[\w&=%.]) starred )? *)
                  opt (Seq (chr "?")
                           (star (Cls (fun c => word c || any_of "&=%." c))));
                  (* (?:# (?:[\w.]) starred )? *)
                  opt (Seq (chr "#")
                           (star (Cls (fun c => word c || any_of "." c)))) ]) ].

(** [\b\d{1,2}[/-]\d{1,2}[/-]\d{2,4}\b] *)
Definition DATE_re : regex :=
  let sep := Cls (any_of "/-") in
  seqs [ Bnd; between 1 2 d; sep; between 1 2 d; sep; between 2 4 d; Bnd ].

(** [\b\d{5}(?:-\d{4})?\b] *)
Definition ZIP_CODE_re : regex :=
  seqs [ Bnd; times 5 d; opt (Seq (chr "-") (times 4 d)); Bnd ].

(** The table, in the insertion order that [.items()] follows. *)
Definition patterns : list (string * regex) :=
  [ ("EMAIL", EMAIL_re); ("PHONE", PHONE_re); ("SSN", SSN_re);
    ("CREDIT_CARD", CREDIT_CARD_re); ("IP_ADDRESS", IP_ADDRESS_re);
    ("URL", URL_re); ("DATE", DATE_re); ("ZIP_CODE", ZIP_CODE_re) ].

(** [self.validators]. *)
Definition validators : list (string * (string -> bool)) :=
  [ ("CREDIT_CARD", _luhn_check); ("IP_ADDRESS", _validate_ip);
    ("SSN", _validate_ssn) ].

Fixpoint lookup_validator (t : string)
    (vs : list (string * (string -> bool))) : option (string -> bool) :=
  match vs with
  | [] => None
  | (t', v) :: vs' => if String.eqb t t' then Some v else lookup_validator t vs'
  end.

End Patterns.

(* ===================================================================== *)
(** * Pattern detector and residual validator *)
(* ===================================================================== *)

(** The two nested loops shared by [_detect_rule_based] and
    [_validate_residual_pii]: every match of every pattern, validated
    where a validator is registered, tagged with [method] and [st]. *)
Definition matches_of (method st : string) (text : string)
    (entry : string * Re.regex) : list PIIEntity :=
  let '(etype, pattern) := entry in
  flat_map
    (fun m : nat * nat =>
       let '(s, e) := m in
       let v := PyStr.slice text (Z.of_nat s) (Z.of_nat e) in
       let keep :=
         match lookup_validator etype validators with
         | Some validate => validate v
         | None => true
         end in
       if keep
       then [ {| entity_type := etype; value := v;
                 start_pos := Z.of_nat s; end_pos := Z.of_nat e;
                 confidence := 1; detection_method := method;
                 status := st |} ]
       else [])
    (Re.finditer true pattern text).

Definition _detect_rule_based (text : string) : list PIIEntity :=
  flat_map (matches_of "rule_based" "auto_masked" text) patterns.

Definition _validate_residual_pii (masked_text : string) : list PIIEntity :=
  flat_map (matches_of "residual_validation" "residual" masked_text) patterns.

(* ===================================================================== *)
(** * Exceptions *)
(* ===================================================================== *)

(** A computation either raises (the exception is named by a string) or
    returns. *)
Inductive exc (A : Type) : Type :=
| Raise (e : string)
| Return (a : A).
Arguments Raise {A} e.
Arguments Return {A} a.

Definition bind {A B : Type} (c : exc A) (k : A -> exc B) : exc B :=
  match c with
  | Raise e => Raise e
  | Return a => k a
  end.

(** [try: body  except Exception as e: handler]. *)
Definition try_except {A : Type} (body : exc A) (handler : string -> exc A)
    : exc A :=
  match body with
  | Raise e => handler e
  | Return a => Return a
  end.

Notation "x <- c ;; k" := (bind c (fun x => k))
  (at level 100, c at next level, right associativity).

(* ===================================================================== *)
(** * The engine and its model backends *)
(* ===================================================================== *)

(** The second component of what [mask_pii] returns: label to values, in
    the dict's iteration order. *)
Definition pii_dict : Type := list (string * list string).

(** The model backends are opaque: each is the function that its
    inference call computes, and that call may raise.
    - the LongTransformer and the custom masker are their [mask_pii];
    - the BERT tokenizer maps the text to its tokens, the BERT model maps
      the tokens to their predicted label names ([id2label] applied);
    - the DeBERTa model is only tested for presence.
    An attribute that [__init__] never assigned is [None] here. *)
Record Engine := mkEngine {
  config : Config;
  longtransformer_detector : option (string -> exc pii_dict);
  ml_detector : option (string -> exc pii_dict);
  fallback_ner_model : option (list string -> exc (list string));
  fallback_tokenizer : option (string -> exc (list string));
  base_deberta : bool
}.

(** What the loading attempts of [__init__] produce.  The DeBERTa
    tokenizer ends in [self.base_tokenizer], which nothing reads. *)
Record Loaders := mkLoaders {
  load_longtransformer : exc (string -> exc pii_dict);
  load_custom_model : exc (string -> exc pii_dict);
  import_transformers : exc unit;
  load_bert_model : exc (list string -> exc (list string));
  load_bert_tokenizer : exc (string -> exc (list string));
  load_deberta_model : exc unit;
  load_deberta_tokenizer : exc unit
}.

Definition no_backend (cfg : Config) : Engine :=
  {| config := cfg; longtransformer_detector := None; ml_detector := None;
     fallback_ner_model := None; fallback_tokenizer := None;
     base_deberta := false |}.

(** [__init__]: the cascade of nested [try]/[except] blocks.  An
    assignment made before a later statement of the same [try] raises
    stays in place. *)
Definition __init__ (cfg : option Config) (ld : Loaders) : Engine :=
  let cfg := match cfg with Some c => c | None => default_config end in
  match load_longtransformer ld with
  | Return m =>
      {| config := cfg; longtransformer_detector := Some m;
         ml_detector := None; fallback_ner_model := None;
         fallback_tokenizer := None; base_deberta := false |}
  | Raise _ =>
      match load_custom_model ld with
      | Return m =>
          {| config := cfg; longtransformer_detector := None;
             ml_detector := Some m; fallback_ner_model := None;
             fallback_tokenizer := None; base_deberta := false |}
      | Raise _ =>
          (* try: from transformers import ...; model; tokenizer *)
          let after_import := import_transformers ld in
          let ner :=
            match after_import, load_bert_model ld with
            | Return _, Return m => Some m
            | _, _ => None
            end in
          let tok :=
            match ner, load_bert_tokenizer ld with
            | Some _, Return t => Some t
            | _, _ => None
            end in
          match ner, tok with
          | Some _, Some _ =>
              {| config := cfg; longtransformer_detector := None;
                 ml_detector := None; fallback_ner_model := ner;
                 fallback_tokenizer := tok; base_deberta := false |}
          | _, _ =>
              (* except: try: self.base_deberta = ...; self.base_tokenizer = ...
                 (a failed import leaves the loader class unbound) *)
              let deberta :=
                match after_import, load_deberta_model ld with
                | Return _, Return _ => true
                | _, _ => false
                end in
              {| config := cfg; longtransformer_detector := None;
                 ml_detector := None; fallback_ner_model := ner;
                 fallback_tokenizer := tok; base_deberta := deberta |}
          end
      end
  end.

(* ===================================================================== *)
(** * Model detector *)
(* ===================================================================== *)

Fixpoint assoc (k : string) (table : list (string * string)) : option string :=
  match table with
  | [] => None
  | (k', v) :: table' => if String.eqb k k' then Some v else assoc k table'
  end.

Definition member (x : string) (l : list string) : bool :=
  List.existsb (String.eqb x) l.

(** [_map_ml_label_to_pii_type]. *)
Definition _map_ml_label_to_pii_type (label : string) : option string :=
  assoc label
    [ ("LABEL_0", "EMAIL"); ("LABEL_1", "ID_NUM"); ("LABEL_2", "PERSON");
      ("LABEL_3", "PERSON"); ("LABEL_4", "PERSON"); ("LABEL_5", "PERSON");
      ("LABEL_6", "USERNAME"); ("LABEL_7", "PERSON"); ("LABEL_8", "PERSON");
      ("LABEL_9", "PHONE"); ("LABEL_10", "ADDRESS"); ("LABEL_11", "PERSON");
      ("LABEL_12", "URL") ].

(** [_improve_entity_classification]: the entity is updated in place. *)
Definition _improve_entity_classification (entity : PIIEntity) : PIIEntity :=
  let v := PyStr.strip (PyStr.lower (value entity)) in
  if PyStr.has_char "@" v && PyStr.has_char "." v
  then set_entity_type "EMAIL" entity
  else if PyStr.str_isdigit v && (4 <=? String.length v)%nat
  then set_entity_type "ID_NUM" entity
  else if member v ["hello"; "hi"; "hey"]
  then set_entity_type "GREETING" entity
  else if member v ["email"; "phone"; "address"; "name"]
  then set_entity_type "FIELD_LABEL" entity
  else if member v ["my"; "i"; "me"]
  then set_entity_type "PRONOUN" entity
  else entity.

(** [_filter_ml_entities]. *)
Definition keep_ml_entity (entity : PIIEntity) : bool :=
  let v := PyStr.strip (value entity) in
  if (String.length v <=? 1)%nat then false
  else if member v [","; "."; ":"; ";"; "!"; "?"; " ";
                    String (ascii_of_nat 10) EmptyString;
                    String (ascii_of_nat 9) EmptyString] then false
  else if (String.length v <? 2)%nat then false
  else if PyStr.str_isdigit v && (String.length v <? 4)%nat then false
  else true.

Definition _filter_ml_entities (entities : list PIIEntity) : list PIIEntity :=
  List.filter keep_ml_entity entities.

(** The conversion loop over [pii_dict.items()]: one entity per value
    that [text.find] locates.  [retype] is the label mapping of the
    backend; a label it maps to nothing is skipped. *)
Definition entities_of_pii_dict (text : string) (retype : string -> option string)
    (conf : Q) (method : string) (pii : pii_dict) : list PIIEntity :=
  flat_map
    (fun entry : string * list string =>
       let '(label, values) := entry in
       flat_map
         (fun v =>
            let start := PyStr.find text v in
            if start =? -1 then []
            else match retype label with
                 | Some mapped =>
                     [ {| entity_type := mapped; value := v;
                          start_pos := start;
                          end_pos := start + Z.of_nat (String.length v);
                          confidence := conf; detection_method := method;
                          status := "auto_masked" |} ]
                 | None => []
                 end)
         values)
    pii.

(** The body of the first [try] of [_detect_ml], after [mask_pii]. *)
Definition longtransformer_entities (text : string) (pii : pii_dict)
    : list PIIEntity :=
  let entities :=
    entities_of_pii_dict text _map_ml_label_to_pii_type (85 # 100)
      "longtransformer_pii" pii in
  let entities := _filter_ml_entities entities in
  let entities := map _improve_entity_classification entities in
  List.filter
    (fun e => negb (member (entity_type e) ["GREETING"; "FIELD_LABEL"; "PRONOUN"]))
    entities.

(** The body of the second [try], after [mask_pii]. *)
Definition custom_model_entities (text : string) (pii : pii_dict)
    : list PIIEntity :=
  entities_of_pii_dict text (fun label => Some (PyStr.upper label)) (8 # 10)
    "custom_pii_model" pii.

(** ** [_detect_with_bert_ner] *)

Definition bert_label_mapping : list (string * string) :=
  [ ("B-PER", "PERSON"); ("I-PER", "PERSON");
    ("B-ORG", "ORGANIZATION"); ("I-ORG", "ORGANIZATION");
    ("B-LOC", "LOCATION"); ("I-LOC", "LOCATION") ].

Definition bert_entity (current_entity current_value : string)
    (current_start : Z) : PIIEntity :=
  {| entity_type := current_entity; value := PyStr.strip current_value;
     start_pos := current_start;
     end_pos := current_start + Z.of_nat (String.length current_value);
     confidence := 8 # 10; detection_method := "bert_ner";
     status := "auto_masked" |}.

(** The loop over [enumerate(zip(tokens, predictions))]; the state is
    [(entities, current_entity, current_value, current_start)]. *)
Fixpoint bert_loop (i : Z) (pairs : list (string * string))
    (entities : list PIIEntity) (current_entity : option string)
    (current_value : string) (current_start : Z) : list PIIEntity :=
  match pairs with
  | [] => entities
  | (token, label) :: rest =>
      if PyStr.startswith "B-" label then
        let entities :=
          match current_entity with
          | Some ce => entities ++ [bert_entity ce current_value current_start]
          | None => entities
          end in
        match assoc label bert_label_mapping with
        | Some entity_type =>
            bert_loop (i + 1) rest entities (Some entity_type)
              (PyStr.remove_hashes token) i
        | None =>
            bert_loop (i + 1) rest entities current_entity current_value
              current_start
        end
      else
        match current_entity with
        | Some ce =>
            if PyStr.startswith "I-" label then
              bert_loop (i + 1) rest entities current_entity
                (String.append current_value
                   (String " " (PyStr.remove_hashes token)))
                current_start
            else if String.eqb label "O" then
              bert_loop (i + 1) rest
                (entities ++ [bert_entity ce current_value current_start])
                None EmptyString current_start
            else
              bert_loop (i + 1) rest entities current_entity current_value
                current_start
        | None =>
            bert_loop (i + 1) rest entities current_entity current_value
              current_start
        end
  end.

Definition _detect_with_bert_ner (eng : Engine)
    (model : list string -> exc (list string)) (text : string)
    : exc (list PIIEntity) :=
  tokenizer <- match fallback_tokenizer eng with
               | Some t => Return t
               | None => Raise "AttributeError"
               end ;;
  tokens <- tokenizer text ;;
  labels <- model tokens ;;
  Return (bert_loop 0 (combine tokens labels) [] None EmptyString 0).

(** ** [_detect_with_base_deberta] *)

Definition common_words : list string :=
  [ "The"; "This"; "That"; "These"; "Those"; "And"; "Or"; "But"; "In"; "On";
    "At"; "To"; "For"; "Of"; "With"; "By" ].

Definition first_isupper (w : string) : bool :=
  match w with String c _ => PyStr.isupper c | EmptyString => false end.

Definition _detect_with_base_deberta (text : string) : list PIIEntity :=
  flat_map
    (fun w =>
       if first_isupper w && (2 <? String.length w)%nat
          && negb (PyStr.endswith_char "." w)
          && negb (PyStr.endswith_char "," w)
          && negb (PyStr.existsb PyStr.isdigit w)
       then
         if negb (member w common_words)
         then let start := PyStr.find text w in
              [ {| entity_type := "POTENTIAL_NAME"; value := w;
                   start_pos := start;
                   end_pos := start + Z.of_nat (String.length w);
                   confidence := 3 # 10;
                   detection_method := "base_deberta_heuristic";
                   status := "auto_masked" |} ]
         else []
       else [])
    (PyStr.split text).

(** ** [_detect_ml]

    Each stage is an [if backend: try: ... return entities  except: print]
    block.  [Some r] says that the stage executed [return r]; [None] that
    control fell through to the next stage.  Only the inference call can
    raise here, and it runs before anything is appended, so [entities] is
    still empty whenever control falls through. *)
Definition stage (A : Type) (backend : option A)
    (body : A -> exc (list PIIEntity)) : exc (option (list PIIEntity)) :=
  match backend with
  | Some b =>
      try_except (r <- body b ;; Return (Some r)) (fun _ => Return None)
  | None => Return None
  end.
Arguments stage {A} backend body.

Definition _detect_ml (eng : Engine) (text : string) : exc (list PIIEntity) :=
  r1 <- stage (longtransformer_detector eng)
          (fun backend => pii <- backend text ;;
                          Return (longtransformer_entities text pii)) ;;
  match r1 with
  | Some entities => Return entities
  | None =>
  r2 <- stage (ml_detector eng)
          (fun backend => pii <- backend text ;;
                          Return (custom_model_entities text pii)) ;;
  match r2 with
  | Some entities => Return entities
  | None =>
  r3 <- stage (fallback_ner_model eng)
          (fun model => _detect_with_bert_ner eng model text) ;;
  match r3 with
  | Some entities => Return entities
  | None =>
  r4 <- stage (if base_deberta eng then Some tt else None)
          (fun _ => Return (_detect_with_base_deberta text)) ;;
  match r4 with
  | Some entities => Return entities
  | None => Return []
  end end end end.

(* ===================================================================== *)
(** * Fusion and resolution *)
(* ===================================================================== *)

(** [list.sort(key=lambda x: x.start_pos)]: Python's sort is stable, and
    so is this insertion sort.  [reverse=True] sorts in descending order
    and keeps equal keys in their original order as well. *)
Fixpoint insert_asc (x : PIIEntity) (l : list PIIEntity) : list PIIEntity :=
  match l with
  | [] => [x]
  | y :: l' =>
      if start_pos x <=? start_pos y then x :: y :: l'
      else y :: insert_asc x l'
  end.
Definition sort_asc (l : list PIIEntity) : list PIIEntity :=
  fold_right insert_asc [] l.

Fixpoint insert_desc (x : PIIEntity) (l : list PIIEntity) : list PIIEntity :=
  match l with
  | [] => [x]
  | y :: l' =>
      if start_pos y <=? start_pos x then x :: y :: l'
      else y :: insert_desc x l'
  end.
Definition sort_desc (l : list PIIEntity) : list PIIEntity :=
  fold_right insert_desc [] l.

(** [list.remove(x)]: the first element equal to [x] goes. *)
Fixpoint list_remove (x : PIIEntity) (l : list PIIEntity) : list PIIEntity :=
  match l with
  | [] => []
  | y :: l' => if entity_eqb y x then l' else y :: list_remove x l'
  end.

Definition is_rule_based (e : PIIEntity) : bool :=
  String.eqb (detection_method e) "rule_based".

(** [a > b] on confidences. *)
Definition Qgtb (a b : Q) : bool := negb (Qle_bool a b).

(** [entity.start_pos < existing.end_pos and
     entity.end_pos > existing.start_pos]. *)
Definition overlaps (entity existing : PIIEntity) : bool :=
  (start_pos entity <? end_pos existing)
  && (start_pos existing <? end_pos entity).

(** The inner loop [for existing in resolved: ... break]: [iter] is what
    is left to visit, [resolved] the list being edited; the result is the
    edited list and the [overlap] flag. *)
Fixpoint resolve_against (entity : PIIEntity) (iter resolved : list PIIEntity)
    : list PIIEntity * bool :=
  match iter with
  | [] => (resolved, false)
  | existing :: rest =>
      if overlaps entity existing then
        let resolved' :=
          if is_rule_based entity && negb (is_rule_based existing)
          then list_remove existing resolved ++ [entity]
          else if is_rule_based entity && is_rule_based existing
          then if Qgtb (confidence entity) (confidence existing)
               then list_remove existing resolved ++ [entity]
               else resolved
          else resolved in
        (resolved', true)
      else resolve_against entity rest resolved
  end.

(** One turn of the outer loop. *)
Definition fuse_step (resolved : list PIIEntity) (entity : PIIEntity)
    : list PIIEntity :=
  let '(resolved', overlap) := resolve_against entity resolved resolved in
  if overlap then resolved' else resolved' ++ [entity].

Definition _fuse_and_resolve_entities (rule_entities ml_entities : list PIIEntity)
    : list PIIEntity :=
  let all_entities := rule_entities ++ ml_entities in
  match all_entities with
  | [] => []
  | _ => fold_left fuse_step (sort_asc all_entities) []
  end.

(* ===================================================================== *)
(** * Confidence triage *)
(* ===================================================================== *)

(** [min_conf <= entity.confidence <= max_conf]. *)
Definition in_band (cfg : Config) (entity : PIIEntity) : bool :=
  Qle_bool (min_confidence cfg) (confidence entity)
  && Qle_bool (confidence entity) (snd (questionable_band cfg)).

(** [_mark_questionable_entities] writes [entity.status] in place.  The
    entities of [entities] are distinct objects, each held once, so the
    effect on the caller's list is the first component of the result: the
    same list with the marked entities updated.  The second component is
    the returned list, which holds the marked objects themselves. *)
Fixpoint _mark_questionable_entities (cfg : Config) (entities : list PIIEntity)
    : list PIIEntity * list PIIEntity :=
  match entities with
  | [] => ([], [])
  | entity :: rest =>
      let '(rest', questionable) := _mark_questionable_entities cfg rest in
      if in_band cfg entity
      then let entity' := set_status "questionable" entity in
           (entity' :: rest', entity' :: questionable)
      else (entity :: rest', questionable)
  end.

(* ===================================================================== *)
(** * Masking *)
(* ===================================================================== *)

Definition structured_entities : gset string :=
  {[ "EMAIL"; "CREDIT_CARD"; "PHONE"; "IP_ADDRESS"; "SSN"; "NATIONAL_ID";
     "BANK_ACCT"; "IP" ]}.

Definition free_text_entities : gset string :=
  {[ "PERSON"; "BRAND"; "ADDRESS"; "USERNAME"; "GEO" ]}.

(** [f"[{entity_type.upper()}_{n:03d}]"]. *)
Definition token (etype : string) (n : nat) : string :=
  "[" +:+ PyStr.upper etype +:+ "_" +:+ PyStr.format_03d n +:+ "]".

(** [value[0] + '*' * (len(value) - 1)], or ['*'] for a short value. *)
Definition partial_reveal (v : string) : string :=
  if (1 <? String.length v)%nat
  then match v with
       | String c _ => String c (PyStr.replicate (String.length v - 1) "*")
       | EmptyString => "*"
       end
  else "*".

(** The counter update at the head of the loop body. *)
Definition bump (etype : string) (token_counter : gmap string nat)
    : gmap string nat :=
  match token_counter !! etype with
  | None => <[etype := 1%nat]> token_counter
  | Some n => <[etype := S n]> token_counter
  end.

(** The replacement chosen for [entity], the counter already updated. *)
Definition mask_for (cfg : Config) (token_counter : gmap string nat)
    (entity : PIIEntity) : string :=
  let etype := entity_type entity in
  let n := default 0%nat (token_counter !! etype) in
  if bool_decide (etype ∈ structured_entities) then token etype n
  else if bool_decide (etype ∈ free_text_entities) then
    if bool_decide (mask_format cfg = Some "PARTIAL_REVEAL")
    then partial_reveal (value entity)
    else token etype n
  else token etype n.

(** [masked_text[:start_pos] + mask + masked_text[end_pos:]]. *)
Definition splice (masked_text : string) (entity : PIIEntity) (mask : string)
    : string :=
  PyStr.slice_to masked_text (start_pos entity)
  +:+ mask +:+ PyStr.slice_from masked_text (end_pos entity).

(** One turn of the masking loop on [(masked_text, token_counter)]. *)
Definition mask_step (cfg : Config) (st : string * gmap string nat)
    (entity : PIIEntity) : string * gmap string nat :=
  let '(masked_text, token_counter) := st in
  let token_counter := bump (entity_type entity) token_counter in
  (splice masked_text entity (mask_for cfg token_counter entity), token_counter).

Definition mask_loop (cfg : Config) (entities : list PIIEntity)
    (st : string * gmap string nat) : string * gmap string nat :=
  fold_left (mask_step cfg) entities st.

(** [_mask_text] sorts its argument in place, and the argument is the
    caller's list: the first component is that list after the call, the
    second the returned text. *)
Definition _mask_text (cfg : Config) (text : string) (entities : list PIIEntity)
    : list PIIEntity * string :=
  match entities with
  | [] => ([], text)
  | _ =>
      let entities := sort_desc entities in
      (entities, fst (mask_loop cfg entities (text, ∅)))
  end.

(* ===================================================================== *)
(** * The orchestrator *)
(* ===================================================================== *)

(** [detect_pii] is a plain sequence of calls with no handler of its own.
    It is written once over its six steps, each of which may raise, so
    that what happens to an exception of a step can be stated; the engine
    runs it with the steps above.  [elapsed] is the difference of the two
    clock readings. *)
Section Orchestrator.

Variable detect_rule_based : string -> exc (list PIIEntity).
Variable detect_ml : string -> exc (list PIIEntity).
Variable fuse : list PIIEntity -> list PIIEntity -> exc (list PIIEntity).
Variable mark : list PIIEntity -> exc (list PIIEntity * list PIIEntity).
Variable mask : string -> list PIIEntity -> exc (list PIIEntity * string).
Variable validate_residual : string -> exc (list PIIEntity).

Definition detect_pii_with (elapsed : Q) (text : string) : exc DetectionResult :=
  rule_entities <- detect_rule_based text ;;
  ml_entities <- detect_ml text ;;
  all_entities <- fuse rule_entities ml_entities ;;
  marked <- mark all_entities ;;
  let '(all_entities, questionable) := marked in
  masked <- mask text all_entities ;;
  let '(all_entities, masked_text) := masked in
  residual <- validate_residual masked_text ;;
  Return {| entities_found := all_entities;
            masked_content := masked_text;
            original_text := text;
            processing_time := elapsed;
            questionable_entities := questionable;
            residual_entities := residual |}.

End Orchestrator.

Definition detect_pii (eng : Engine) (elapsed : Q) (text : string)
    : exc DetectionResult :=
  detect_pii_with
    (fun t => Return (_detect_rule_based t))
    (_detect_ml eng)
    (fun r m => Return (_fuse_and_resolve_entities r m))
    (fun es => Return (_mark_questionable_entities (config eng) es))
    (fun t es => Return (_mask_text (config eng) t es))
    (fun t => Return (_validate_residual_pii t))
    elapsed text.

(** The end-to-end scenario and an engine without any model backend. *)
Definition scenario_text : string :=
  "Contact John Smith at john.smith@email.com or (555) 123-4567, SSN 123-45-6789.".
Definition rule_only_engine : Engine := no_backend default_config.

(* ===================================================================== *)
(** * The rest of the engine *)
(* ===================================================================== *)

(** [get_detection_methods]. *)
Definition get_detection_methods (eng : Engine) : list string :=
  let methods := ["rule_based"] in
  let methods :=
    match longtransformer_detector eng with
    | Some _ => methods ++ ["longtransformer_pii"]
    | None => methods
    end in
  let methods :=
    match ml_detector eng with
    | Some _ => methods ++ ["custom_pii_model"]
    | None => methods
    end in
  let methods :=
    match fallback_ner_model eng with
    | Some _ => methods ++ ["bert_ner"]
    | None => methods
    end in
  if base_deberta eng then methods ++ ["base_deberta_heuristic"] else methods.

(* ===================================================================== *)
(** * File processor ([file_processor.py]) *)
(* ===================================================================== *)

(** From here on the string of [Raise] is the message [str(e)] of the
    exception: the callers below catch [Exception] whatever its class and
    keep the message. *)



Module FileProcessor.

(** [@dataclass FileInfo]. *)
Record FileInfo := mkFileInfo {
  path : string;
  file_type : string;
  size : Z;
  file_size : Z;
  encoding : string;
  row_count : option Z;
  column_count : option Z;
  page_count : option Z;
  has_comments : bool;
  has_tracked_changes : bool;
  has_hyperlinks : bool;
  is_image_only_pdf : bool
}.

(** What the file system and the document libraries answer for the path
    that is being processed.
    - [file_exists], [name] and [suffix] are [Path.exists()], [str(path)]
      and [path.suffix];
    - [st_size] and [detected_encoding] come from [stat] and [chardet];
    - the five analysers catch their own exceptions and return tuples;
    - [read_text] is what opening the file and reading all of it in the
      detected encoding gives;
    - [import_fitz] is the import at the head of the PDF processor and
      [pdf_pages] the text of every page;
    - [table_or_office] is the outcome of the CSV, DOCX, PPTX and XLSX
      processors, which are not modelled. *)
Record FileState := mkFileState {
  file_exists : bool;
  name : string;
  suffix : string;
  st_size : Z;
  detected_encoding : string;
  csv_rows_columns : Z * Z;
  xlsx_analysis : Z * Z * bool;
  docx_analysis : bool * bool * bool;
  pptx_analysis : bool * bool;
  pdf_analysis : Z * bool;
  read_text : exc string;
  import_fitz : exc unit;
  pdf_pages : exc (list string);
  table_or_office : exc (string * list PIIEntity * gmap string Z)
}.

(** The entries of [self.config] that the text processors read. *)
Record ProcessorConfig := mkProcessorConfig {
  chunk_size : Z;
  enable_streaming : bool
}.

Definition default_processor_config : ProcessorConfig :=
  {| chunk_size := 50000; enable_streaming := true |}.





(** [file_obj.read(n)] on the text that is left to read: the characters
    read and the text left after them.  A negative [n] reads to the end. *)
Definition read (n : Z) (file_obj : string) : string * string :=
  if n <? 0 then (file_obj, EmptyString)
  else (PyStr.take (Z.to_nat n) file_obj, PyStr.drop (Z.to_nat n) file_obj).

(** The loop [while True: chunk = read(chunk_size); if not chunk: break;
    yield chunk].  Every turn that yields takes at least one character,
    so a fuel above the length of the text is never used up. *)
Fixpoint read_file_chunks_loop (fuel : nat) (chunk_size : Z)
    (file_obj : string) : list string :=
  match fuel with
  | O => []
  | S fuel' =>
      let '(chunk, file_obj') := read chunk_size file_obj in
      match chunk with
      | EmptyString => []
      | _ => chunk :: read_file_chunks_loop fuel' chunk_size file_obj'
      end
  end.

(** [_read_file_chunks]: the chunks that the generator yields. *)
Definition _read_file_chunks (cfg : ProcessorConfig) (file_obj : string)
    (chunk_size : option Z) : list string :=
  let chunk_size :=
    match chunk_size with
    | None => FileProcessor.chunk_size cfg
    | Some n => n
    end in
  read_file_chunks_loop (S (String.length file_obj)) chunk_size file_obj.

(** The loop of [_process_text_file_streaming] over the chunks.  [tick]
    is the clock difference inside [detect_pii], which nothing reads. *)
Fixpoint streaming_loop (eng : Engine) (tick : Q) (chunks : list string)
    (all_entities : list PIIEntity) (masked_content : string)
    : exc (string * list PIIEntity) :=
  match chunks with
  | [] => Return (masked_content, all_entities)
  | chunk :: chunks' =>
      result <- detect_pii eng tick chunk ;;
      let 'mkResult result_entities result_masked _ _ _ _ := result in
      streaming_loop eng tick chunks'
        (all_entities ++ result_entities)
        (String.append masked_content result_masked)
  end.

(** [_process_text_file_streaming]: the statistics are the empty dict. *)
Definition _process_text_file_streaming (eng : Engine) (cfg : ProcessorConfig)
    (tick : Q) (f : FileState)
    : exc (string * list PIIEntity * gmap string Z) :=
  try_except
    (content <- read_text f ;;
     r <- streaming_loop eng tick (_read_file_chunks cfg content None) []
            EmptyString ;;
     Return (r, ∅))
    (fun e => Raise (String.append "Error processing text file: " e)).

(** [_process_text_file_standard]. *)
Definition _process_text_file_standard (eng : Engine) (tick : Q)
    (f : FileState) : exc (string * list PIIEntity * gmap string Z) :=
  try_except
    (content <- read_text f ;;
     result <- detect_pii eng tick content ;;
     let 'mkResult result_entities result_masked _ _ _ _ := result in
     Return (result_masked, result_entities, ∅))
    (fun e => Raise (String.append "Error processing text file: " e)).





(** [@dataclass ProcessingResult]. *)
Record ProcessingResult := mkProcessingResult {
  file_info : FileInfo;
  detection_result : DetectionResult;
  masked_content : string;
  entities_found : list PIIEntity;
  processing_time : Q;
  errors : list string;
  questionable_entities : list PIIEntity;
  residual_entities : list PIIEntity;
  comments_masked : Z;
  hyperlinks_processed : Z;
  tracked_changes_processed : Z
}.


End FileProcessor.

(* ===================================================================== *)
(** * Batch processing ([performance_optimizer.py]) *)
(* ===================================================================== *)

Module PerformanceOptimizer.

(** The caps of [PerformanceCaps] that the three choices below read. *)
Record PerformanceCaps := mkCaps {
  max_batch_files : Z;
  max_concurrent_files : Z
}.

Definition default_caps : PerformanceCaps :=
  {| max_batch_files := 50; max_concurrent_files := 3 |}.

(** The three choices take the readings of [psutil] as arguments: the
    available memory in megabytes and the number of processors. *)
Definition _optimize_processing_strategy (available_memory_mb : Q)
    (cpu_count : Z) : string :=
  if Qlt_le_dec available_memory_mb 2000 then "sequential_streaming"
  else if Qlt_le_dec available_memory_mb 4000 then "sequential_buffered"
  else if 4 <=? cpu_count then "parallel_limited"
  else "sequential_optimized".

Definition _calculate_optimal_batch_size (caps : PerformanceCaps)
    (available_memory_mb : Q) : Z :=
  if Qlt_le_dec available_memory_mb 2000 then 5
  else if Qlt_le_dec available_memory_mb 4000 then 10
  else if Qlt_le_dec available_memory_mb 8000 then 20
  else Z.min 50 (max_batch_files caps).

Definition _calculate_optimal_concurrency (caps : PerformanceCaps)
    (available_memory_mb : Q) (cpu_count : Z) : Z :=
  if Qlt_le_dec available_memory_mb 2000 then 1
  else if Qlt_le_dec available_memory_mb 4000 then Z.min 2 cpu_count
  else Z.min (Z.min 3 cpu_count) (max_concurrent_files caps).

(** The sequential strategies of [LaptopOptimizedProcessor].  The
    processor function may change a state of its own (the command line
    interface appends to its list of fatal errors), also when it raises;
    [error_dict] builds the dict with the keys error and file that takes
    the place of a result when it does. *)
Section Sequential.

Context {State Result : Type}.
Variable processor_func : State -> string -> State * exc Result.
Variable error_dict : string -> string -> Result.

(** The loop body shared by the three strategies, on the state of the
    processor function, [results] and [metrics.file_count]. *)
Definition process_one (acc : State * list Result * Z) (file_path : string)
    : State * list Result * Z :=
  let '(st, results, file_count) := acc in
  match processor_func st file_path with
  | (st', Return result) => (st', results ++ [result], file_count + 1)
  | (st', Raise e) => (st', results ++ [error_dict e file_path], file_count)
  end.

Definition _process_sequential_streaming (file_paths : list string)
    (st : State) (file_count : Z) : State * list Result * Z :=
  fold_left process_one file_paths (st, [], file_count).


(** [range(0, n, step)]; a zero step is a ValueError. *)
Definition range_from_zero (n step : Z) : exc (list Z) :=
  if step =? 0 then Raise "range() arg 3 must not be zero"
  else if step <? 0 then Return []
  else Return (map (fun k : nat => Z.of_nat k * step)
                 (seq 0 (Z.to_nat ((n + step - 1) / step)))).

(** [file_paths[i:j]] for bounds that are not negative. *)
Definition list_slice (l : list string) (i j : Z) : list string :=
  take (Z.to_nat j - Z.to_nat i) (drop (Z.to_nat i) l).

Definition _process_sequential_buffered (batch_size : Z)
    (file_paths : list string) (st : State) (file_count : Z)
    : exc (State * list Result * Z) :=
  starts <- range_from_zero (Z.of_nat (length file_paths)) batch_size ;;
  Return
    (fold_left
       (fun acc i =>
          fold_left process_one (list_slice file_paths i (i + batch_size)) acc)
       starts (st, [], file_count)).

End Sequential.

End PerformanceOptimizer.

(* ===================================================================== *)
(** * Command line interface ([cli.py]) *)
(* ===================================================================== *)

Module CloakAndStyleCLI.


(** The dicts that stand for the result of one file.  A key that a dict
    does not hold is [None]; the last two keys are those of the dict that
    the batch processor builds when the processor function raises. *)
Record ResultDict := mkResultDict {
  file_path : option string;
  status : option string;
  errors : option (list string);
  processing_time : option Q;
  entities_found : option Z;
  questionable_entities : option Z;
  residual_entities : option Z;
  output_file : option string;
  error : option string;
  file : option string
}.








(** The dict that the batch processor builds when the processor function
    raises. *)
Definition error_dict (e path : string) : ResultDict :=
  {| file_path := None; status := None; errors := None;
     processing_time := None; entities_found := None;
     questionable_entities := None; residual_entities := None;
     output_file := None; error := Some e; file := Some path |}.









End CloakAndStyleCLI.

(* ===================================================================== *)
(** * Report figures ([report_generator.py]) *)
(* ===================================================================== *)

Module ReportGenerator.

(** [summary[entity_type] = summary.get(entity_type, 0) + 1]. *)
Definition count_entity (summary : gmap string Z) (entity : PIIEntity)
    : gmap string Z :=
  <[entity_type entity := default 0 (summary !! entity_type entity) + 1]> summary.

(** [_generate_entity_summary]. *)
Definition _generate_entity_summary
    (results : list FileProcessor.ProcessingResult) : gmap string Z :=
  fold_left
    (fun summary result =>
       fold_left count_entity (FileProcessor.entities_found result) summary)
    results ∅.

(** The bucket of a confidence. *)
Definition bucket (conf : Q) : string :=
  if Qlt_le_dec conf (2 # 10) then "0.0-0.2"
  else if Qlt_le_dec conf (4 # 10) then "0.2-0.4"
  else if Qlt_le_dec conf (6 # 10) then "0.4-0.6"
  else if Qlt_le_dec conf (8 # 10) then "0.6-0.8"
  else "0.8-1.0".

(** [histogram[key] += 1] on a key that the dict holds. *)
Definition count_confidence (histogram : gmap string Z) (entity : PIIEntity)
    : gmap string Z :=
  let key := bucket (confidence entity) in
  <[key := default 0 (histogram !! key) + 1]> histogram.

Definition empty_histogram : gmap string Z :=
  <["0.0-0.2" := 0]> (<["0.2-0.4" := 0]> (<["0.4-0.6" := 0]>
    (<["0.6-0.8" := 0]> (<["0.8-1.0" := 0]> ∅)))).

(** [_generate_confidence_histogram]. *)
Definition _generate_confidence_histogram
    (results : list FileProcessor.ProcessingResult) : gmap string Z :=
  fold_left
    (fun histogram result =>
       fold_left count_confidence (FileProcessor.entities_found result) histogram)
    results empty_histogram.

End ReportGenerator.

(* ===================================================================== *)
(** * Specification-side definitions *)
(* ===================================================================== *)

(** ** The Luhn checksum *)

(** The Luhn formula as it is usually stated: counting from the rightmost
    digit, every second digit is doubled and replaced by the sum of the
    decimal digits of the product; the number is valid when the total is a
    multiple of ten. *)
Definition digit_sum (n : Z) : Z := n / 10 + n mod 10.

Definition luhn_term (digits : list Z) (k : nat) : Z :=
  let d := nth (length digits - 1 - k) digits 0 in
  if Nat.even k then d else digit_sum (2 * d).

Definition luhn_total (digits : list Z) : Z :=
  fold_right Z.add 0 (map (luhn_term digits) (seq 0 (length digits))).

Definition luhn_valid (digits : list Z) : Prop :=
  luhn_total digits mod 10 = 0.

(** The share of the digit [d] found at index [k] from the right. *)
Definition code_term (k : nat) (d : Z) : Z :=
  if Nat.even k then d else digit_sum (2 * d).

Definition is_digit_value (d : Z) : Prop := 0 <= d <= 9.

(** ** Spans *)

(** Two spans are disjoint in the sense of the no-overlap invariant. *)
Definition disjoint (a b : PIIEntity) : Prop :=
  start_pos a >= end_pos b \/ start_pos b >= end_pos a.

(** No two entities of [l] overlap. *)
Fixpoint pairwise_disjoint (l : list PIIEntity) : Prop :=
  match l with
  | [] => True
  | x :: l' => Forall (disjoint x) l' /\ pairwise_disjoint l'
  end.

(** The orders of the two sorts. *)
Definition starts_le (a b : PIIEntity) : Prop := start_pos a <= start_pos b.
Definition starts_ge (a b : PIIEntity) : Prop := start_pos b <= start_pos a.

(** The test of the fusion loop, as one condition: the candidate takes
    the place of the overlapping [existing]. *)
Definition candidate_wins (candidate existing : PIIEntity) : bool :=
  if is_rule_based candidate && negb (is_rule_based existing) then true
  else if is_rule_based candidate && is_rule_based existing
  then Qgtb (confidence candidate) (confidence existing)
  else false.

(** ** Fusion in the words of the specification *)

(** The first entity of [resolved], in list order, whose span overlaps the
    candidate's, with its index. *)
Fixpoint first_overlap (candidate : PIIEntity) (resolved : list PIIEntity)
    : option (nat * PIIEntity) :=
  match resolved with
  | [] => None
  | existing :: rest =>
      if overlaps candidate existing then Some (O, existing)
      else match first_overlap candidate rest with
           | Some (i, e) => Some (S i, e)
           | None => None
           end
  end.

(** A rule-based candidate beats a model entity, and beats a rule-based
    entity only with a strictly higher confidence; a model candidate
    never wins. *)
Definition prevails (candidate existing : PIIEntity) : bool :=
  if is_rule_based candidate
  then if is_rule_based existing
       then if Qlt_le_dec (confidence existing) (confidence candidate)
            then true else false
       else true
  else false.

(** One candidate against the resolved list: appended when nothing
    overlaps; otherwise it contends with the first overlapping entity
    only, and either takes its place (the entity is removed, the
    candidate appended) or is dropped. *)
Definition resolve_spec (resolved : list PIIEntity) (candidate : PIIEntity)
    : list PIIEntity :=
  match first_overlap candidate resolved with
  | None => resolved ++ [candidate]
  | Some (i, existing) =>
      if prevails candidate existing
      then delete i resolved ++ [candidate]
      else resolved
  end.

Definition fuse_spec (candidates : list PIIEntity) : list PIIEntity :=
  fold_left resolve_spec candidates [].

(** [sorted] is a stable ascending arrangement of [l]. *)
Definition stable_ascending (l sorted : list PIIEntity) : Prop :=
  Permutation l sorted
  /\ StronglySorted starts_le sorted
  /\ forall k : Z,
       List.filter (fun e => start_pos e =? k) sorted
       = List.filter (fun e => start_pos e =? k) l.

(** ** The pipeline behind [detect_pii] *)

(** What triage leaves in the caller's list for one entity. *)
Definition mark_entity (cfg : Config) (e : PIIEntity) : PIIEntity :=
  if in_band cfg e then set_status "questionable" e else e.

(** The result of [detect_pii] once the model detector has returned
    [ml_entities]. *)
Definition pipeline (cfg : Config) (elapsed : Q) (text : string)
    (ml_entities : list PIIEntity) : DetectionResult :=
  let resolved := _fuse_and_resolve_entities (_detect_rule_based text) ml_entities in
  let marked := _mark_questionable_entities cfg resolved in
  let masked := _mask_text cfg text (fst marked) in
  {| entities_found := fst masked;
     masked_content := snd masked;
     original_text := text;
     processing_time := elapsed;
     questionable_entities := snd marked;
     residual_entities := _validate_residual_pii (snd masked) |}.

(** Two entities that differ at most in [status]. *)
Definition same_but_status (a b : PIIEntity) : Prop :=
  entity_type a = entity_type b /\ value a = value b
  /\ start_pos a = start_pos b /\ end_pos a = end_pos b
  /\ confidence a = confidence b /\ detection_method a = detection_method b.

(** ** Masking *)

(** The sequence number that the next entity of type [etype] receives. *)
Definition next_number (etype : string) (token_counter : gmap string nat) : nat :=
  match token_counter !! etype with
  | None => 1%nat
  | Some n => S n
  end.

(** The default configuration with [mask_format] set to partial reveal. *)
Definition partial_reveal_config : Config :=
  {| mask_format := Some "PARTIAL_REVEAL";
     min_confidence := 35 # 100;
     questionable_band := (35 # 100, 65 # 100) |}.

(** A rule-based e-mail entity found at offset [start]. *)
Definition email_entity (address : string) (start : Z) : PIIEntity :=
  {| entity_type := "EMAIL"; value := address; start_pos := start;
     end_pos := start + Z.of_nat (String.length address);
     confidence := 1; detection_method := "rule_based";
     status := "auto_masked" |}.

(** ** The backend chain *)

(** The computation ends in an exception. *)
Definition raises {A : Type} (c : exc A) : Prop := exists e, c = Raise e.

(** The attempts that [_detect_ml] makes on [text], in chain order: one
    per loaded backend, each with its outcome. *)
Definition attempts (eng : Engine) (text : string) : list (exc (list PIIEntity)) :=
  match longtransformer_detector eng with
  | Some backend =>
      [pii <- backend text ;; Return (longtransformer_entities text pii)]
  | None => []
  end
  ++ match ml_detector eng with
     | Some backend =>
         [pii <- backend text ;; Return (custom_model_entities text pii)]
     | None => []
     end
  ++ match fallback_ner_model eng with
     | Some model => [_detect_with_bert_ner eng model text]
     | None => []
     end
  ++ (if base_deberta eng then [Return (_detect_with_base_deberta text)] else []).

(** The entities of the first attempt that returns; none when every
    attempt raises. *)
Fixpoint first_returned (l : list (exc (list PIIEntity))) : list PIIEntity :=
  match l with
  | [] => []
  | Return entities :: _ => entities
  | Raise _ :: l' => first_returned l'
  end.

(** Loading outcomes under which [__init__] keeps a BERT model without
    its tokenizer and then loads the DeBERTa model as well. *)
Definition half_loaded_bert : Loaders :=
  {| load_longtransformer := Raise "ModuleNotFoundError";
     load_custom_model := Raise "ModuleNotFoundError";
     import_transformers := Return tt;
     load_bert_model := Return (fun tokens => Return (map (fun _ => "O") tokens));
     load_bert_tokenizer := Raise "OSError";
     load_deberta_model := Return tt;
     load_deberta_tokenizer := Return tt |}.

(** An engine whose only backend raises on every input. *)
Definition failing_engine : Engine :=
  {| config := default_config;
     longtransformer_detector := Some (fun _ => Raise "RuntimeError");
     ml_detector := None; fallback_ner_model := None;
     fallback_tokenizer := None; base_deberta := false |}.

(** ** Masking completeness *)

(** The characters that a full token of type [etype] is made of. *)
Definition token_alphabet (etype : string) (c : ascii) : bool :=
  PyStr.isdigit c || PyStr.has_char c "[_]" || PyStr.has_char c (PyStr.upper etype).

(** The characters that a partial-reveal mask of [v] is made of. *)
Definition partial_alphabet (v : string) (c : ascii) : bool :=
  Ascii.eqb c "*"
  || match v with String c0 _ => Ascii.eqb c c0 | EmptyString => false end.

(** The characters that the replacement of [entity] is made of; the
    cases are those of [mask_for]. *)
Definition mask_alphabet (cfg : Config) (entity : PIIEntity) (c : ascii) : bool :=
  let etype := entity_type entity in
  if bool_decide (etype ∈ structured_entities) then token_alphabet etype c
  else if bool_decide (etype ∈ free_text_entities) then
    if bool_decide (mask_format cfg = Some "PARTIAL_REVEAL")
    then partial_alphabet (value entity) c
    else token_alphabet etype c
  else token_alphabet etype c.

(** The value holds a character that its replacement cannot hold. *)
Definition escapes_mask (cfg : Config) (entity : PIIEntity) : bool :=
  PyStr.existsb (fun c => negb (mask_alphabet cfg entity c)) (value entity).

(** A non-empty span inside [text]. *)
Definition in_bounds (text : string) (e : PIIEntity) : Prop :=
  0 <= start_pos e < end_pos e /\ end_pos e <= Z.of_nat (String.length text).

(** The entities of [l], taken in order, lie below [bound] and each one
    below the one before it. *)
Fixpoint descending_chain (bound : Z) (l : list PIIEntity) : Prop :=
  match l with
  | [] => True
  | e :: l' =>
      0 <= start_pos e <= end_pos e /\ end_pos e <= bound
      /\ descending_chain (start_pos e) l'
  end.

(** The counter with which the masking loop reaches [e] after it has
    processed [before], and the replacement that it then computes. *)
Definition counter_at (cfg : Config) (text : string) (before : list PIIEntity)
    (e : PIIEntity) : gmap string nat :=
  bump (entity_type e) (snd (mask_loop cfg before (text, ∅))).

Definition replacement (cfg : Config) (text : string) (before : list PIIEntity)
    (e : PIIEntity) : string :=
  mask_for cfg (counter_at cfg text before e) e.

(** Loading outcomes under which only the DeBERTa fallback is loaded. *)
Definition deberta_only : Loaders :=
  {| load_longtransformer := Raise "ModuleNotFoundError";
     load_custom_model := Raise "ModuleNotFoundError";
     import_transformers := Return tt;
     load_bert_model := Raise "OSError";
     load_bert_tokenizer := Raise "OSError";
     load_deberta_model := Return tt;
     load_deberta_tokenizer := Return tt |}.

(** An engine with the custom model as backend, the model reporting the
    name of the scenario, and a questionable band that reaches 0.9. *)
Definition review_engine : Engine :=
  {| config := {| mask_format := Some "TOKEN"; min_confidence := 35 # 100;
                  questionable_band := (35 # 100, 9 # 10) |};
     longtransformer_detector := None;
     ml_detector := Some (fun _ => Return [("person", ["John Smith"])]);
     fallback_ner_model := None; fallback_tokenizer := None;
     base_deberta := false |}.

(** A model entity of type PERSON over the span of an e-mail address. *)
Definition person_over (address : string) (start : Z) : PIIEntity :=
  {| entity_type := "PERSON"; value := address; start_pos := start;
     end_pos := start + Z.of_nat (String.length address);
     confidence := 8 # 10; detection_method := "custom_pii_model";
     status := "auto_masked" |}.

(** ** Matches of the pattern table *)

(** Every match of [r] takes at least one character. *)
Fixpoint consumes (r : Re.regex) : bool :=
  match r with
  | Re.Cls _ => true
  | Re.Seq r1 r2 => consumes r1 || consumes r2
  | Re.Rep r' lo _ => (0 <? lo)%nat && consumes r'
  | Re.Eps | Re.Bnd | Re.NotAhead _ => false
  end.

(** The continuation [k] was entered at a cursor that lies at or after
    [pos] (strictly after when [strict] holds), with as much text left as
    the move allows. *)
Definition reached (k : option ascii -> string -> nat -> option nat)
    (s : string) (pos : nat) (strict : bool) (e : nat) : Prop :=
  exists prev' s' pos',
    k prev' s' pos' = Some e
    /\ (pos <= pos')%nat
    /\ (pos' + String.length s' = pos + String.length s)%nat
    /\ (strict = true -> (pos < pos')%nat).

(** ** Further specification-side definitions *)

(** The tags that the residual validator writes over a finding. *)
Definition retag_residual (e : PIIEntity) : PIIEntity :=
  {| entity_type := entity_type e; value := value e;
     start_pos := start_pos e; end_pos := end_pos e;
     confidence := confidence e;
     detection_method := "residual_validation"; status := "residual" |}.

(** The validator registered for the type of [e], if any, accepts its
    value. *)
Definition passes_validator (e : PIIEntity) : Prop :=
  match lookup_validator (entity_type e) validators with
  | Some validate => validate (value e) = true
  | None => True
  end.

(** The share of one reversed digit in the Luhn checksum, as the loop
    adds it. *)
Definition loop_term (i : nat) (digit : Z) : Z :=
  if (i mod 2 =? 1)%nat
  then (if digit * 2 <? 10 then digit * 2 else digit * 2 - 9)
  else digit.

(** ** The model backends *)

(** The method and the confidence that each backend writes on its
    entities. *)
Definition backend_profile : list (string * Q) :=
  [ ("longtransformer_pii", 85 # 100); ("custom_pii_model", 8 # 10);
    ("bert_ner", 8 # 10); ("base_deberta_heuristic", 3 # 10) ].

Definition has_backend_profile (e : PIIEntity) : Prop :=
  In (detection_method e, confidence e) backend_profile
  /\ status e = "auto_masked".

(** Nothing in [l] claims to come from the pattern detector. *)
Definition model_only (l : list PIIEntity) : Prop :=
  Forall (fun e => is_rule_based e = false) l.

(** [y] is a pattern finding that covers at least one character of [x]. *)
Definition covered_by (x y : PIIEntity) : Prop :=
  is_rule_based y = true /\ overlaps x y = true.

(** The backend that an entity names is loaded, and the entity carries
    that backend's confidence. *)
Definition stamped (eng : Engine) (e : PIIEntity) : Prop :=
  has_backend_profile e /\ In (detection_method e) (get_detection_methods eng).

(** The number of entities of [l] whose type is [etype]. *)
Definition count_type (etype : string) (l : list PIIEntity) : nat :=
  length (List.filter (fun e => String.eqb (entity_type e) etype) l).

(** A token label that neither opens nor closes an entity. *)
Definition keeps_open (p : string * string) : Prop :=
  PyStr.startswith "B-" (snd p) = false /\ snd p <> "O".

(** ** Validators *)




(** ** Partial reveal *)

(** A free-text entity whose value has at least two characters and fills
    its span, which lies inside a text of [n] characters. *)
Definition revealable (n : nat) (e : PIIEntity) : Prop :=
  (entity_type e ∉ structured_entities)
  /\ (entity_type e ∈ free_text_entities)
  /\ (2 <= String.length (value e))%nat
  /\ 0 <= start_pos e
  /\ end_pos e = start_pos e + Z.of_nat (String.length (value e))
  /\ end_pos e <= Z.of_nat n.

(** ** Files, batches and reports *)

(** The chunks put back together. *)
Definition join_chunks (chunks : list string) : string :=
  fold_right String.append EmptyString chunks.

(** A configuration of the file processor with another chunk size. *)
Definition chunks_of (n : Z) : FileProcessor.ProcessorConfig :=
  {| FileProcessor.chunk_size := n; FileProcessor.enable_streaming := true |}.

(** A text file of the given content that is there and can be read. *)
Definition text_file (file_name content : string) : FileProcessor.FileState :=
  {| FileProcessor.file_exists := true;
     FileProcessor.name := file_name;
     FileProcessor.suffix := ".txt";
     FileProcessor.st_size := Z.of_nat (String.length content);
     FileProcessor.detected_encoding := "ascii";
     FileProcessor.csv_rows_columns := (0, 0);
     FileProcessor.xlsx_analysis := (0, 0, false);
     FileProcessor.docx_analysis := (false, false, false);
     FileProcessor.pptx_analysis := (false, false);
     FileProcessor.pdf_analysis := (0, false);
     FileProcessor.read_text := Return content;
     FileProcessor.import_fitz := Raise "No module named 'fitz'";
     FileProcessor.pdf_pages := Raise "No module named 'fitz'";
     FileProcessor.table_or_office := Raise "not a table" |}.




(** The entities of all results, in report order. *)
Definition reported_entities (results : list FileProcessor.ProcessingResult)
    : list PIIEntity :=
  flat_map FileProcessor.entities_found results.

(** The number of entities of [l] whose confidence falls in [key]. *)
Definition count_bucket (key : string) (l : list PIIEntity) : Z :=
  Z.of_nat (length (List.filter
                      (fun e => String.eqb (ReportGenerator.bucket (confidence e)) key)
                      l)).

Definition bucket_keys : list string :=
  ["0.0-0.2"; "0.2-0.4"; "0.4-0.6"; "0.6-0.8"; "0.8-1.0"].


(** What [detect_pii] returns on [text]: the pipeline run on the
    entities of the first model attempt that returns. *)
Definition detected (eng : Engine) (elapsed : Q) (text : string)
    : DetectionResult :=
  pipeline (config eng) elapsed text (first_returned (attempts eng text)).

(** The model backends of [eng] report spans inside the text they are
    given. *)
Definition models_in_bounds (eng : Engine) : Prop :=
  forall text, Forall (in_bounds text) (first_returned (attempts eng text)).

(** A processor function without a state of its own that fails on the
    path [bad.txt] and returns the length of any other path. *)
Definition sample_processor (st : unit) (file_path : string)
    : unit * exc Z :=
  if String.eqb file_path "bad.txt" then (st, Raise "cannot read")
  else (st, Return (Z.of_nat (String.length file_path))).

(** The dict with the keys error and file, as the number -1. *)
Definition sample_error (e file_path : string) : Z := -1.

(** ** The command line interface *)









(* ===================================================================== *)
(** * Lemmas *)
(* ===================================================================== *)

(** ** The Luhn checksum *)

Lemma odd_index_test k : (k mod 2 =? 1)%nat = negb (Nat.even k).
Proof.
  destruct (Nat.even k) eqn:E.
  - apply Nat.even_spec in E. destruct E as [m ->].
    replace (2 * m)%nat with (m * 2)%nat by lia.
    rewrite Nat.Div0.mod_mul. reflexivity.
  - rewrite <- Nat.negb_odd in E. apply negb_false_iff in E.
    apply Nat.odd_spec in E. destruct E as [m ->].
    replace (2 * m + 1)%nat with (1 + m * 2)%nat by lia.
    rewrite Nat.Div0.mod_add. reflexivity.
Qed.

Lemma doubled_digit_sum d :
  is_digit_value d ->
  (if d * 2 <? 10 then d * 2 else d * 2 - 9) = digit_sum (2 * d).
Proof.
  intros [Hlo Hhi]. unfold digit_sum.
  assert (d = 0 \/ d = 1 \/ d = 2 \/ d = 3 \/ d = 4 \/ d = 5 \/ d = 6 \/ d = 7
          \/ d = 8 \/ d = 9) as Hd by lia.
  repeat (destruct Hd as [-> | Hd]; [reflexivity |]). subst d. reflexivity.
Qed.

Lemma luhn_loop_sum l : forall i acc,
  Forall is_digit_value l ->
  luhn_loop l i acc =
  acc + fold_right Z.add 0
          (map (fun k => code_term (i + k) (nth k l 0)) (seq 0 (length l))).
Proof.
  induction l as [| x l IH]; intros i acc Hl;
    cbn [luhn_loop length seq map fold_right nth].
  - lia.
  - inversion Hl as [| ? ? Hx Hl']; subst.
    rewrite odd_index_test, <- seq_shift, map_map.
    replace (i + 0)%nat with i by lia.
    rewrite (map_ext _ (fun k => code_term (S i + k) (nth k l 0)))
      by (intros k; cbn [nth]; f_equal; lia).
    unfold code_term at 1.
    destruct (Nat.even i); cbn [negb]; rewrite IH by assumption.
    + lia.
    + rewrite doubled_digit_sum by assumption. lia.
Qed.

Lemma digits_of_values number : Forall is_digit_value (digits_of number).
Proof.
  induction number as [| c rest IH]; cbn [digits_of].
  - constructor.
  - destruct (PyStr.isdigit c) eqn:Hc; [| assumption].
    constructor; [| assumption].
    unfold PyStr.isdigit, PyStr.in_range in Hc.
    apply andb_true_iff in Hc. destruct Hc as [Hlo Hhi].
    apply Nat.leb_le in Hlo, Hhi.
    unfold is_digit_value, PyStr.digit_value.
    change (PyStr.code "0") with 48%nat in *.
    change (PyStr.code "9") with 57%nat in *. lia.
Qed.

Lemma luhn_loop_total digits :
  Forall is_digit_value digits ->
  luhn_loop (rev digits) 0 0 = luhn_total digits.
Proof.
  intros Hd. rewrite luhn_loop_sum by (apply Forall_rev; assumption).
  unfold luhn_total. rewrite length_rev, Z.add_0_l.
  f_equal. apply map_ext_in. intros k Hk. apply in_seq in Hk.
  unfold luhn_term, code_term. cbn [Nat.add].
  rewrite rev_nth by lia.
  replace (length digits - S k)%nat with (length digits - 1 - k)%nat by lia.
  reflexivity.
Qed.

(** ** Disjoint spans *)

Lemma disjoint_sym a b : disjoint a b -> disjoint b a.
Proof. unfold disjoint. tauto. Qed.

Lemma overlaps_false_disjoint c e : overlaps c e = false <-> disjoint c e.
Proof.
  unfold overlaps, disjoint. rewrite andb_false_iff, !Z.ltb_ge. lia.
Qed.

Lemma overlaps_true c e :
  overlaps c e = true <-> start_pos c < end_pos e /\ start_pos e < end_pos c.
Proof. unfold overlaps. rewrite andb_true_iff, !Z.ltb_lt. tauto. Qed.

Lemma pairwise_disjoint_app l1 l2 :
  pairwise_disjoint (l1 ++ l2) <->
  pairwise_disjoint l1 /\ pairwise_disjoint l2
  /\ Forall (fun a => Forall (disjoint a) l2) l1.
Proof.
  induction l1 as [| x l1 IH]; cbn [app pairwise_disjoint].
  - split; [intros H; repeat split; [assumption | constructor] | tauto].
  - rewrite IH, Forall_app, Forall_cons. tauto.
Qed.

Lemma pairwise_disjoint_lookup l :
  pairwise_disjoint l ->
  forall i j a b, i <> j -> l !! i = Some a -> l !! j = Some b -> disjoint a b.
Proof.
  induction l as [| x l IH]; intros Hl i j a b Hij Hi Hj.
  - discriminate.
  - destruct Hl as [Hx Hl]. rewrite Forall_forall in Hx.
    destruct i as [| i], j as [| j]; simpl in Hi, Hj.
    + congruence.
    + injection Hi as <-. apply Hx.
      eapply list_elem_of_lookup_2; eassumption.
    + injection Hj as <-. apply disjoint_sym, Hx.
      eapply list_elem_of_lookup_2; eassumption.
    + apply (IH Hl i j); [congruence | exact Hi | exact Hj].
Qed.

(** ** Sorting *)

Lemma insert_asc_perm x l : Permutation (x :: l) (insert_asc x l).
Proof.
  induction l as [| y l IH]; cbn [insert_asc].
  - reflexivity.
  - destruct (start_pos x <=? start_pos y); [reflexivity |].
    rewrite perm_swap. constructor. exact IH.
Qed.

Lemma sort_asc_perm l : Permutation l (sort_asc l).
Proof.
  induction l as [| x l IH]; cbn.
  - constructor.
  - rewrite <- insert_asc_perm. constructor. exact IH.
Qed.

Lemma insert_desc_perm x l : Permutation (x :: l) (insert_desc x l).
Proof.
  induction l as [| y l IH]; cbn [insert_desc].
  - reflexivity.
  - destruct (start_pos y <=? start_pos x); [reflexivity |].
    rewrite perm_swap. constructor. exact IH.
Qed.

Lemma sort_desc_perm l : Permutation l (sort_desc l).
Proof.
  induction l as [| x l IH]; cbn.
  - constructor.
  - rewrite <- insert_desc_perm. constructor. exact IH.
Qed.

Lemma insert_asc_sorted x l :
  StronglySorted starts_le l -> StronglySorted starts_le (insert_asc x l).
Proof.
  induction 1 as [| y l Hl IH Hy]; cbn [insert_asc].
  - repeat constructor.
  - destruct (Z.leb_spec (start_pos x) (start_pos y)) as [Hxy | Hxy].
    + constructor; [constructor; assumption |].
      constructor; [exact Hxy |].
      eapply Forall_impl; [exact Hy |]. unfold starts_le. intros; lia.
    + constructor; [exact IH |].
      eapply Permutation_Forall; [apply insert_asc_perm |].
      constructor; [unfold starts_le; lia | exact Hy].
Qed.

Lemma sort_asc_sorted l : StronglySorted starts_le (sort_asc l).
Proof.
  induction l as [| x l IH]; cbn.
  - constructor.
  - apply insert_asc_sorted, IH.
Qed.

Lemma insert_desc_sorted x l :
  StronglySorted starts_ge l -> StronglySorted starts_ge (insert_desc x l).
Proof.
  induction 1 as [| y l Hl IH Hy]; cbn [insert_desc].
  - repeat constructor.
  - destruct (Z.leb_spec (start_pos y) (start_pos x)) as [Hxy | Hxy].
    + constructor; [constructor; assumption |].
      constructor; [exact Hxy |].
      eapply Forall_impl; [exact Hy |]. unfold starts_ge. intros; lia.
    + constructor; [exact IH |].
      eapply Permutation_Forall; [apply insert_desc_perm |].
      constructor; [unfold starts_ge; lia | exact Hy].
Qed.

Lemma sort_desc_sorted l : StronglySorted starts_ge (sort_desc l).
Proof.
  induction l as [| x l IH]; cbn.
  - constructor.
  - apply insert_desc_sorted, IH.
Qed.

Lemma pairwise_disjoint_perm l l' :
  Permutation l l' -> pairwise_disjoint l -> pairwise_disjoint l'.
Proof.
  induction 1 as [| x l l' Hp IH | x y l | l l' l'' _ IH1 _ IH2];
    cbn [pairwise_disjoint].
  - trivial.
  - intros [Hx Hl]. split; [| apply IH, Hl].
    eapply Permutation_Forall; eassumption.
  - rewrite !Forall_cons. intros [[Hyx Hy] [Hx Hl]].
    repeat split; try assumption. apply disjoint_sym, Hyx.
  - auto.
Qed.

(** ** The fusion loop *)

Lemma entity_eqb_refl e : entity_eqb e e = true.
Proof.
  unfold entity_eqb.
  rewrite !String.eqb_refl, !Z.eqb_refl.
  replace (Qeq_bool (confidence e) (confidence e)) with true; [reflexivity |].
  symmetry. apply Qeq_bool_iff. reflexivity.
Qed.

Lemma entity_eqb_span y x :
  entity_eqb y x = true ->
  start_pos y = start_pos x /\ end_pos y = end_pos x.
Proof.
  unfold entity_eqb. rewrite !andb_true_iff, !Z.eqb_eq. tauto.
Qed.

Lemma entity_eqb_overlaps c y x :
  entity_eqb y x = true -> overlaps c y = overlaps c x.
Proof.
  intros H. apply entity_eqb_span in H. destruct H as [Hs He].
  unfold overlaps. rewrite Hs, He. reflexivity.
Qed.

(** [list.remove] takes out the first element that compares equal. *)
Lemma list_remove_split x l :
  x ∈ l ->
  exists l1 y l2,
    l = l1 ++ y :: l2 /\ entity_eqb y x = true
    /\ Forall (fun z => entity_eqb z x = false) l1
    /\ list_remove x l = l1 ++ l2.
Proof.
  induction l as [| z l IH]; intros Hin.
  - inversion Hin.
  - cbn [list_remove]. destruct (entity_eqb z x) eqn:Hz.
    + exists [], z, l. split; [reflexivity |]. split; [assumption |].
      split; [constructor | reflexivity].
    + destruct IH as (l1 & y & l2 & -> & Hy & Hl1 & Hrm).
      { apply elem_of_cons in Hin. destruct Hin as [-> | Hin]; [| exact Hin].
        rewrite entity_eqb_refl in Hz. discriminate. }
      exists (z :: l1), y, l2. rewrite Hrm.
      split; [reflexivity |]. split; [assumption |].
      split; [constructor; assumption | reflexivity].
Qed.

(** What the inner loop computes: it stops at the first overlapping
    element of [iter]. *)
Lemma resolve_against_spec c resolved iter :
  match resolve_against c iter resolved with
  | (res, false) =>
      res = resolved /\ Forall (fun e => overlaps c e = false) iter
  | (res, true) =>
      exists pre existing post,
        iter = pre ++ existing :: post
        /\ Forall (fun e => overlaps c e = false) pre
        /\ overlaps c existing = true
        /\ res = if candidate_wins c existing
                 then list_remove existing resolved ++ [c]
                 else resolved
  end.
Proof.
  induction iter as [| x iter IH]; cbn [resolve_against].
  - split; [reflexivity | constructor].
  - destruct (overlaps c x) eqn:Hx.
    + exists [], x, iter. split; [reflexivity |]. split; [constructor |].
      split; [assumption |]. unfold candidate_wins.
      destruct (is_rule_based c), (is_rule_based x); reflexivity.
    + destruct (resolve_against c iter resolved) as [res [|]].
      * destruct IH as (pre & existing & post & -> & Hpre & Hex & Hres).
        exists (x :: pre), existing, post.
        split; [reflexivity |]. split; [constructor; assumption |].
        split; assumption.
      * destruct IH as [-> Hiter]. split; [reflexivity |].
        constructor; assumption.
Qed.

Lemma fuse_step_elements resolved c e :
  e ∈ fuse_step resolved c -> e ∈ resolved \/ e = c.
Proof.
  unfold fuse_step.
  pose proof (resolve_against_spec c resolved resolved) as H.
  destruct (resolve_against c resolved resolved) as [res [|]].
  - destruct H as (pre & existing & post & Heq & _ & _ & ->).
    destruct (candidate_wins c existing); [| tauto].
    destruct (list_remove_split existing resolved) as (l1 & y & l2 & E & _ & _ & ->).
    { rewrite Heq. apply elem_of_app. right. apply elem_of_cons. tauto. }
    rewrite E, !elem_of_app, !elem_of_cons, elem_of_nil. tauto.
  - destruct H as [-> _]. rewrite elem_of_app, elem_of_cons, elem_of_nil. tauto.
Qed.

Lemma fuse_step_disjoint resolved c :
  pairwise_disjoint resolved ->
  Forall (fun e => start_pos e <= start_pos c) resolved ->
  pairwise_disjoint (fuse_step resolved c).
Proof.
  intros Hpw Hle. unfold fuse_step.
  pose proof (resolve_against_spec c resolved resolved) as H.
  destruct (resolve_against c resolved resolved) as [res [|]].
  - destruct H as (pre & existing & post & Heq & _ & Hov & ->).
    destruct (candidate_wins c existing); [| exact Hpw].
    destruct (list_remove_split existing resolved)
      as (l1 & y & l2 & E & Hy & _ & ->).
    { rewrite Heq. apply elem_of_app. right. apply elem_of_cons. tauto. }
    assert (Hovy : overlaps c y = true)
      by (rewrite (entity_eqb_overlaps c y existing Hy); exact Hov).
    apply overlaps_true in Hovy.
    rewrite E in Hpw, Hle.
    apply pairwise_disjoint_app in Hpw.
    destruct Hpw as (Hl1 & [Hyl2 Hl2] & Hcross).
    rewrite Forall_app, Forall_cons in Hle. destruct Hle as (Hle1 & Hley & Hle2).
    apply pairwise_disjoint_app. split; [| split].
    + apply pairwise_disjoint_app. repeat split; try assumption.
      eapply Forall_impl; [exact Hcross |]. intros a Ha.
      apply Forall_cons in Ha. tauto.
    + cbn. split; [constructor | trivial].
    + apply Forall_app. split.
      * rewrite Forall_forall in Hcross, Hle1. apply Forall_forall.
        intros a Ha. specialize (Hcross a Ha). specialize (Hle1 a Ha).
        apply Forall_cons in Hcross. destruct Hcross as [Hay _].
        constructor; [| constructor]. unfold disjoint in *. lia.
      * rewrite Forall_forall in Hyl2, Hle2. apply Forall_forall.
        intros a Ha. specialize (Hyl2 a Ha). specialize (Hle2 a Ha).
        constructor; [| constructor]. unfold disjoint in *. lia.
  - destruct H as [-> Hnone].
    apply pairwise_disjoint_app. repeat split; [assumption | constructor |].
    eapply Forall_impl; [exact Hnone |]. intros a Ha.
    constructor; [| constructor].
    apply disjoint_sym, overlaps_false_disjoint, Ha.
Qed.

Lemma fuse_fold_disjoint cands : forall resolved,
  StronglySorted starts_le cands ->
  pairwise_disjoint resolved ->
  Forall (fun e => Forall (starts_le e) cands) resolved ->
  pairwise_disjoint (fold_left fuse_step cands resolved).
Proof.
  induction cands as [| c cands IH]; intros resolved Hs Hpw Hle; cbn [fold_left].
  - exact Hpw.
  - apply StronglySorted_inv in Hs. destruct Hs as [Hs Hc].
    apply IH; [exact Hs | |].
    + apply fuse_step_disjoint; [exact Hpw |].
      eapply Forall_impl; [exact Hle |]. intros e He.
      apply Forall_cons in He. apply He.
    + apply Forall_forall. intros e He.
      apply fuse_step_elements in He. destruct He as [He | ->].
      * rewrite Forall_forall in Hle. specialize (Hle e He).
        apply Forall_cons in Hle. apply Hle.
      * exact Hc.
Qed.

Lemma fuse_disjoint rule_entities ml_entities :
  pairwise_disjoint (_fuse_and_resolve_entities rule_entities ml_entities).
Proof.
  unfold _fuse_and_resolve_entities.
  destruct (rule_entities ++ ml_entities) as [| x l] eqn:E; [exact I |].
  apply fuse_fold_disjoint; [apply sort_asc_sorted | exact I | constructor].
Qed.

Lemma Qgtb_lt a b : Qgtb a b = true <-> (b < a)%Q.
Proof.
  unfold Qgtb. rewrite negb_true_iff. split.
  - intros H. apply Qnot_le_lt. intros Hle.
    apply Qle_bool_iff in Hle. congruence.
  - intros H. destruct (Qle_bool a b) eqn:E; [| reflexivity].
    apply Qle_bool_iff in E. exfalso. eapply Qlt_not_le; eassumption.
Qed.

Lemma candidate_wins_prevails c e : candidate_wins c e = prevails c e.
Proof.
  unfold candidate_wins, prevails.
  destruct (is_rule_based c), (is_rule_based e); cbn [andb negb]; try reflexivity.
  destruct (Qlt_le_dec (confidence e) (confidence c)) as [Hlt | Hle].
  - apply Qgtb_lt. exact Hlt.
  - destruct (Qgtb (confidence c) (confidence e)) eqn:E; [| reflexivity].
    apply Qgtb_lt in E. exfalso. eapply Qlt_not_le; eassumption.
Qed.

Lemma first_overlap_overlaps c resolved i existing :
  first_overlap c resolved = Some (i, existing) -> overlaps c existing = true.
Proof.
  revert i. induction resolved as [| x rest IH]; intros i H; cbn in H.
  - discriminate.
  - destruct (overlaps c x) eqn:Hx.
    + injection H as _ <-. exact Hx.
    + destruct (first_overlap c rest) as [[j e] |]; [| discriminate].
      injection H as _ <-. eapply IH. reflexivity.
Qed.

(** Removing the overlapping entity by value removes it where it was
    found. *)
Lemma list_remove_first_overlap c resolved : forall i existing,
  first_overlap c resolved = Some (i, existing) ->
  list_remove existing resolved = delete i resolved.
Proof.
  induction resolved as [| x rest IH]; intros i existing H; cbn in H.
  - discriminate.
  - destruct (overlaps c x) eqn:Hx.
    + injection H as <- <-. cbn [list_remove]. rewrite entity_eqb_refl. reflexivity.
    + destruct (first_overlap c rest) as [[j e] |] eqn:Hrest; [| discriminate].
      injection H as <- <-. cbn [list_remove].
      destruct (entity_eqb x e) eqn:Hxe.
      * rewrite (entity_eqb_overlaps c x e Hxe) in Hx.
        rewrite (first_overlap_overlaps _ _ _ _ Hrest) in Hx. discriminate.
      * cbn. f_equal. apply IH. reflexivity.
Qed.

Lemma resolve_against_first_overlap c resolved iter :
  resolve_against c iter resolved =
  match first_overlap c iter with
  | None => (resolved, false)
  | Some (_, existing) =>
      (if candidate_wins c existing
       then list_remove existing resolved ++ [c] else resolved, true)
  end.
Proof.
  induction iter as [| x iter IH]; cbn [resolve_against first_overlap].
  - reflexivity.
  - destruct (overlaps c x).
    + unfold candidate_wins.
      destruct (is_rule_based c), (is_rule_based x); reflexivity.
    + rewrite IH. destruct (first_overlap c iter) as [[j e] |]; reflexivity.
Qed.

Lemma fuse_step_resolve_spec resolved c :
  fuse_step resolved c = resolve_spec resolved c.
Proof.
  unfold fuse_step, resolve_spec. rewrite resolve_against_first_overlap.
  destruct (first_overlap c resolved) as [[i existing] |] eqn:H; [| reflexivity].
  rewrite candidate_wins_prevails.
  rewrite (list_remove_first_overlap _ _ _ _ H). reflexivity.
Qed.

Lemma fuse_fold_spec cands : forall resolved,
  fold_left fuse_step cands resolved = fold_left resolve_spec cands resolved.
Proof.
  induction cands as [| c cands IH]; intros resolved; cbn [fold_left].
  - reflexivity.
  - rewrite fuse_step_resolve_spec. apply IH.
Qed.

Lemma insert_asc_stable k x l :
  List.filter (fun e => start_pos e =? k) (insert_asc x l)
  = List.filter (fun e => start_pos e =? k) (x :: l).
Proof.
  induction l as [| y l IH]; cbn [insert_asc].
  - reflexivity.
  - destruct (Z.leb_spec (start_pos x) (start_pos y)) as [Hxy | Hxy];
      [reflexivity |].
    cbn [List.filter] in *. rewrite IH.
    destruct (Z.eqb_spec (start_pos x) k) as [Hx | Hx];
      destruct (Z.eqb_spec (start_pos y) k) as [Hy | Hy];
      try reflexivity. lia.
Qed.

Lemma sort_asc_stable k l :
  List.filter (fun e => start_pos e =? k) (sort_asc l)
  = List.filter (fun e => start_pos e =? k) l.
Proof.
  induction l as [| x l IH]; [reflexivity |].
  change (sort_asc (x :: l)) with (insert_asc x (sort_asc l)).
  rewrite insert_asc_stable. cbn [List.filter]. rewrite IH. reflexivity.
Qed.

(** ** The orchestrator *)

Lemma stage_returns (A : Type) (backend : option A)
    (body : A -> exc (list PIIEntity)) :
  exists o, stage backend body = Return o.
Proof.
  unfold stage. destruct backend as [b |]; [| eexists; reflexivity].
  destruct (body b); cbn; eexists; reflexivity.
Qed.

Lemma detect_ml_returns eng text : exists ml, _detect_ml eng text = Return ml.
Proof.
  unfold _detect_ml.
  destruct (stage_returns _ (longtransformer_detector eng)
              (fun backend => pii <- backend text ;;
                              Return (longtransformer_entities text pii)))
    as [[r1 |] ->]; cbn [bind]; [eexists; reflexivity |].
  destruct (stage_returns _ (ml_detector eng)
              (fun backend => pii <- backend text ;;
                              Return (custom_model_entities text pii)))
    as [[r2 |] ->]; cbn [bind]; [eexists; reflexivity |].
  destruct (stage_returns _ (fallback_ner_model eng)
              (fun model => _detect_with_bert_ner eng model text))
    as [[r3 |] ->]; cbn [bind]; [eexists; reflexivity |].
  destruct (stage_returns _ (if base_deberta eng then Some tt else None)
              (fun _ => Return (_detect_with_base_deberta text)))
    as [[r4 |] ->]; cbn [bind]; eexists; reflexivity.
Qed.

Lemma detect_pii_pipeline eng elapsed text ml :
  _detect_ml eng text = Return ml ->
  detect_pii eng elapsed text = Return (pipeline (config eng) elapsed text ml).
Proof.
  intros Hml. unfold detect_pii, detect_pii_with, pipeline.
  rewrite Hml. cbn [bind].
  destruct (_mark_questionable_entities (config eng)
              (_fuse_and_resolve_entities (_detect_rule_based text) ml))
    as [marked questionable].
  cbn [fst snd].
  destruct (_mask_text (config eng) text marked) as [sorted masked].
  reflexivity.
Qed.

Lemma detect_pii_returns eng elapsed text :
  exists ml, _detect_ml eng text = Return ml
             /\ detect_pii eng elapsed text
                = Return (pipeline (config eng) elapsed text ml).
Proof.
  destruct (detect_ml_returns eng text) as [ml Hml].
  exists ml. split; [exact Hml | apply detect_pii_pipeline, Hml].
Qed.

(** ** Triage *)

Lemma mark_fst cfg entities :
  fst (_mark_questionable_entities cfg entities) = map (mark_entity cfg) entities.
Proof.
  induction entities as [| e rest IH]; cbn [_mark_questionable_entities map].
  - reflexivity.
  - destruct (_mark_questionable_entities cfg rest) as [rest' q].
    cbn [fst] in IH. unfold mark_entity at 1.
    destruct (in_band cfg e); cbn [fst]; rewrite IH; reflexivity.
Qed.

Lemma mark_snd cfg entities :
  snd (_mark_questionable_entities cfg entities)
  = map (set_status "questionable") (List.filter (in_band cfg) entities).
Proof.
  induction entities as [| e rest IH];
    cbn [_mark_questionable_entities List.filter map].
  - reflexivity.
  - destruct (_mark_questionable_entities cfg rest) as [rest' q].
    cbn [snd] in IH.
    destruct (in_band cfg e); cbn [snd map]; rewrite IH; reflexivity.
Qed.

Lemma mark_entity_same cfg e : same_but_status (mark_entity cfg e) e.
Proof.
  unfold mark_entity, same_but_status.
  destruct (in_band cfg e); cbn; repeat split; reflexivity.
Qed.

Lemma in_band_iff cfg e :
  in_band cfg e = true <->
  (min_confidence cfg <= confidence e)%Q
  /\ (confidence e <= snd (questionable_band cfg))%Q.
Proof.
  unfold in_band. rewrite andb_true_iff, !Qle_bool_iff. reflexivity.
Qed.

(** A status update keeps the span, hence disjointness and order. *)
Lemma pairwise_disjoint_map f l :
  (forall e, same_but_status (f e) e) ->
  pairwise_disjoint l -> pairwise_disjoint (map f l).
Proof.
  intros Hf. induction l as [| x l IH]; cbn [map pairwise_disjoint].
  - trivial.
  - intros [Hx Hl]. split; [| apply IH, Hl].
    apply Forall_map. eapply Forall_impl; [exact Hx |].
    intros y Hy. cbn.
    destruct (Hf x) as (_ & _ & Hxs & Hxe & _).
    destruct (Hf y) as (_ & _ & Hys & Hye & _).
    unfold disjoint in *. lia.
Qed.

Lemma mask_text_fst cfg text entities :
  fst (_mask_text cfg text entities) = sort_desc entities.
Proof. destruct entities; reflexivity. Qed.

Lemma pipeline_entities_found cfg elapsed text ml :
  entities_found (pipeline cfg elapsed text ml)
  = sort_desc (map (mark_entity cfg)
                 (_fuse_and_resolve_entities (_detect_rule_based text) ml)).
Proof. unfold pipeline. cbn [entities_found]. rewrite mask_text_fst, mark_fst. reflexivity. Qed.

Lemma pipeline_disjoint cfg elapsed text ml :
  pairwise_disjoint (entities_found (pipeline cfg elapsed text ml)).
Proof.
  rewrite pipeline_entities_found.
  eapply pairwise_disjoint_perm; [apply sort_desc_perm |].
  apply pairwise_disjoint_map; [apply mark_entity_same | apply fuse_disjoint].
Qed.

Lemma sorted_desc_lookup l :
  StronglySorted starts_ge l ->
  forall i j a b, (i < j)%nat -> l !! i = Some a -> l !! j = Some b ->
                  start_pos b <= start_pos a.
Proof.
  induction 1 as [| x l Hl IH Hx]; intros i j a b Hij Hi Hj.
  - discriminate.
  - destruct j as [| j]; [lia |]. simpl in Hj.
    destruct i as [| i]; simpl in Hi.
    + injection Hi as <-. rewrite Forall_forall in Hx. apply Hx.
      eapply list_elem_of_lookup_2; eassumption.
    + apply (IH i j); [lia | exact Hi | exact Hj].
Qed.

Lemma insert_desc_map f x l :
  (forall e, same_but_status (f e) e) ->
  insert_desc (f x) (map f l) = map f (insert_desc x l).
Proof.
  intros Hf. induction l as [| y l IH]; cbn [insert_desc map].
  - reflexivity.
  - destruct (Hf x) as (_ & _ & -> & _). destruct (Hf y) as (_ & _ & -> & _).
    destruct (start_pos y <=? start_pos x); cbn [map]; [reflexivity |].
    rewrite IH. reflexivity.
Qed.

Lemma sort_desc_map f l :
  (forall e, same_but_status (f e) e) ->
  sort_desc (map f l) = map f (sort_desc l).
Proof.
  intros Hf. induction l as [| x l IH]; [reflexivity |].
  change (sort_desc (map f (x :: l))) with (insert_desc (f x) (sort_desc (map f l))).
  rewrite IH, insert_desc_map by exact Hf. reflexivity.
Qed.

(** Masking reads the type, the value and the span, never the status. *)
Lemma mask_step_same cfg st a b :
  same_but_status a b -> mask_step cfg st a = mask_step cfg st b.
Proof.
  intros (Ht & Hv & Hs & He & _). destruct st as [masked counter].
  unfold mask_step, mask_for, splice. rewrite Ht, Hv, Hs, He. reflexivity.
Qed.

Lemma mask_loop_map cfg f l : forall st,
  (forall e, same_but_status (f e) e) ->
  mask_loop cfg (map f l) st = mask_loop cfg l st.
Proof.
  unfold mask_loop. induction l as [| x l IH]; intros st Hf; cbn [map fold_left].
  - reflexivity.
  - rewrite (mask_step_same cfg st (f x) x (Hf x)). apply IH, Hf.
Qed.

Lemma mask_text_map cfg text f l :
  (forall e, same_but_status (f e) e) ->
  snd (_mask_text cfg text (map f l)) = snd (_mask_text cfg text l).
Proof.
  intros Hf. destruct l as [| x l]; [reflexivity |].
  cbn [map _mask_text snd].
  change (f x :: map f l) with (map f (x :: l)).
  rewrite sort_desc_map, mask_loop_map by exact Hf. reflexivity.
Qed.

Lemma pipeline_masked_content cfg elapsed text ml :
  masked_content (pipeline cfg elapsed text ml)
  = snd (_mask_text cfg text
           (_fuse_and_resolve_entities (_detect_rule_based text) ml)).
Proof.
  unfold pipeline. cbn [masked_content]. rewrite mark_fst.
  apply mask_text_map, mark_entity_same.
Qed.

Lemma questionable_in_marked cfg entities q :
  q ∈ snd (_mark_questionable_entities cfg entities) ->
  q ∈ map (mark_entity cfg) entities.
Proof.
  rewrite mark_snd. intros Hq.
  apply list_elem_of_fmap in Hq. destruct Hq as (e & -> & He).
  apply list_elem_of_In, filter_In in He. destruct He as [He Hband].
  apply list_elem_of_In in He.
  apply list_elem_of_fmap. exists e. split; [| exact He].
  unfold mark_entity. rewrite Hband. reflexivity.
Qed.

(** ** Masking *)

Lemma bump_spec etype token_counter :
  bump etype token_counter = <[etype := next_number etype token_counter]> token_counter.
Proof. unfold bump, next_number. destruct (token_counter !! etype); reflexivity. Qed.

Lemma bump_lookup etype token_counter :
  default 0%nat (bump etype token_counter !! etype) = next_number etype token_counter.
Proof. rewrite bump_spec, lookup_insert_eq. reflexivity. Qed.

Lemma structured_names etype :
  etype ∈ structured_entities <->
  In etype ["EMAIL"; "CREDIT_CARD"; "PHONE"; "IP_ADDRESS"; "SSN";
            "NATIONAL_ID"; "BANK_ACCT"; "IP"].
Proof.
  unfold structured_entities. set_unfold. cbn [In]. intuition congruence.
Qed.

Lemma structured_upper etype :
  etype ∈ structured_entities -> PyStr.upper etype = etype.
Proof.
  intros H. apply structured_names in H. cbn [In] in H.
  repeat (destruct H as [<- | H]; [reflexivity |]). contradiction.
Qed.

Lemma mask_for_structured cfg token_counter entity :
  entity_type entity ∈ structured_entities ->
  mask_for cfg token_counter entity
  = token (entity_type entity)
      (default 0%nat (token_counter !! entity_type entity)).
Proof.
  intros H. unfold mask_for. rewrite bool_decide_eq_true_2 by exact H. reflexivity.
Qed.

Lemma mask_step_structured cfg cfg' st entity :
  entity_type entity ∈ structured_entities ->
  mask_step cfg st entity = mask_step cfg' st entity.
Proof.
  intros H. destruct st as [masked counter]. unfold mask_step.
  rewrite !mask_for_structured by exact H. reflexivity.
Qed.

Lemma mask_loop_structured cfg cfg' entities : forall st,
  Forall (fun e => entity_type e ∈ structured_entities) entities ->
  mask_loop cfg entities st = mask_loop cfg' entities st.
Proof.
  unfold mask_loop.
  induction entities as [| e entities IH]; intros st H; cbn [fold_left].
  - reflexivity.
  - apply Forall_cons in H. destruct H as [He H].
    rewrite (mask_step_structured cfg cfg' st e He). apply IH, H.
Qed.

(** ** The backend chain *)

Lemma stage_outcome (A : Type) (backend : option A)
    (body : A -> exc (list PIIEntity)) :
  stage backend body =
  Return match backend with
         | Some b => match body b with
                     | Return r => Some r
                     | Raise _ => None
                     end
         | None => None
         end.
Proof.
  unfold stage. destruct backend as [b |]; [| reflexivity].
  destruct (body b); reflexivity.
Qed.

Lemma detect_ml_first_returned eng text :
  _detect_ml eng text = Return (first_returned (attempts eng text)).
Proof.
  unfold _detect_ml, attempts. rewrite !stage_outcome.
  destruct (longtransformer_detector eng) as [lt |]; cbn [bind app].
  - destruct (bind (lt text) _) as [e | r]; cbn [first_returned]; [| reflexivity].
    destruct (ml_detector eng) as [cm |]; cbn [bind app].
    + destruct (bind (cm text) _) as [e2 | r2]; cbn [first_returned]; [| reflexivity].
      destruct (fallback_ner_model eng) as [m |]; cbn [bind app].
      * destruct (_detect_with_bert_ner eng m text); cbn [first_returned];
          [| reflexivity].
        destruct (base_deberta eng); reflexivity.
      * destruct (base_deberta eng); reflexivity.
    + destruct (fallback_ner_model eng) as [m |]; cbn [bind app].
      * destruct (_detect_with_bert_ner eng m text); cbn [first_returned];
          [| reflexivity].
        destruct (base_deberta eng); reflexivity.
      * destruct (base_deberta eng); reflexivity.
  - destruct (ml_detector eng) as [cm |]; cbn [bind app].
    + destruct (bind (cm text) _) as [e2 | r2]; cbn [first_returned]; [| reflexivity].
      destruct (fallback_ner_model eng) as [m |]; cbn [bind app].
      * destruct (_detect_with_bert_ner eng m text); cbn [first_returned];
          [| reflexivity].
        destruct (base_deberta eng); reflexivity.
      * destruct (base_deberta eng); reflexivity.
    + destruct (fallback_ner_model eng) as [m |]; cbn [bind app].
      * destruct (_detect_with_bert_ner eng m text); cbn [first_returned];
          [| reflexivity].
        destruct (base_deberta eng); reflexivity.
      * destruct (base_deberta eng); reflexivity.
Qed.

Lemma first_returned_all_raise l :
  Forall raises l -> first_returned l = [].
Proof.
  induction 1 as [| c l [e ->] _ IH]; [reflexivity | exact IH].
Qed.

(** ** Strings *)

Lemma append_cons c s t : String c s +:+ t = String c (s +:+ t).
Proof. reflexivity. Qed.

Lemma append_assoc a b c : (a +:+ b) +:+ c = a +:+ (b +:+ c).
Proof.
  induction a as [| x a IH]; [reflexivity |].
  rewrite !append_cons, IH. reflexivity.
Qed.

Lemma length_append a b :
  String.length (a +:+ b) = (String.length a + String.length b)%nat.
Proof.
  induction a as [| x a IH]; [reflexivity |].
  rewrite append_cons. cbn [String.length]. rewrite IH. reflexivity.
Qed.

Lemma length_take n s : String.length (PyStr.take n s) = Nat.min n (String.length s).
Proof.
  revert s. induction n as [| n IH]; intros [| c s];
    cbn [PyStr.take String.length Nat.min]; try reflexivity.
  rewrite IH. reflexivity.
Qed.

Lemma take_append n a b :
  (n <= String.length a)%nat -> PyStr.take n (a +:+ b) = PyStr.take n a.
Proof.
  revert a. induction n as [| n IH]; intros [| c a] H;
    cbn [String.length] in H; try lia.
  - destruct b; reflexivity.
  - reflexivity.
  - rewrite append_cons. cbn [PyStr.take]. rewrite IH by lia. reflexivity.
Qed.

Lemma drop_append n a b :
  (n <= String.length a)%nat -> PyStr.drop n (a +:+ b) = PyStr.drop n a +:+ b.
Proof.
  revert a. induction n as [| n IH]; intros [| c a] H;
    cbn [String.length] in H; try lia.
  - reflexivity.
  - reflexivity.
  - rewrite append_cons. cbn [PyStr.drop]. apply IH. lia.
Qed.

Lemma take_take n m s :
  (n <= m)%nat -> PyStr.take n (PyStr.take m s) = PyStr.take n s.
Proof.
  revert m s. induction n as [| n IH]; intros [| m] [| c s] H;
    cbn [PyStr.take]; try reflexivity; try lia.
  rewrite IH by lia. reflexivity.
Qed.

Lemma bound_nonneg s i : 0 <= i -> PyStr.bound s i = Z.to_nat i.
Proof. intros H. unfold PyStr.bound. destruct (Z.ltb_spec i 0); [lia | reflexivity]. Qed.

(** ** Splicing below a fixed suffix and above a fixed prefix *)

Lemma splice_append a b e mask :
  0 <= start_pos e <= end_pos e ->
  end_pos e <= Z.of_nat (String.length a) ->
  splice (a +:+ b) e mask = splice a e mask +:+ b.
Proof.
  intros Hse He. unfold splice, PyStr.slice_to, PyStr.slice_from.
  rewrite !bound_nonneg by lia.
  rewrite take_append, drop_append by lia.
  rewrite !append_assoc. reflexivity.
Qed.

Lemma length_splice_ge a e mask :
  0 <= start_pos e <= Z.of_nat (String.length a) ->
  start_pos e <= Z.of_nat (String.length (splice a e mask)).
Proof.
  intros H. unfold splice, PyStr.slice_to.
  rewrite bound_nonneg by lia. rewrite length_append, length_take. lia.
Qed.

Lemma descending_chain_weaken bound bound' l :
  bound <= bound' -> descending_chain bound l -> descending_chain bound' l.
Proof. destruct l as [| e l]; cbn; [trivial | intros; intuition lia]. Qed.

Lemma mask_loop_append cfg l : forall a b counter,
  descending_chain (Z.of_nat (String.length a)) l ->
  mask_loop cfg l (a +:+ b, counter)
  = (fst (mask_loop cfg l (a, counter)) +:+ b,
     snd (mask_loop cfg l (a, counter))).
Proof.
  unfold mask_loop.
  induction l as [| e l IH]; intros a b counter Hch; cbn [fold_left].
  - reflexivity.
  - cbn [descending_chain] in Hch. destruct Hch as (Hse & He & Hch).
    unfold mask_step at 2 4 6. 
    rewrite splice_append by assumption.
    apply IH. eapply descending_chain_weaken; [| exact Hch].
    apply length_splice_ge. lia.
Qed.

Lemma mask_loop_prefix cfg l : forall cur counter n,
  (n <= String.length cur)%nat ->
  Forall (fun e => Z.of_nat n <= start_pos e) l ->
  PyStr.take n (fst (mask_loop cfg l (cur, counter))) = PyStr.take n cur
  /\ (n <= String.length (fst (mask_loop cfg l (cur, counter))))%nat.
Proof.
  unfold mask_loop.
  induction l as [| e l IH]; intros cur counter n Hn Hl; cbn [fold_left].
  - split; [reflexivity | exact Hn].
  - apply Forall_cons in Hl. destruct Hl as [He Hl].
    unfold mask_step at 2 4.
    set (mask := mask_for cfg (bump (entity_type e) counter) e).
    assert (Hlen : (n <= String.length (PyStr.slice_to cur (start_pos e)))%nat).
    { unfold PyStr.slice_to. rewrite bound_nonneg by lia. rewrite length_take. lia. }
    assert (Hcur' : (n <= String.length (splice cur e mask))%nat).
    { unfold splice. rewrite length_append. lia. }
    destruct (IH (splice cur e mask) (bump (entity_type e) counter) n Hcur' Hl)
      as [Htake Hlen'].
    split; [| exact Hlen'].
    rewrite Htake. unfold splice. rewrite take_append by exact Hlen.
    unfold PyStr.slice_to. rewrite bound_nonneg by lia.
    apply take_take. lia.
Qed.

Lemma strongly_sorted_app (R : PIIEntity -> PIIEntity -> Prop) l1 l2 :
  StronglySorted R (l1 ++ l2) ->
  StronglySorted R l1 /\ StronglySorted R l2
  /\ Forall (fun a => Forall (R a) l2) l1.
Proof.
  induction l1 as [| x l1 IH]; cbn [app]; intros H.
  - repeat split; [constructor | exact H | constructor].
  - apply StronglySorted_inv in H. destruct H as [H Hx].
    apply Forall_app in Hx. destruct Hx as [Hx1 Hx2].
    destruct (IH H) as (H1 & H2 & H12).
    repeat split; [constructor; assumption | assumption | constructor; assumption].
Qed.

Lemma chain_of_sorted l : forall bound,
  StronglySorted starts_ge l ->
  pairwise_disjoint l ->
  Forall (fun e => 0 <= start_pos e < end_pos e) l ->
  Forall (fun e => end_pos e <= bound) l ->
  descending_chain bound l.
Proof.
  induction l as [| e l IH]; intros bound Hs Hd Hne Hb; cbn [descending_chain].
  - exact I.
  - apply StronglySorted_inv in Hs. destruct Hs as [Hs Hge].
    destruct Hd as [Hde Hd].
    apply Forall_cons in Hne. destruct Hne as [He Hne].
    apply Forall_cons in Hb. destruct Hb as [Hbe Hb].
    split; [lia |]. split; [exact Hbe |].
    apply IH; try assumption.
    rewrite Forall_forall in Hge, Hde, Hne. apply Forall_forall.
    intros x Hx. specialize (Hge x Hx). specialize (Hde x Hx).
    specialize (Hne x Hx). unfold starts_ge, disjoint in *. lia.
Qed.

(** Where the replacement of [e] sits in the masked text: to its left
    the masked rendering of the text before the span, to its right what
    the entities behind [e] made of the text after the span. *)
Lemma mask_loop_region cfg text before e after :
  StronglySorted starts_ge (before ++ e :: after) ->
  pairwise_disjoint (before ++ e :: after) ->
  Forall (in_bounds text) (before ++ e :: after) ->
  fst (mask_loop cfg (before ++ e :: after) (text, ∅))
  = fst (mask_loop cfg after
           (PyStr.slice_to text (start_pos e), counter_at cfg text before e))
    +:+ replacement cfg text before e
    +:+ PyStr.slice_from (fst (mask_loop cfg before (text, ∅))) (end_pos e).
Proof.
  intros Hs Hd Hb.
  apply strongly_sorted_app in Hs. destruct Hs as (Hs1 & Hs2 & Hs12).
  apply pairwise_disjoint_app in Hd. destruct Hd as (Hd1 & Hd2 & Hd12).
  apply Forall_app in Hb. destruct Hb as [Hb1 Hb2].
  pose proof Hb2 as Hbe. apply Forall_cons in Hbe. destruct Hbe as [[He Hetext] Hb3].
  (* the text up to the end of [e] is still untouched when [e] is reached *)
  assert (Habove : Forall (fun x => Z.of_nat (Z.to_nat (end_pos e)) <= start_pos x) before).
  { rewrite Forall_forall in Hs12, Hd12, Hb1. apply Forall_forall. intros x Hx.
    specialize (Hs12 x Hx). specialize (Hd12 x Hx). specialize (Hb1 x Hx).
    apply Forall_cons in Hs12. destruct Hs12 as [Hsx _].
    apply Forall_cons in Hd12. destruct Hd12 as [Hdx _].
    destruct Hb1 as [Hxne _]. unfold starts_ge, disjoint in *. lia. }
  destruct (mask_loop_prefix cfg before text ∅ (Z.to_nat (end_pos e))
              ltac:(lia) Habove) as [Htake Hlen].
  unfold mask_loop in *. rewrite fold_left_app. cbn [fold_left].
  destruct (fold_left (mask_step cfg) before (text, ∅)) as [m1 c1] eqn:E1.
  cbn [fst snd] in *. unfold mask_step at 2.
  unfold replacement, counter_at. unfold mask_loop. rewrite E1. cbn [snd].
  set (c1' := bump (entity_type e) c1).
  set (mask := mask_for cfg c1' e).
  assert (Hleft : PyStr.slice_to m1 (start_pos e) = PyStr.slice_to text (start_pos e)).
  { unfold PyStr.slice_to. rewrite !bound_nonneg by lia.
    rewrite <- (take_take (Z.to_nat (start_pos e)) (Z.to_nat (end_pos e)) m1) by lia.
    rewrite Htake. apply take_take. lia. }
  unfold splice. rewrite Hleft.
  pose proof (mask_loop_append cfg after (PyStr.slice_to text (start_pos e))
                (mask +:+ PyStr.slice_from m1 (end_pos e)) c1') as Happ.
  unfold mask_loop in Happ. rewrite Happ; [reflexivity |].
  apply StronglySorted_inv in Hs2. destruct Hs2 as [Hs2 Hge].
  destruct Hd2 as [Hde Hd2].
  apply chain_of_sorted; try assumption.
  - eapply Forall_impl; [exact Hb3 |]. intros x [Hx _]. exact Hx.
  - unfold PyStr.slice_to. rewrite bound_nonneg by lia. rewrite length_take.
    rewrite Forall_forall in Hge, Hde, Hb3. apply Forall_forall.
    intros x Hx. specialize (Hge x Hx). specialize (Hde x Hx).
    specialize (Hb3 x Hx). destruct Hb3 as [Hxne _].
    unfold starts_ge, disjoint in *. lia.
Qed.

(** ** What a replacement is made of *)

Lemma forallb_append p a b :
  PyStr.forallb p (a +:+ b) = PyStr.forallb p a && PyStr.forallb p b.
Proof.
  induction a as [| c a IH]; [reflexivity |].
  rewrite append_cons. cbn [PyStr.forallb]. rewrite IH, andb_assoc. reflexivity.
Qed.

Lemma forallb_impl (p q : ascii -> bool) s :
  (forall c, p c = true -> q c = true) ->
  PyStr.forallb p s = true -> PyStr.forallb q s = true.
Proof.
  intros Hpq. induction s as [| c s IH]; cbn [PyStr.forallb]; [trivial |].
  rewrite !andb_true_iff. intros [Hc Hs]. split; [apply Hpq, Hc | apply IH, Hs].
Qed.

Lemma forallb_has_char s t :
  (forall c, PyStr.has_char c s = true -> PyStr.has_char c t = true) ->
  PyStr.forallb (fun c => PyStr.has_char c t) s = true.
Proof.
  induction s as [| x s IH]; intros H; cbn [PyStr.forallb]; [reflexivity |].
  apply andb_true_iff. split.
  - apply H. unfold PyStr.has_char. cbn [PyStr.existsb].
    rewrite Ascii.eqb_refl. reflexivity.
  - apply IH. intros c Hc. apply H. unfold PyStr.has_char in *.
    cbn [PyStr.existsb]. rewrite Hc. apply orb_true_r.
Qed.

Lemma forallb_replicate p n c :
  p c = true -> PyStr.forallb p (PyStr.replicate n c) = true.
Proof.
  intros Hc. induction n as [| n IH]; cbn [PyStr.replicate PyStr.forallb];
    [reflexivity | rewrite Hc, IH; reflexivity].
Qed.

Lemma uint_digits (u : Decimal.uint) :
  PyStr.forallb PyStr.isdigit (NilEmpty.string_of_uint u) = true.
Proof.
  induction u as [| u IH | u IH | u IH | u IH | u IH | u IH | u IH | u IH
                  | u IH | u IH];
    cbn [NilEmpty.string_of_uint PyStr.forallb]; try reflexivity;
    rewrite IH; reflexivity.
Qed.

Lemma format_03d_digits n : PyStr.forallb PyStr.isdigit (PyStr.format_03d n) = true.
Proof.
  unfold PyStr.format_03d, PyStr.decimal. rewrite forallb_append.
  apply andb_true_iff. split; [apply forallb_replicate; reflexivity |].
  unfold NilZero.string_of_uint.
  destruct (Nat.to_uint n); try apply uint_digits. reflexivity.
Qed.

Lemma token_in_alphabet etype n :
  PyStr.forallb (token_alphabet etype) (token etype n) = true.
Proof.
  unfold token. rewrite !forallb_append, !andb_true_iff.
  split; [reflexivity |]. split; [| split; [reflexivity | split; [| reflexivity]]].
  - eapply forallb_impl; [| apply (forallb_has_char _ (PyStr.upper etype)); trivial].
    intros c Hc. unfold token_alphabet. cbn beta. rewrite Hc. apply orb_true_r.
  - eapply forallb_impl; [| apply format_03d_digits].
    intros c Hc. unfold token_alphabet. rewrite Hc. reflexivity.
Qed.

Lemma partial_in_alphabet v :
  PyStr.forallb (partial_alphabet v) (partial_reveal v) = true.
Proof.
  unfold partial_reveal.
  destruct (1 <? String.length v)%nat; [| reflexivity].
  destruct v as [| c v]; [reflexivity |].
  cbn [PyStr.forallb]. apply andb_true_iff. split.
  - unfold partial_alphabet. rewrite Ascii.eqb_refl. apply orb_true_r.
  - apply forallb_replicate. reflexivity.
Qed.

Lemma mask_in_alphabet cfg token_counter entity :
  PyStr.forallb (mask_alphabet cfg entity) (mask_for cfg token_counter entity) = true.
Proof.
  unfold mask_for, mask_alphabet.
  destruct (bool_decide (entity_type entity ∈ structured_entities));
    [apply token_in_alphabet |].
  destruct (bool_decide (entity_type entity ∈ free_text_entities));
    [| apply token_in_alphabet].
  destruct (bool_decide (mask_format cfg = Some "PARTIAL_REVEAL"));
    [apply partial_in_alphabet | apply token_in_alphabet].
Qed.

Lemma startswith_forallb p needle : forall hay,
  PyStr.startswith needle hay = true ->
  PyStr.forallb p hay = true -> PyStr.forallb p needle = true.
Proof.
  induction needle as [| a needle IH]; intros [| b hay];
    cbn [PyStr.startswith PyStr.forallb]; try reflexivity; try discriminate.
  rewrite !andb_true_iff. intros [Hab Hrest] [Hb Hhay].
  apply Ascii.eqb_eq in Hab. subst b. split; [exact Hb | eapply IH; eassumption].
Qed.

Lemma contains_forallb p needle hay :
  PyStr.contains hay needle = true ->
  PyStr.forallb p hay = true -> PyStr.forallb p needle = true.
Proof.
  induction hay as [| b hay IH]; cbn [PyStr.contains]; rewrite orb_true_iff.
  - intros [H | H] Hp; [| discriminate]. eapply startswith_forallb; eassumption.
  - intros [H | H] Hp; [eapply startswith_forallb; eassumption |].
    cbn [PyStr.forallb] in Hp. apply andb_true_iff in Hp. apply IH; tauto.
Qed.

Lemma existsb_not_forallb p s :
  PyStr.existsb (fun c => negb (p c)) s = true -> PyStr.forallb p s = false.
Proof.
  induction s as [| c s IH]; cbn [PyStr.existsb PyStr.forallb]; [discriminate |].
  destruct (p c); cbn [negb orb andb]; [exact IH | reflexivity].
Qed.

Lemma escapes_not_contained cfg token_counter entity :
  escapes_mask cfg entity = true ->
  PyStr.contains (mask_for cfg token_counter entity) (value entity) = false.
Proof.
  intros Hesc. apply existsb_not_forallb in Hesc.
  destruct (PyStr.contains _ _) eqn:Hc; [| reflexivity].
  rewrite (contains_forallb _ _ _ Hc (mask_in_alphabet cfg token_counter entity))
    in Hesc. discriminate.
Qed.

Lemma pipeline_masked_loop cfg elapsed text ml :
  masked_content (pipeline cfg elapsed text ml)
  = fst (mask_loop cfg (entities_found (pipeline cfg elapsed text ml)) (text, ∅)).
Proof.
  unfold pipeline. cbn [masked_content entities_found].
  destruct (fst (_mark_questionable_entities cfg _)) as [| x l]; reflexivity.
Qed.

Lemma pipeline_sorted cfg elapsed text ml :
  StronglySorted starts_ge (entities_found (pipeline cfg elapsed text ml)).
Proof. rewrite pipeline_entities_found. apply sort_desc_sorted. Qed.

(** ** Where the matcher stops *)

Lemma run_reaches icase r : forall prev s pos k e,
  Re.run icase r prev s pos k = Some e -> reached k s pos (consumes r) e.
Proof.
  induction r as [| p | r1 IH1 r2 IH2 | r' IH lo hi | | r' IH];
    intros prev s pos k e H; cbn [Re.run consumes] in *.
  - exists prev, s, pos. repeat split; try assumption; try lia; try discriminate.
  - destruct s as [| c s']; [discriminate |].
    destruct (Re.cls_test icase p c); [| discriminate].
    exists (Some c), s', (S pos). cbn [String.length].
    repeat split; try assumption; lia.
  - apply IH1 in H. destruct H as (prev1 & s1 & pos1 & H & Hle1 & Hlen1 & Hst1).
    apply IH2 in H. destruct H as (prev2 & s2 & pos2 & H & Hle2 & Hlen2 & Hst2).
    exists prev2, s2, pos2. repeat split; try assumption; try lia.
    intros Hc. apply orb_true_iff in Hc. destruct Hc as [Hc | Hc];
      [specialize (Hst1 Hc) | specialize (Hst2 Hc)]; lia.
  - assert (Hloop : forall fuel n prev s pos,
      (fix loop (fuel n : nat) (prev : option ascii) (s : string) (pos : nat)
           {struct fuel} : option nat :=
         let leave := if (lo <=? n)%nat then k prev s pos else None in
         match fuel with
         | O => leave
         | S fuel' =>
             if Re.below n hi then
               match Re.run icase r' prev s pos
                       (fun prev' s' pos' =>
                          if (pos' =? pos)%nat then None
                          else loop fuel' (S n) prev' s' pos') with
               | Some e => Some e
               | None => leave
               end
             else leave
         end) fuel n prev s pos = Some e ->
      reached k s pos ((n <? lo)%nat && consumes r') e).
    { clear H. clear prev s pos. induction fuel as [| fuel IHf]; intros n prev s pos H.
      - destruct (Nat.leb_spec lo n) as [Hn | Hn]; [| discriminate].
        exists prev, s, pos. repeat split; try assumption; try lia.
        intros Hc. apply andb_true_iff in Hc. destruct Hc as [Hc _].
        apply Nat.ltb_lt in Hc. lia.
      - assert (Hleave :
          (if (lo <=? n)%nat then k prev s pos else None) = Some e ->
          reached k s pos ((n <? lo)%nat && consumes r') e).
        { intros Hl. destruct (Nat.leb_spec lo n) as [Hn | Hn]; [| discriminate].
          exists prev, s, pos. repeat split; try assumption; try lia.
          intros Hc. apply andb_true_iff in Hc. destruct Hc as [Hc _].
          apply Nat.ltb_lt in Hc. lia. }
        cbv beta iota fix zeta in H.
        destruct (Re.below n hi); [| apply Hleave, H].
        match type of H with
        | match ?m with _ => _ end = _ => destruct m as [e' |] eqn:Hrun
        end; [| apply Hleave, H].
        injection H as ->.
        apply IH in Hrun.
        destruct Hrun as (prev1 & s1 & pos1 & Hk1 & Hle1 & Hlen1 & Hst1).
        destruct (Nat.eqb_spec pos1 pos) as [Heq | Hne]; [discriminate |].
        apply IHf in Hk1.
        destruct Hk1 as (prev2 & s2 & pos2 & Hk2 & Hle2 & Hlen2 & _).
        exists prev2, s2, pos2. repeat split; try assumption; lia. }
    pose proof (Hloop (S (String.length s)) 0%nat prev s pos H) as Hr.
    destruct Hr as (prev' & s' & pos' & Hk & Hle & Hlen & Hst).
    exists prev', s', pos'. repeat split; assumption.
  - destruct (Re.at_boundary prev s); [| discriminate].
    exists prev, s, pos. repeat split; try assumption; try lia; try discriminate.
  - destruct (Re.run icase r' prev s pos _); [discriminate |].
    exists prev, s, pos. repeat split; try assumption; try lia; try discriminate.
Qed.

Lemma match_at_bounds icase r prev s pos e :
  consumes r = true ->
  Re.match_at icase r prev s pos = Some e ->
  (pos < e <= pos + String.length s)%nat.
Proof.
  intros Hc H. unfold Re.match_at in H. apply run_reaches in H.
  destruct H as (prev' & s' & pos' & Hk & Hle & Hlen & Hst).
  injection Hk as <-. specialize (Hst Hc). lia.
Qed.

Lemma advance_length n : forall prev s,
  (n <= String.length s)%nat ->
  String.length (snd (Re.advance n prev s)) = (String.length s - n)%nat.
Proof.
  induction n as [| n IH]; intros prev [| c s] H; cbn [Re.advance snd String.length] in *;
    try lia.
  rewrite IH by lia. reflexivity.
Qed.

Lemma scan_bounds icase r fuel : forall prev s pos,
  consumes r = true ->
  Forall (fun m : nat * nat =>
            (pos <= fst m < snd m)%nat /\ (snd m <= pos + String.length s)%nat)
         (Re.scan fuel icase r prev s pos).
Proof.
  induction fuel as [| fuel IH]; intros prev s pos Hc; cbn [Re.scan].
  - constructor.
  - destruct (Re.match_at icase r prev s pos) as [e |] eqn:Hm.
    + pose proof (match_at_bounds _ _ _ _ _ _ Hc Hm) as Hb.
      destruct (Nat.eqb_spec e pos) as [Heq | Hne]; [lia |].
      destruct (Re.advance (e - pos) prev s) as [prev' s'] eqn:Ha.
      constructor; [cbn [fst snd]; lia |].
      destruct s as [| c s0]; [constructor |].
      pose proof (advance_length (e - pos) prev (String c s0) ltac:(lia)) as Hlen.
      rewrite Ha in Hlen. cbn [snd] in Hlen.
      eapply Forall_impl; [apply IH, Hc |].
      intros m Hmm. cbn beta in Hmm. lia.
    + destruct s as [| c s0]; [constructor |].
      eapply Forall_impl; [apply IH, Hc |].
      intros m Hmm. cbn beta in Hmm. cbn [String.length]. lia.
Qed.

Lemma patterns_consume :
  Forall (fun entry : string * Re.regex => consumes (snd entry) = true) patterns.
Proof. repeat constructor. Qed.

Lemma matches_of_in_bounds method st text entry :
  consumes (snd entry) = true ->
  Forall (in_bounds text) (matches_of method st text entry).
Proof.
  intros Hc. destruct entry as [etype pattern]. cbn [snd] in Hc.
  unfold matches_of. apply Forall_forall. intros x Hx.
  apply list_elem_of_In, in_flat_map in Hx. destruct Hx as ([s e] & Hm & Hx).
  destruct (match lookup_validator etype validators with
            | Some validate => validate _
            | None => true
            end); [| contradiction].
  destruct Hx as [<- | []].
  pose proof (scan_bounds true pattern (S (String.length text)) None text 0 Hc) as Hs.
  rewrite Forall_forall in Hs. apply list_elem_of_In in Hm.
  specialize (Hs _ Hm). cbn [fst snd] in Hs.
  unfold in_bounds. cbn [start_pos end_pos]. lia.
Qed.

Lemma detect_rule_based_in_bounds text :
  Forall (in_bounds text) (_detect_rule_based text).
Proof.
  unfold _detect_rule_based. apply Forall_forall. intros x Hx.
  apply list_elem_of_In, in_flat_map in Hx. destruct Hx as (entry & Hentry & Hx).
  pose proof patterns_consume as Hc. rewrite Forall_forall in Hc.
  apply list_elem_of_In in Hentry.
  pose proof (matches_of_in_bounds "rule_based" "auto_masked" text entry
                (Hc entry Hentry)) as Hb.
  rewrite Forall_forall in Hb. apply Hb. apply list_elem_of_In. exact Hx.
Qed.

Lemma fuse_fold_elements cands : forall resolved x,
  x ∈ fold_left fuse_step cands resolved -> x ∈ resolved \/ x ∈ cands.
Proof.
  induction cands as [| c cands IH]; intros resolved x Hx; cbn [fold_left] in Hx.
  - left. exact Hx.
  - apply IH in Hx. rewrite elem_of_cons. destruct Hx as [Hx | Hx]; [| tauto].
    apply fuse_step_elements in Hx. tauto.
Qed.

Lemma fuse_elements rule_entities ml_entities x :
  x ∈ _fuse_and_resolve_entities rule_entities ml_entities ->
  x ∈ rule_entities ++ ml_entities.
Proof.
  unfold _fuse_and_resolve_entities.
  destruct (rule_entities ++ ml_entities) as [| y l] eqn:E.
  - intros Hx. inversion Hx.
  - intros Hx. apply fuse_fold_elements in Hx. destruct Hx as [Hx | Hx].
    + inversion Hx.
    + rewrite (sort_asc_perm (y :: l)). exact Hx.
Qed.

Lemma pipeline_in_bounds cfg elapsed text ml :
  Forall (in_bounds text) ml ->
  Forall (in_bounds text) (entities_found (pipeline cfg elapsed text ml)).
Proof.
  intros Hml. rewrite pipeline_entities_found.
  eapply Permutation_Forall; [apply sort_desc_perm |].
  apply Forall_map. apply Forall_forall. intros x Hx.
  apply fuse_elements, elem_of_app in Hx.
  assert (Hb : in_bounds text x).
  { destruct Hx as [Hx | Hx].
    - pose proof (detect_rule_based_in_bounds text) as H.
      rewrite Forall_forall in H. apply H, Hx.
    - rewrite Forall_forall in Hml. apply Hml, Hx. }
  cbn. destruct (mark_entity_same cfg x) as (_ & _ & Hs & He & _).
  unfold in_bounds in *. rewrite Hs, He. exact Hb.
Qed.

Lemma matches_of_value method st text entry x :
  x ∈ matches_of method st text entry ->
  value x = PyStr.slice text (start_pos x) (end_pos x).
Proof.
  destruct entry as [etype pattern]. unfold matches_of. intros Hx.
  apply list_elem_of_In, in_flat_map in Hx. destruct Hx as ([s e] & _ & Hx).
  destruct (match lookup_validator etype validators with
            | Some validate => validate _
            | None => true
            end); [| contradiction].
  destruct Hx as [<- | []]. reflexivity.
Qed.

Lemma detect_rule_based_value text x :
  x ∈ _detect_rule_based text ->
  value x = PyStr.slice text (start_pos x) (end_pos x).
Proof.
  unfold _detect_rule_based. intros Hx.
  apply list_elem_of_In, in_flat_map in Hx. destruct Hx as (entry & _ & Hx).
  eapply matches_of_value. apply list_elem_of_In. exact Hx.
Qed.

(** ** Worked examples *)

Example ssn_validator_cases :
  _validate_ssn "123-45-6789" = true
  /\ _validate_ssn "000-12-3456" = false
  /\ _validate_ssn "666-12-3456" = false
  /\ _validate_ssn "123-00-6789" = false
  /\ _validate_ssn "123-45-0000" = false.
Proof. repeat split; reflexivity. Qed.

Example ip_validator_cases :
  _validate_ip "192.168.1.1" = true /\ _validate_ip "192.168.1.256" = false.
Proof. split; reflexivity. Qed.

Example failing_luhn_is_not_a_card :
  _detect_rule_based "4111-1111-1111-1112" = []
  /\ map entity_type (_detect_rule_based "4111-1111-1111-1111") = ["CREDIT_CARD"].
Proof. split; vm_compute; reflexivity. Qed.

Example rule_based_email_beats_model_person :
  _fuse_and_resolve_entities
    [email_entity "jo@example.org" 9] [person_over "jo@example.org" 9]
  = [email_entity "jo@example.org" 9].
Proof. vm_compute. reflexivity. Qed.

Example residual_scan_of_clean_output :
  _validate_residual_pii "Contact John Smith at [EMAIL_001] or [PHONE_001]." = [].
Proof. vm_compute. reflexivity. Qed.

Example partial_reveal_of_a_name :
  partial_reveal "John" = "J***" /\ partial_reveal "J" = "*".
Proof. split; reflexivity. Qed.

(** ** The pattern detector, once more *)

Lemma matches_of_tags method st text entry x :
  x ∈ matches_of method st text entry ->
  entity_type x = fst entry /\ confidence x = 1%Q
  /\ detection_method x = method /\ status x = st
  /\ passes_validator x.
Proof.
  destruct entry as [etype pattern]. unfold matches_of. intros Hx.
  apply list_elem_of_In, in_flat_map in Hx. destruct Hx as ([s e] & _ & Hx).
  destruct (lookup_validator etype validators) as [validate |] eqn:Hv.
  - destruct (validate (PyStr.slice text (Z.of_nat s) (Z.of_nat e))) eqn:Hok;
      [| contradiction].
    destruct Hx as [<- | []]. unfold passes_validator.
    cbn [entity_type value confidence detection_method status fst].
    rewrite Hv. repeat split; try reflexivity. exact Hok.
  - destruct Hx as [<- | []]. unfold passes_validator.
    cbn [entity_type value confidence detection_method status fst].
    rewrite Hv. repeat split; reflexivity.
Qed.

Lemma detect_rule_based_entry text x :
  x ∈ _detect_rule_based text ->
  exists entry, In entry patterns /\ x ∈ matches_of "rule_based" "auto_masked" text entry.
Proof.
  unfold _detect_rule_based. intros Hx.
  apply list_elem_of_In, in_flat_map in Hx. destruct Hx as (entry & He & Hx).
  exists entry. split; [exact He | apply list_elem_of_In, Hx].
Qed.

Lemma matches_of_retag m1 s1 text entry :
  matches_of "residual_validation" "residual" text entry
  = map retag_residual (matches_of m1 s1 text entry).
Proof.
  destruct entry as [etype pattern]. unfold matches_of.
  induction (Re.finditer true pattern text) as [| [s e] l IH]; [reflexivity |].
  cbn [flat_map]. rewrite map_app, IH. f_equal.
  destruct (match lookup_validator etype validators with
            | Some validate => validate _
            | None => true
            end); reflexivity.
Qed.

(** ** The Luhn loop, digit by digit *)

Lemma luhn_loop_step digit rest i checksum :
  luhn_loop (digit :: rest) i checksum
  = luhn_loop rest (S i) (checksum + loop_term i digit).
Proof.
  cbn [luhn_loop]. unfold loop_term.
  destruct (i mod 2 =? 1)%nat; reflexivity.
Qed.

Lemma luhn_loop_shift l : forall i checksum x,
  luhn_loop l i (checksum + x) = luhn_loop l i checksum + x.
Proof.
  induction l as [| d l IH]; intros i checksum x.
  - reflexivity.
  - rewrite !luhn_loop_step.
    replace (checksum + x + loop_term i d) with (checksum + loop_term i d + x) by lia.
    apply IH.
Qed.

Lemma luhn_loop_app a : forall b i checksum,
  luhn_loop (a ++ b) i checksum
  = luhn_loop b (i + length a) (luhn_loop a i checksum).
Proof.
  induction a as [| d a IH]; intros b i checksum; cbn [app length].
  - rewrite Nat.add_0_r. reflexivity.
  - rewrite !luhn_loop_step, IH. f_equal. lia.
Qed.

Lemma loop_term_injective i d d' :
  is_digit_value d -> is_digit_value d' -> d <> d' ->
  (loop_term i d - loop_term i d') mod 10 <> 0.
Proof.
  intros [Hd1 Hd2] [Hd1' Hd2'] Hne. unfold loop_term.
  destruct (i mod 2 =? 1)%nat.
  - assert (Hd : d = 0 \/ d = 1 \/ d = 2 \/ d = 3 \/ d = 4 \/ d = 5 \/ d = 6
                 \/ d = 7 \/ d = 8 \/ d = 9) by lia.
    assert (Hd' : d' = 0 \/ d' = 1 \/ d' = 2 \/ d' = 3 \/ d' = 4 \/ d' = 5
                  \/ d' = 6 \/ d' = 7 \/ d' = 8 \/ d' = 9) by lia.
    clear Hd1 Hd2 Hd1' Hd2'.
    repeat (destruct Hd as [-> | Hd]);
      repeat (destruct Hd' as [-> | Hd']);
      subst; try congruence; vm_compute; discriminate.
  - intros H. apply Z.mod_divide in H; [| lia].
    destruct H as [k Hk]. lia.
Qed.

Lemma digits_of_app s1 s2 :
  digits_of (s1 +:+ s2) = digits_of s1 ++ digits_of s2.
Proof.
  induction s1 as [| c s1 IH]; [reflexivity |].
  rewrite append_cons. cbn [digits_of].
  destruct (PyStr.isdigit c); rewrite IH; reflexivity.
Qed.

Lemma digit_value_injective c c' :
  PyStr.isdigit c = true -> PyStr.isdigit c' = true -> c <> c' ->
  PyStr.digit_value c <> PyStr.digit_value c'.
Proof.
  unfold PyStr.isdigit, PyStr.in_range, PyStr.digit_value, PyStr.code.
  rewrite !andb_true_iff, !Nat.leb_le.
  change (nat_of_ascii "0") with 48%nat.
  intros [Hc _] [Hc' _] Hne Heq. apply Hne.
  rewrite <- (ascii_nat_embedding c), <- (ascii_nat_embedding c').
  f_equal. lia.
Qed.

Lemma digit_value_range c :
  PyStr.isdigit c = true -> is_digit_value (PyStr.digit_value c).
Proof.
  unfold PyStr.isdigit, PyStr.in_range, PyStr.digit_value, PyStr.code,
    is_digit_value.
  rewrite !andb_true_iff, !Nat.leb_le.
  change (nat_of_ascii "0") with 48%nat. change (nat_of_ascii "9") with 57%nat.
  lia.
Qed.

(** ** Fusion keeps a subsequence of its sorted candidates *)

Lemma fuse_step_sublist resolved processed c :
  resolved `sublist_of` processed ->
  fuse_step resolved c `sublist_of` processed ++ [c].
Proof.
  intros Hsub. rewrite fuse_step_resolve_spec. unfold resolve_spec.
  destruct (first_overlap c resolved) as [[i existing] |].
  - destruct (prevails c existing).
    + apply sublist_app; [| reflexivity].
      transitivity resolved; [apply sublist_delete | exact Hsub].
    + apply sublist_inserts_r, Hsub.
  - apply sublist_app; [exact Hsub | reflexivity].
Qed.

Lemma fuse_fold_sublist cands : forall resolved processed,
  resolved `sublist_of` processed ->
  fold_left fuse_step cands resolved `sublist_of` processed ++ cands.
Proof.
  induction cands as [| c cands IH]; intros resolved processed Hsub.
  - cbn. rewrite app_nil_r. exact Hsub.
  - cbn [fold_left].
    replace (processed ++ c :: cands) with ((processed ++ [c]) ++ cands)
      by (rewrite <- app_assoc; reflexivity).
    apply IH, fuse_step_sublist, Hsub.
Qed.

Lemma fuse_sublist rule_entities ml_entities :
  _fuse_and_resolve_entities rule_entities ml_entities
  `sublist_of` sort_asc (rule_entities ++ ml_entities).
Proof.
  unfold _fuse_and_resolve_entities.
  destruct (rule_entities ++ ml_entities) as [| x l] eqn:E.
  - reflexivity.
  - apply (fuse_fold_sublist _ [] []). reflexivity.
Qed.

Lemma sublist_strongly_sorted (R : PIIEntity -> PIIEntity -> Prop) l1 l2 :
  l1 `sublist_of` l2 -> StronglySorted R l2 -> StronglySorted R l1.
Proof.
  induction 1 as [| x l1 l2 Hsub IH | x l1 l2 Hsub IH]; intros Hs.
  - constructor.
  - apply StronglySorted_inv in Hs. destruct Hs as [Hs Hx].
    constructor; [apply IH, Hs |].
    apply List.Forall_forall. intros y Hy.
    rewrite List.Forall_forall in Hx. apply Hx.
    apply list_elem_of_In. apply list_elem_of_In in Hy.
    eapply sublist_submseteq, elem_of_submseteq in Hsub; eassumption.
  - apply StronglySorted_inv in Hs. apply IH, Hs.
Qed.

Lemma fuse_sorted rule_entities ml_entities :
  StronglySorted starts_le (_fuse_and_resolve_entities rule_entities ml_entities).
Proof.
  eapply sublist_strongly_sorted; [apply fuse_sublist | apply sort_asc_sorted].
Qed.

Lemma length_sort_asc l : length (sort_asc l) = length l.
Proof. symmetry. apply Permutation_length, sort_asc_perm. Qed.

(** ** Fusion of candidates that do not overlap *)

Lemma resolve_against_disjoint c iter resolved :
  Forall (fun e => disjoint e c) iter ->
  resolve_against c iter resolved = (resolved, false).
Proof.
  induction iter as [| e iter IH]; intros H; [reflexivity |].
  apply Forall_cons in H. destruct H as [He H]. cbn [resolve_against].
  apply disjoint_sym, overlaps_false_disjoint in He. rewrite He.
  apply IH, H.
Qed.

Lemma fuse_fold_disjoint_id cands : forall resolved,
  pairwise_disjoint (resolved ++ cands) ->
  fold_left fuse_step cands resolved = resolved ++ cands.
Proof.
  induction cands as [| c cands IH]; intros resolved H.
  - cbn. rewrite app_nil_r. reflexivity.
  - cbn [fold_left]. unfold fuse_step.
    rewrite resolve_against_disjoint.
    + rewrite IH; rewrite <- app_assoc; [reflexivity | exact H].
    + apply pairwise_disjoint_app in H. destruct H as (_ & _ & H).
      eapply Forall_impl; [exact H |]. intros e He.
      apply Forall_cons in He. apply He.
Qed.

Lemma sort_asc_sorted_id l : StronglySorted starts_le l -> sort_asc l = l.
Proof.
  induction l as [| x l IH]; intros Hs; [reflexivity |].
  apply StronglySorted_inv in Hs. destruct Hs as [Hs Hx].
  cbn [sort_asc fold_right]. fold (sort_asc l). rewrite (IH Hs).
  destruct l as [| y l]; [reflexivity |]. cbn [insert_asc].
  apply List.Forall_inv in Hx. unfold starts_le in Hx.
  destruct (start_pos x <=? start_pos y) eqn:E; [reflexivity |].
  apply Z.leb_gt in E. lia.
Qed.

Lemma fuse_of_disjoint rule_entities ml_entities :
  pairwise_disjoint (rule_entities ++ ml_entities) ->
  _fuse_and_resolve_entities rule_entities ml_entities
  = sort_asc (rule_entities ++ ml_entities).
Proof.
  intros H. unfold _fuse_and_resolve_entities.
  destruct (rule_entities ++ ml_entities) as [| x l] eqn:E; [reflexivity |].
  rewrite fuse_fold_disjoint_id; [reflexivity |]. cbn [app].
  eapply pairwise_disjoint_perm; [apply sort_asc_perm | exact H].
Qed.

(** ** Pattern findings keep their ground in fusion *)

Lemma first_overlap_elem c resolved : forall i existing,
  first_overlap c resolved = Some (i, existing) -> existing ∈ resolved.
Proof.
  induction resolved as [| y l IH]; intros i existing H; [discriminate |].
  cbn [first_overlap] in H. destruct (overlaps c y).
  - injection H as <- <-. apply list_elem_of_here.
  - destruct (first_overlap c l) as [[j e] |]; [| discriminate].
    injection H as <- <-. apply list_elem_of_further, (IH j e). reflexivity.
Qed.

Lemma entity_eqb_method y x :
  entity_eqb y x = true -> detection_method y = detection_method x.
Proof.
  unfold entity_eqb. rewrite !andb_true_iff.
  intros [[_ H] _]. apply String.eqb_eq, H.
Qed.

Lemma list_remove_keeps x y l :
  y ∈ l -> detection_method y <> detection_method x -> y ∈ list_remove x l.
Proof.
  induction l as [| z l IH]; intros Hy Hne; [exact Hy |].
  cbn [list_remove]. destruct (entity_eqb z x) eqn:E.
  - apply elem_of_cons in Hy. destruct Hy as [-> | Hy]; [| exact Hy].
    apply entity_eqb_method in E. contradiction.
  - apply elem_of_cons in Hy. destruct Hy as [-> | Hy].
    + apply list_elem_of_here.
    + apply list_elem_of_further, IH; assumption.
Qed.

Lemma is_rule_based_iff e :
  is_rule_based e = true <-> detection_method e = "rule_based".
Proof. unfold is_rule_based. apply String.eqb_eq. Qed.

(** One turn of the fusion loop, for candidates whose pattern findings
    all carry the same confidence. *)
Lemma fuse_step_covers resolved c x :
  (forall e, e ∈ resolved -> is_rule_based e = true -> confidence e = 1%Q) ->
  (is_rule_based c = true -> confidence c = 1%Q /\ start_pos c < end_pos c) ->
  (exists y, y ∈ resolved /\ covered_by x y) \/ (x = c /\ is_rule_based c = true) ->
  exists y, y ∈ fuse_step resolved c /\ covered_by x y.
Proof.
  intros Hres Hc Hx.
  unfold fuse_step. rewrite resolve_against_first_overlap.
  destruct (first_overlap c resolved) as [[i existing] |] eqn:Hfo.
  - pose proof (first_overlap_elem _ _ _ _ Hfo) as Hin.
    pose proof (first_overlap_overlaps _ _ _ _ Hfo) as Hov.
    unfold candidate_wins.
    destruct (is_rule_based c) eqn:Hrc; cbn [andb negb].
    + destruct (Hc eq_refl) as [Hcc Hspan].
      destruct (is_rule_based existing) eqn:Hre; cbn [negb].
      * assert (Hq : Qgtb (confidence c) (confidence existing) = false).
        { rewrite Hcc, (Hres existing Hin Hre). reflexivity. }
        rewrite Hq.
        destruct Hx as [(y & Hy & Hcov) | [-> _]].
        -- exists y. split; assumption.
        -- exists existing. split; [exact Hin |]. split; assumption.
      * destruct Hx as [(y & Hy & Hcov) | [-> _]].
        -- exists y. split; [| exact Hcov].
           apply elem_of_app. left. apply list_remove_keeps; [exact Hy |].
           destruct Hcov as [Hry _]. apply is_rule_based_iff in Hry.
           intros Heq. rewrite Hry in Heq.
           symmetry in Heq. apply is_rule_based_iff in Heq. congruence.
        -- exists c. split; [apply elem_of_app; right; apply list_elem_of_here |].
           split; [exact Hrc |]. apply overlaps_true. lia.
    + destruct Hx as [(y & Hy & Hcov) | [_ ?]]; [| discriminate].
      exists y. split; assumption.
  - destruct Hx as [(y & Hy & Hcov) | [-> Hrc]].
    + exists y. split; [apply elem_of_app; left; exact Hy | exact Hcov].
    + exists c. split; [apply elem_of_app; right; apply list_elem_of_here |].
      split; [exact Hrc |]. apply overlaps_true.
      destruct (Hc Hrc) as [_ Hspan]. lia.
Qed.

Lemma fuse_fold_covers cands : forall resolved x,
  (forall e, e ∈ resolved ++ cands ->
             is_rule_based e = true ->
             confidence e = 1%Q /\ start_pos e < end_pos e) ->
  (exists y, y ∈ resolved /\ covered_by x y)
  \/ (x ∈ cands /\ is_rule_based x = true) ->
  exists y, y ∈ fold_left fuse_step cands resolved /\ covered_by x y.
Proof.
  induction cands as [| c cands IH]; intros resolved x Hall Hx.
  - destruct Hx as [Hx | [Hx _]]; [exact Hx | inversion Hx].
  - cbn [fold_left]. apply IH.
    + intros e He Hre. apply Hall; [| exact Hre].
      apply elem_of_app in He. destruct He as [He | He].
      * apply fuse_step_elements in He. destruct He as [He | ->].
        -- apply elem_of_app. left. exact He.
        -- apply elem_of_app. right. apply list_elem_of_here.
      * apply elem_of_app. right. apply list_elem_of_further, He.
    + destruct Hx as [Hx | [Hx Hrx]].
      * left. apply fuse_step_covers.
        -- intros e He Hre. apply Hall; [apply elem_of_app; left; exact He | exact Hre].
        -- intros Hrc. apply Hall; [| exact Hrc].
           apply elem_of_app. right. apply list_elem_of_here.
        -- left. exact Hx.
      * apply elem_of_cons in Hx. destruct Hx as [-> | Hx].
        -- left. apply fuse_step_covers.
           ++ intros e He Hre. apply Hall; [apply elem_of_app; left; exact He | exact Hre].
           ++ intros Hrc. apply Hall; [| exact Hrc].
              apply elem_of_app. right. apply list_elem_of_here.
           ++ right. split; [reflexivity | exact Hrx].
        -- right. split; assumption.
Qed.

Lemma detect_rule_based_rule text x :
  x ∈ _detect_rule_based text ->
  is_rule_based x = true /\ confidence x = 1%Q /\ start_pos x < end_pos x.
Proof.
  intros Hx.
  destruct (detect_rule_based_entry text x Hx) as (entry & _ & Hm).
  destruct (matches_of_tags _ _ _ _ _ Hm) as (_ & Hc & Hd & _).
  pose proof (detect_rule_based_in_bounds text) as Hb.
  rewrite Forall_forall in Hb. destruct (Hb x Hx) as [Hspan _].
  split; [apply is_rule_based_iff, Hd |]. split; [exact Hc | lia].
Qed.

Lemma fuse_covers text ml x :
  model_only ml ->
  x ∈ _detect_rule_based text ->
  exists y, y ∈ _fuse_and_resolve_entities (_detect_rule_based text) ml
            /\ covered_by x y.
Proof.
  intros Hml Hx. unfold _fuse_and_resolve_entities.
  destruct (_detect_rule_based text ++ ml) as [| z l] eqn:E.
  - destruct (_detect_rule_based text); [inversion Hx | discriminate].
  - rewrite <- E. apply fuse_fold_covers.
    + intros e He Hre. cbn [app] in He.
      apply list_elem_of_In in He.
      apply (Permutation_in _ (Permutation_sym (sort_asc_perm _))) in He.
      apply list_elem_of_In, elem_of_app in He. destruct He as [He | He].
      * destruct (detect_rule_based_rule text e He) as (_ & Hc & Hs).
        split; assumption.
      * unfold model_only in Hml. rewrite Forall_forall in Hml.
        rewrite (Hml e He) in Hre. discriminate.
    + right. split; [| apply (detect_rule_based_rule text x Hx)].
      apply list_elem_of_In.
      apply (Permutation_in _ (sort_asc_perm _)).
      apply list_elem_of_In, elem_of_app. left. exact Hx.
Qed.

(** ** What the model backends report *)

Lemma entities_of_pii_dict_elem text retype conf method pii e :
  e ∈ entities_of_pii_dict text retype conf method pii ->
  confidence e = conf /\ detection_method e = method
  /\ status e = "auto_masked"
  /\ start_pos e = PyStr.find text (value e) /\ start_pos e <> -1
  /\ end_pos e = start_pos e + Z.of_nat (String.length (value e))
  /\ exists label values,
       In (label, values) pii /\ In (value e) values
       /\ retype label = Some (entity_type e).
Proof.
  unfold entities_of_pii_dict. intros He.
  apply list_elem_of_In, in_flat_map in He.
  destruct He as ([label values] & Hentry & He).
  apply in_flat_map in He. destruct He as (v & Hv & He).
  destruct (PyStr.find text v =? -1) eqn:Hfind; [contradiction |].
  apply Z.eqb_neq in Hfind.
  destruct (retype label) as [mapped |] eqn:Hmap; [| contradiction].
  destruct He as [<- | []]. cbn.
  repeat split; try reflexivity; try assumption.
  exists label, values. repeat split; assumption.
Qed.

Lemma improve_keeps entity :
  value (_improve_entity_classification entity) = value entity
  /\ start_pos (_improve_entity_classification entity) = start_pos entity
  /\ end_pos (_improve_entity_classification entity) = end_pos entity
  /\ confidence (_improve_entity_classification entity) = confidence entity
  /\ detection_method (_improve_entity_classification entity)
     = detection_method entity
  /\ status (_improve_entity_classification entity) = status entity.
Proof.
  unfold _improve_entity_classification.
  repeat match goal with
         | |- context [if ?b then _ else _] => destruct b
         end; repeat split; reflexivity.
Qed.

Lemma longtransformer_entities_elem text pii e :
  e ∈ longtransformer_entities text pii ->
  exists e0,
    e0 ∈ entities_of_pii_dict text _map_ml_label_to_pii_type (85 # 100)
           "longtransformer_pii" pii
    /\ keep_ml_entity e0 = true
    /\ e = _improve_entity_classification e0.
Proof.
  unfold longtransformer_entities, _filter_ml_entities. intros He.
  apply list_elem_of_In, filter_In in He. destruct He as [He _].
  apply in_map_iff in He. destruct He as (e0 & <- & He0).
  apply filter_In in He0. destruct He0 as [He0 Hkeep].
  exists e0. split; [apply list_elem_of_In, He0 |]. split; [exact Hkeep | reflexivity].
Qed.

Lemma bert_loop_profile (P : PIIEntity -> Prop) pairs :
  (forall ce cv cs, P (bert_entity ce cv cs)) ->
  forall i entities current_entity current_value current_start,
    Forall P entities ->
    Forall P (bert_loop i pairs entities current_entity current_value
                current_start).
Proof.
  intros HP. induction pairs as [| [token label] rest IH];
    intros i entities ce cv cs Hent; [exact Hent |].
  cbn [bert_loop].
  assert (Hpush : forall c v s, Forall P (entities ++ [bert_entity c v s])).
  { intros c v s. apply Forall_app. split; [exact Hent |].
    apply Forall_cons. split; [apply HP | apply Forall_nil_2]. }
  destruct (PyStr.startswith "B-" label).
  - destruct (assoc label bert_label_mapping); destruct ce; apply IH;
      first [apply Hpush | exact Hent].
  - destruct ce; [| apply IH, Hent].
    destruct (PyStr.startswith "I-" label); [apply IH, Hent |].
    destruct (String.eqb label "O"); apply IH; first [apply Hpush | exact Hent].
Qed.

Lemma detect_with_bert_ner_profile (P : PIIEntity -> Prop) eng model text l :
  (forall ce cv cs, P (bert_entity ce cv cs)) ->
  _detect_with_bert_ner eng model text = Return l -> Forall P l.
Proof.
  intros HP. unfold _detect_with_bert_ner.
  destruct (fallback_tokenizer eng) as [tokenizer |]; cbn [bind]; [| discriminate].
  destruct (tokenizer text) as [| tokens]; cbn [bind]; [discriminate |].
  destruct (model tokens) as [| labels]; cbn [bind]; [discriminate |].
  intros H. injection H as <-.
  apply bert_loop_profile; [exact HP | apply Forall_nil_2].
Qed.

Lemma detect_with_base_deberta_elem text e :
  e ∈ _detect_with_base_deberta text ->
  entity_type e = "POTENTIAL_NAME"
  /\ confidence e = 3 # 10
  /\ detection_method e = "base_deberta_heuristic"
  /\ status e = "auto_masked"
  /\ In (value e) (PyStr.split text)
  /\ start_pos e = PyStr.find text (value e)
  /\ end_pos e = start_pos e + Z.of_nat (String.length (value e)).
Proof.
  unfold _detect_with_base_deberta. intros He.
  apply list_elem_of_In, in_flat_map in He. destruct He as (w & Hw & He).
  destruct (first_isupper w && (2 <? String.length w)%nat
            && negb (PyStr.endswith_char "." w)
            && negb (PyStr.endswith_char "," w)
            && negb (PyStr.existsb PyStr.isdigit w)); [| contradiction].
  destruct (negb (member w common_words)); [| contradiction].
  destruct He as [<- | []]. cbn. repeat split; try reflexivity. exact Hw.
Qed.

Lemma rule_based_listed eng : In "rule_based" (get_detection_methods eng).
Proof.
  unfold get_detection_methods.
  destruct (longtransformer_detector eng), (ml_detector eng),
    (fallback_ner_model eng), (base_deberta eng); cbn; tauto.
Qed.

Lemma first_returned_app (P : PIIEntity -> Prop) a b :
  Forall P (first_returned a) -> Forall P (first_returned b) ->
  Forall P (first_returned (a ++ b)).
Proof.
  intros Ha Hb. induction a as [| [err | l] a IH]; cbn [app first_returned].
  - exact Hb.
  - apply IH, Ha.
  - exact Ha.
Qed.

(** Each attempt of the chain, taken alone. *)
Ltac backend_cases eng :=
  unfold stamped, has_backend_profile, get_detection_methods, backend_profile;
  destruct (longtransformer_detector eng), (ml_detector eng),
    (fallback_ner_model eng), (base_deberta eng);
  try discriminate; cbn; tauto.

Lemma pii_dict_stamped eng text retype conf method pii :
  (forall e, confidence e = conf -> detection_method e = method ->
             status e = "auto_masked" -> stamped eng e) ->
  Forall (stamped eng) (entities_of_pii_dict text retype conf method pii).
Proof.
  intros H. apply Forall_forall. intros e He.
  apply entities_of_pii_dict_elem in He.
  destruct He as (Hc & Hm & Hs & _). apply H; assumption.
Qed.

Lemma attempts_stamped eng text :
  Forall (stamped eng) (first_returned (attempts eng text)).
Proof.
  unfold attempts. repeat apply first_returned_app.
  - destruct (longtransformer_detector eng) as [backend |] eqn:Hb;
      [| apply Forall_nil_2].
    cbn [first_returned]. destruct (backend text) as [err | pii]; cbn [bind];
      [apply Forall_nil_2 |].
    apply Forall_forall. intros e He.
    apply longtransformer_entities_elem in He.
    destruct He as (e0 & He0 & _ & ->).
    apply entities_of_pii_dict_elem in He0. destruct He0 as (Hc & Hm & Hs & _).
    destruct (improve_keeps e0) as (_ & _ & _ & Hc' & Hm' & Hs').
    unfold stamped, has_backend_profile. rewrite Hc', Hm', Hs', Hc, Hm, Hs.
    revert Hb. clear. intros Hb. backend_cases eng.
  - destruct (ml_detector eng) as [backend |] eqn:Hb; [| apply Forall_nil_2].
    cbn [first_returned]. destruct (backend text) as [err | pii]; cbn [bind];
      [apply Forall_nil_2 |].
    apply pii_dict_stamped. intros e Hc Hm Hs.
    unfold stamped, has_backend_profile. rewrite Hc, Hm, Hs.
    revert Hb. clear. intros Hb. backend_cases eng.
  - destruct (fallback_ner_model eng) as [model |] eqn:Hb; [| apply Forall_nil_2].
    cbn [first_returned].
    destruct (_detect_with_bert_ner eng model text) as [err | l] eqn:Hl;
      [apply Forall_nil_2 |].
    eapply detect_with_bert_ner_profile; [| exact Hl].
    intros ce cv cs. revert Hb. clear. intros Hb. backend_cases eng.
  - destruct (base_deberta eng) eqn:Hb; [| apply Forall_nil_2].
    cbn [first_returned]. apply Forall_forall. intros e He.
    apply detect_with_base_deberta_elem in He.
    destruct He as (_ & Hc & Hm & Hs & _).
    unfold stamped, has_backend_profile. rewrite Hc, Hm, Hs.
    revert Hb. clear. intros Hb. backend_cases eng.
Qed.

Lemma detect_ml_stamped eng text ml :
  _detect_ml eng text = Return ml -> Forall (stamped eng) ml.
Proof.
  rewrite detect_ml_first_returned. intros H. injection H as <-.
  apply attempts_stamped.
Qed.

Lemma stamped_model_only eng ml : Forall (stamped eng) ml -> model_only ml.
Proof.
  unfold model_only. intros H. eapply Forall_impl; [exact H |].
  intros e [[Hp _] _].
  unfold is_rule_based. cbn in Hp.
  destruct Hp as [Hp | [Hp | [Hp | [Hp | []]]]];
    injection Hp as Hm _; rewrite <- Hm; reflexivity.
Qed.

Lemma covered_by_same x y y' :
  same_but_status y' y -> covered_by x y -> covered_by x y'.
Proof.
  intros (_ & _ & Hs & He & _ & Hm) [Hr Ho]. split.
  - unfold is_rule_based in *. rewrite Hm. exact Hr.
  - unfold overlaps in *. rewrite Hs, He. exact Ho.
Qed.

Lemma elem_of_sort_desc x l : x ∈ l -> x ∈ sort_desc l.
Proof.
  intros H. apply list_elem_of_In.
  apply (Permutation_in _ (sort_desc_perm l)), list_elem_of_In, H.
Qed.

Lemma sort_desc_elem x l : x ∈ sort_desc l -> x ∈ l.
Proof.
  intros H. apply list_elem_of_In.
  apply (Permutation_in _ (Permutation_sym (sort_desc_perm l))), list_elem_of_In, H.
Qed.

(** ** Triage of entities outside the band *)

Lemma mark_out_of_band cfg entities :
  Forall (fun e => in_band cfg e = false) entities ->
  _mark_questionable_entities cfg entities = (entities, []).
Proof.
  induction entities as [| e l IH]; intros H; [reflexivity |].
  apply Forall_cons in H. destruct H as [He H].
  cbn [_mark_questionable_entities]. rewrite (IH H), He. reflexivity.
Qed.

Lemma pipeline_found_elem cfg elapsed text ml e :
  e ∈ entities_found (pipeline cfg elapsed text ml) ->
  exists e0, (e0 ∈ _detect_rule_based text \/ e0 ∈ ml) /\ e = mark_entity cfg e0.
Proof.
  rewrite pipeline_entities_found. intros He.
  apply sort_desc_elem, list_elem_of_In, in_map_iff in He.
  destruct He as (e0 & <- & He0).
  exists e0. split; [| reflexivity].
  apply list_elem_of_In, fuse_elements, elem_of_app in He0. exact He0.
Qed.

(** ** [str.find] *)

Lemma startswith_take p : forall s,
  PyStr.startswith p s = true ->
  PyStr.take (String.length p) s = p /\ (String.length p <= String.length s)%nat.
Proof.
  induction p as [| a p IH]; intros s H.
  - split; [reflexivity | cbn; lia].
  - destruct s as [| b s]; [discriminate |].
    cbn [PyStr.startswith] in H. apply andb_true_iff in H.
    destruct H as [Hab H]. apply Ascii.eqb_eq in Hab. subst b.
    destruct (IH s H) as [Ht Hl]. cbn [String.length PyStr.take].
    rewrite Ht. split; [reflexivity | lia].
Qed.

Lemma length_drop n : forall s,
  String.length (PyStr.drop n s) = (String.length s - n)%nat.
Proof.
  induction n as [| n IH]; intros s.
  - cbn. lia.
  - destruct s as [| c s]; [reflexivity |]. cbn [PyStr.drop String.length].
    rewrite IH. lia.
Qed.

Lemma string_take_drop n : forall s, PyStr.take n s +:+ PyStr.drop n s = s.
Proof.
  induction n as [| n IH]; intros s; [reflexivity |].
  destruct s as [| c s]; [reflexivity |].
  cbn [PyStr.take PyStr.drop]. rewrite append_cons, IH. reflexivity.
Qed.

Lemma find_from_spec needle : forall hay pos,
  PyStr.find_from pos hay needle <> -1 -> 0 <= pos ->
  exists k : nat,
    PyStr.find_from pos hay needle = pos + Z.of_nat k
    /\ (k <= String.length hay)%nat
    /\ PyStr.startswith needle (PyStr.drop k hay) = true
    /\ forall j : nat, (j < k)%nat ->
                       PyStr.startswith needle (PyStr.drop j hay) = false.
Proof.
  induction hay as [| c hay IH]; intros pos Hne Hpos.
  - cbn [PyStr.find_from] in *.
    destruct (PyStr.startswith needle EmptyString) eqn:E; [| contradiction].
    exists 0%nat. repeat split; [lia | lia | exact E | intros j Hj; lia].
  - cbn [PyStr.find_from] in *.
    destruct (PyStr.startswith needle (String c hay)) eqn:E.
    + exists 0%nat. repeat split; [lia | cbn; lia | exact E | intros j Hj; lia].
    + destruct (IH (pos + 1) Hne ltac:(lia)) as (k & Hk & Hlen & Hst & Hmin).
      exists (S k). repeat split.
      * rewrite Hk. lia.
      * cbn. lia.
      * exact Hst.
      * intros [| j] Hj; [exact E |]. apply Hmin. lia.
Qed.

Lemma find_spec hay needle :
  PyStr.find hay needle <> -1 ->
  0 <= PyStr.find hay needle
  /\ PyStr.find hay needle + Z.of_nat (String.length needle)
     <= Z.of_nat (String.length hay)
  /\ PyStr.slice hay (PyStr.find hay needle)
       (PyStr.find hay needle + Z.of_nat (String.length needle)) = needle
  /\ forall j : nat, Z.of_nat j < PyStr.find hay needle ->
                     PyStr.startswith needle (PyStr.drop j hay) = false.
Proof.
  unfold PyStr.find. intros Hne.
  destruct (find_from_spec needle hay 0 Hne ltac:(lia))
    as (k & Hk & Hlen & Hst & Hmin).
  rewrite Hk. destruct (startswith_take _ _ Hst) as [Ht Hl].
  rewrite length_drop in Hl.
  split; [lia |]. split; [lia |]. split.
  - unfold PyStr.slice. rewrite !bound_nonneg by lia.
    replace (Z.to_nat (0 + Z.of_nat k + Z.of_nat (String.length needle))
             - Z.to_nat (0 + Z.of_nat k))%nat
      with (String.length needle) by lia.
    replace (Z.to_nat (0 + Z.of_nat k)) with k by lia. exact Ht.
  - intros j Hj. apply Hmin. lia.
Qed.

Lemma keep_ml_entity_nonempty e : keep_ml_entity e = true -> value e <> EmptyString.
Proof.
  unfold keep_ml_entity. intros H Hv. rewrite Hv in H. discriminate.
Qed.

(** ** The token counter *)

Lemma bump_default etype token_counter t :
  default 0%nat (bump etype token_counter !! t)
  = if String.eqb etype t
    then S (default 0%nat (token_counter !! t))
    else default 0%nat (token_counter !! t).
Proof.
  unfold bump. destruct (String.eqb etype t) eqn:E.
  - apply String.eqb_eq in E. subst t.
    destruct (token_counter !! etype); rewrite lookup_insert_eq; reflexivity.
  - apply String.eqb_neq in E.
    destruct (token_counter !! etype); rewrite lookup_insert_ne by exact E;
      reflexivity.
Qed.

Lemma mask_loop_counter cfg l : forall text token_counter t,
  default 0%nat (snd (mask_loop cfg l (text, token_counter)) !! t)
  = (default 0%nat (token_counter !! t) + count_type t l)%nat.
Proof.
  unfold mask_loop, count_type.
  induction l as [| e l IH]; intros text token_counter t.
  - cbn. lia.
  - cbn [fold_left mask_step List.filter]. rewrite IH, bump_default.
    destruct (String.eqb (entity_type e) t); cbn [length]; lia.
Qed.

(** ** The token loop of the BERT path *)

Lemma bert_loop_keeps_open tail : forall i entities ce cv cs,
  Forall keeps_open tail ->
  bert_loop i tail entities ce cv cs = entities.
Proof.
  induction tail as [| [token label] tail IH]; intros i entities ce cv cs H;
    [reflexivity |].
  apply Forall_cons in H. destruct H as [[Hb Ho] H]. cbn [snd] in Hb, Ho.
  cbn [bert_loop]. rewrite Hb.
  destruct ce as [ce |]; [| apply IH, H].
  destruct (PyStr.startswith "I-" label); [apply IH, H |].
  destruct (String.eqb label "O") eqn:E; [| apply IH, H].
  apply String.eqb_eq in E. contradiction.
Qed.

Lemma bert_loop_app tail pairs : forall i entities ce cv cs,
  Forall keeps_open tail ->
  bert_loop i (pairs ++ tail) entities ce cv cs
  = bert_loop i pairs entities ce cv cs.
Proof.
  induction pairs as [| [token label] pairs IH]; intros i entities ce cv cs H.
  - cbn [app bert_loop]. apply bert_loop_keeps_open, H.
  - cbn [app bert_loop].
    destruct (PyStr.startswith "B-" label).
    + destruct (assoc label bert_label_mapping); apply IH, H.
    + destruct ce as [ce |]; [| apply IH, H].
      destruct (PyStr.startswith "I-" label); [apply IH, H |].
      destruct (String.eqb label "O"); apply IH, H.
Qed.


(** ** What [__init__] can leave loaded *)

Lemma init_shape cfg ld :
  let eng := __init__ cfg ld in
  (longtransformer_detector eng <> None /\ ml_detector eng = None
   /\ fallback_ner_model eng = None /\ base_deberta eng = false)
  \/ (longtransformer_detector eng = None /\ ml_detector eng <> None
      /\ fallback_ner_model eng = None /\ base_deberta eng = false)
  \/ (longtransformer_detector eng = None /\ ml_detector eng = None
      /\ fallback_ner_model eng <> None /\ fallback_tokenizer eng <> None
      /\ base_deberta eng = false)
  \/ (longtransformer_detector eng = None /\ ml_detector eng = None
      /\ fallback_tokenizer eng = None).
Proof.
  unfold __init__.
  destruct (load_longtransformer ld); [| left; cbn; repeat split; discriminate].
  destruct (load_custom_model ld);
    [| right; left; cbn; repeat split; discriminate].
  destruct (import_transformers ld); cbn;
    [right; right; right; repeat split |].
  destruct (load_bert_model ld); cbn;
    [destruct (load_deberta_model ld); right; right; right; repeat split |].
  destruct (load_bert_tokenizer ld); cbn.
  - destruct (load_deberta_model ld); right; right; right; repeat split.
  - right; right; left. repeat split; discriminate.
Qed.

(** ** Triage twice *)

Lemma in_band_mark cfg e : in_band cfg (mark_entity cfg e) = in_band cfg e.
Proof.
  unfold mark_entity. destruct (in_band cfg e) eqn:E; [| exact E].
  unfold in_band in *. exact E.
Qed.

Lemma mark_entity_idem cfg e :
  mark_entity cfg (mark_entity cfg e) = mark_entity cfg e.
Proof.
  unfold mark_entity at 1. rewrite in_band_mark.
  unfold mark_entity. destruct (in_band cfg e); reflexivity.
Qed.

(** ** Lengths under partial reveal *)

Lemma length_replicate n c : String.length (PyStr.replicate n c) = n.
Proof. induction n as [| n IH]; [reflexivity |]. cbn. rewrite IH. reflexivity. Qed.

Lemma length_partial_reveal v :
  (2 <= String.length v)%nat ->
  String.length (partial_reveal v) = String.length v.
Proof.
  intros H. unfold partial_reveal.
  destruct v as [| c v]; [cbn in H; lia |].
  destruct (1 <? String.length (String c v))%nat eqn:E.
  - cbn [String.length]. rewrite length_replicate. cbn [String.length]. lia.
  - apply Nat.ltb_ge in E. lia.
Qed.

Lemma length_splice masked_text e mask :
  0 <= start_pos e <= end_pos e ->
  end_pos e <= Z.of_nat (String.length masked_text) ->
  Z.of_nat (String.length (splice masked_text e mask))
  = Z.of_nat (String.length masked_text) + Z.of_nat (String.length mask)
    - (end_pos e - start_pos e).
Proof.
  intros H1 H2. unfold splice, PyStr.slice_to, PyStr.slice_from.
  rewrite !bound_nonneg by lia.
  rewrite !length_append, length_take, length_drop. lia.
Qed.

Lemma mask_loop_reveal_length cfg l : forall masked_text token_counter,
  mask_format cfg = Some "PARTIAL_REVEAL" ->
  Forall (revealable (String.length masked_text)) l ->
  String.length (fst (mask_loop cfg l (masked_text, token_counter)))
  = String.length masked_text.
Proof.
  unfold mask_loop.
  induction l as [| e l IH]; intros masked_text token_counter Hfmt Hl;
    [reflexivity |].
  apply Forall_cons in Hl. destruct Hl as [(Hns & Hft & Hlen & H0 & Hend & Hin) Hl].
  cbn [fold_left mask_step].
  assert (Hmask : mask_for cfg (bump (entity_type e) token_counter) e
                  = partial_reveal (value e)).
  { unfold mask_for.
    rewrite bool_decide_eq_false_2 by exact Hns.
    rewrite bool_decide_eq_true_2 by exact Hft.
    rewrite bool_decide_eq_true_2 by exact Hfmt. reflexivity. }
  rewrite Hmask.
  assert (Hsame : String.length (splice masked_text e (partial_reveal (value e)))
                  = String.length masked_text).
  { apply Nat2Z.inj. rewrite length_splice by lia.
    rewrite length_partial_reveal by exact Hlen. lia. }
  rewrite IH; [exact Hsame | exact Hfmt |]. rewrite Hsame. exact Hl.
Qed.

(** ** [int] on strings of digits *)



Lemma append_empty_r s : s +:+ EmptyString = s.
Proof. induction s as [| c s IH]; [reflexivity |]. rewrite append_cons, IH. reflexivity. Qed.










(** ** [str.split] on a separator *)






(** ** Reading a file in chunks *)

Lemma read_join n s chunk rest :
  FileProcessor.read n s = (chunk, rest) -> chunk +:+ rest = s.
Proof.
  unfold FileProcessor.read. destruct (n <? 0); intros H; injection H as <- <-.
  - apply append_empty_r.
  - apply string_take_drop.
Qed.

Lemma read_progress n s chunk rest :
  FileProcessor.read n s = (chunk, rest) -> chunk <> EmptyString ->
  (String.length rest < String.length s)%nat.
Proof.
  unfold FileProcessor.read. destruct (n <? 0); intros H; injection H as <- <-.
  - intros Hs. destruct s; [contradiction | cbn; lia].
  - intros Hne. rewrite length_drop.
    destruct (Z.to_nat n) as [| k]; [contradiction |].
    destruct s; [contradiction | cbn; lia].
Qed.

Lemma read_size n s chunk rest :
  0 < n -> FileProcessor.read n s = (chunk, rest) ->
  Z.of_nat (String.length chunk) <= n /\ (chunk = EmptyString -> s = EmptyString).
Proof.
  unfold FileProcessor.read. intros Hn.
  destruct (n <? 0) eqn:E; [apply Z.ltb_lt in E; lia |].
  intros H. injection H as <- <-. rewrite length_take. split; [lia |].
  destruct (Z.to_nat n) as [| k] eqn:Ek; [lia |].
  destruct s; [reflexivity | discriminate].
Qed.

Lemma read_file_chunks_fuel n fuel : forall fuel' s,
  (String.length s < fuel)%nat -> (String.length s < fuel')%nat ->
  FileProcessor.read_file_chunks_loop fuel n s
  = FileProcessor.read_file_chunks_loop fuel' n s.
Proof.
  induction fuel as [| fuel IH]; intros fuel' s H H'; [lia |].
  destruct fuel' as [| fuel']; [lia |].
  cbn [FileProcessor.read_file_chunks_loop].
  destruct (FileProcessor.read n s) as [chunk rest] eqn:E.
  destruct chunk as [| c chunk]; [reflexivity |].
  pose proof (read_progress n s _ rest E ltac:(discriminate)) as Hp.
  f_equal. apply IH; lia.
Qed.

Lemma read_file_chunks_join n fuel : forall s,
  (String.length s < fuel)%nat ->
  n <> 0 ->
  join_chunks (FileProcessor.read_file_chunks_loop fuel n s) = s.
Proof.
  induction fuel as [| fuel IH]; intros s H Hn; [lia |].
  cbn [FileProcessor.read_file_chunks_loop].
  destruct (FileProcessor.read n s) as [chunk rest] eqn:E.
  pose proof (read_join n s chunk rest E) as Hj.
  destruct chunk as [| c chunk].
  - cbn. unfold FileProcessor.read in E.
    destruct (n <? 0) eqn:En; injection E as E1 E2; [congruence |].
    apply Z.ltb_ge in En.
    destruct (Z.to_nat n) as [| k] eqn:Ek; [lia |].
    destruct s; [reflexivity | discriminate].
  - pose proof (read_progress n s _ rest E ltac:(discriminate)) as Hp.
    cbn [join_chunks fold_right]. fold (join_chunks
      (FileProcessor.read_file_chunks_loop fuel n rest)).
    rewrite IH by lia. exact Hj.
Qed.

Lemma read_file_chunks_sizes n fuel : forall s,
  0 < n ->
  Forall (fun chunk => chunk <> EmptyString /\ Z.of_nat (String.length chunk) <= n)
    (FileProcessor.read_file_chunks_loop fuel n s).
Proof.
  induction fuel as [| fuel IH]; intros s Hn; [apply Forall_nil_2 |].
  cbn [FileProcessor.read_file_chunks_loop].
  destruct (FileProcessor.read n s) as [chunk rest] eqn:E.
  destruct (read_size n s chunk rest Hn E) as [Hsize _].
  destruct chunk as [| c chunk]; [apply Forall_nil_2 |].
  apply Forall_cons. split; [split; [discriminate | exact Hsize] |].
  apply IH, Hn.
Qed.

(** ** The streaming loop *)

Lemma detect_pii_detected eng elapsed text :
  detect_pii eng elapsed text = Return (detected eng elapsed text).
Proof. apply detect_pii_pipeline, detect_ml_first_returned. Qed.

Lemma streaming_loop_spec eng tick chunks : forall all_entities masked,
  FileProcessor.streaming_loop eng tick chunks all_entities masked
  = Return
      (masked +:+ join_chunks
                    (map (fun chunk => masked_content (detected eng tick chunk))
                       chunks),
       all_entities
       ++ flat_map (fun chunk => entities_found (detected eng tick chunk)) chunks).
Proof.
  induction chunks as [| chunk chunks IH]; intros all_entities masked.
  - cbn. rewrite append_empty_r, app_nil_r. reflexivity.
  - cbn [FileProcessor.streaming_loop]. rewrite detect_pii_detected.
    cbn [bind]. unfold detected at 1 2, pipeline. rewrite IH.
    cbn [map join_chunks fold_right flat_map].
    rewrite append_assoc, <- app_assoc. reflexivity.
Qed.

Lemma detected_in_bounds eng elapsed text :
  models_in_bounds eng ->
  Forall (in_bounds text) (entities_found (detected eng elapsed text)).
Proof. intros H. apply pipeline_in_bounds, H. Qed.

Lemma take_all n : forall s,
  (String.length s <= n)%nat -> PyStr.take n s = s.
Proof.
  induction n as [| n IH]; intros s H.
  - destruct s; [reflexivity | cbn in H; lia].
  - destruct s as [| c s]; [reflexivity |]. cbn [PyStr.take].
    rewrite IH; [reflexivity | cbn in H; lia].
Qed.

Lemma drop_all n : forall s,
  (String.length s <= n)%nat -> PyStr.drop n s = EmptyString.
Proof.
  induction n as [| n IH]; intros s H.
  - destruct s; [reflexivity | cbn in H; lia].
  - destruct s as [| c s]; [reflexivity |]. cbn [PyStr.drop].
    apply IH. cbn in H. lia.
Qed.

Lemma read_file_chunks_empty fuel n :
  FileProcessor.read_file_chunks_loop fuel n EmptyString = [].
Proof.
  destruct fuel; [reflexivity |]. cbn [FileProcessor.read_file_chunks_loop].
  unfold FileProcessor.read. destruct (n <? 0); [reflexivity |].
  destruct (Z.to_nat n); reflexivity.
Qed.

Lemma read_file_chunks_one cfg content n :
  content <> EmptyString -> Z.of_nat (String.length content) <= n ->
  FileProcessor._read_file_chunks cfg content (Some n) = [content].
Proof.
  intros Hne Hlen. unfold FileProcessor._read_file_chunks.
  cbn [FileProcessor.read_file_chunks_loop]. unfold FileProcessor.read.
  destruct (n <? 0) eqn:E; [apply Z.ltb_lt in E; lia |].
  rewrite take_all, drop_all by lia.
  destruct content as [| c content]; [contradiction |].
  f_equal. apply read_file_chunks_empty.
Qed.

Lemma rule_only_in_bounds cfg : models_in_bounds (no_backend cfg).
Proof. intros text. apply Forall_nil_2. Qed.

(** ** Batches of the buffered strategy *)

Lemma fold_left_flat_map (A B C : Type) (f : A -> B -> A) (g : C -> list B)
    (l : list C) : forall acc,
  fold_left (fun acc i => fold_left f (g i) acc) l acc
  = fold_left f (flat_map g l) acc.
Proof.
  induction l as [| i l IH]; intros acc; [reflexivity |].
  cbn [fold_left flat_map]. rewrite fold_left_app. apply IH.
Qed.

Lemma flat_map_map (A B C : Type) (g : B -> list C) (h : A -> B) (l : list A) :
  flat_map g (map h l) = flat_map (fun x => g (h x)) l.
Proof.
  induction l as [| x l IH]; [reflexivity |]. cbn. rewrite IH. reflexivity.
Qed.

Lemma flat_map_ext_in (A B : Type) (f g : A -> list B) (l : list A) :
  (forall x, In x l -> f x = g x) -> flat_map f l = flat_map g l.
Proof.
  induction l as [| x l IH]; intros H; [reflexivity |]. cbn.
  rewrite (H x) by (left; reflexivity).
  rewrite IH; [reflexivity |]. intros y Hy. apply H. right. exact Hy.
Qed.

Lemma batches_cover (b : nat) (m : nat) : forall l : list string,
  (0 < b)%nat -> (length l <= m * b)%nat ->
  flat_map (fun k => take b (drop (k * b) l)) (seq 0 m) = l.
Proof.
  induction m as [| m IH]; intros l Hb Hlen.
  - destruct l; [reflexivity | cbn in Hlen; lia].
  - cbn [seq flat_map]. rewrite <- seq_shift, flat_map_map.
    rewrite (flat_map_ext_in _ _ _ (fun k => take b (drop (k * b) (drop b l)))).
    + rewrite (IH (drop b l) Hb).
      * cbn [Nat.mul drop]. apply take_drop.
      * rewrite List.length_skipn. lia.
    + intros k _. rewrite drop_drop. reflexivity.
Qed.

Lemma buffered_batches (b : Z) (l : list string) :
  0 < b ->
  flat_map (fun i => PerformanceOptimizer.list_slice l i (i + b))
    (map (fun k : nat => Z.of_nat k * b)
       (seq 0 (Z.to_nat ((Z.of_nat (length l) + b - 1) / b))))
  = l.
Proof.
  intros Hb. rewrite flat_map_map. unfold PerformanceOptimizer.list_slice.
  rewrite (flat_map_ext_in _ _ _
             (fun k => take (Z.to_nat b) (drop (k * Z.to_nat b) l))).
  - apply batches_cover; [lia |].
    pose proof (Z.div_mod (Z.of_nat (length l) + b - 1) b ltac:(lia)) as Hdm.
    pose proof (Z.mod_pos_bound (Z.of_nat (length l) + b - 1) b Hb) as Hmod.
    assert (0 <= (Z.of_nat (length l) + b - 1) / b)
      by (apply Z.div_pos; lia).
    nia.
  - intros k _. f_equal; [lia |]. f_equal. nia.
Qed.

Lemma process_one_results (State Result : Type)
    (processor_func : State -> string -> State * exc Result)
    (error_dict : string -> string -> Result) (l : list string) :
  forall st results file_count,
    let '(_, results', file_count') :=
      fold_left (PerformanceOptimizer.process_one processor_func error_dict) l
        (st, results, file_count) in
    length results' = (length results + length l)%nat
    /\ file_count <= file_count' <= file_count + Z.of_nat (length l).
Proof.
  induction l as [| p l IH]; intros st results file_count.
  - cbn. lia.
  - cbn [fold_left PerformanceOptimizer.process_one].
    destruct (processor_func st p) as [st' [e | r]].
    + specialize (IH st' (results ++ [error_dict e p]) file_count).
      destruct (fold_left _ l _) as [[st'' results''] count''].
      rewrite length_app in IH. cbn [length] in *. lia.
    + specialize (IH st' (results ++ [r]) (file_count + 1)).
      destruct (fold_left _ l _) as [[st'' results''] count''].
      rewrite length_app in IH. cbn [length] in *. lia.
Qed.

(** ** Outcomes of [process_file] *)


(** ** One file through the command line interface *)






(** ** A batch through the command line interface *)





(** ** The exit code *)








(** ** Counting in a dict *)

Lemma count_fold (key : PIIEntity -> string) l : forall (m : gmap string Z) t,
  fold_left (fun m e => <[key e := default 0 (m !! key e) + 1]> m) l m !! t
  = match length (List.filter (fun e => String.eqb (key e) t) l) with
    | O => m !! t
    | S k => Some (default 0 (m !! t) + Z.of_nat (S k))
    end.
Proof.
  induction l as [| e l IH]; intros m t; [reflexivity |].
  cbn [fold_left List.filter]. rewrite IH.
  destruct (String.eqb (key e) t) eqn:E.
  - apply String.eqb_eq in E. subst t. cbn [length].
    rewrite lookup_insert_eq. cbn [default from_option id].
    destruct (length (List.filter _ l)) as [| k]; f_equal; lia.
  - apply String.eqb_neq in E. rewrite lookup_insert_ne by exact E.
    reflexivity.
Qed.

Lemma bucket_is_a_key conf : In (ReportGenerator.bucket conf) bucket_keys.
Proof.
  unfold ReportGenerator.bucket, bucket_keys.
  repeat match goal with
         | |- context [Qlt_le_dec ?a ?b] => destruct (Qlt_le_dec a b)
         end; cbn; tauto.
Qed.

Lemma buckets_partition l :
  count_bucket "0.0-0.2" l + count_bucket "0.2-0.4" l
  + count_bucket "0.4-0.6" l + count_bucket "0.6-0.8" l
  + count_bucket "0.8-1.0" l
  = Z.of_nat (length l).
Proof.
  unfold count_bucket. induction l as [| e l IH]; [reflexivity |].
  cbn [List.filter].
  pose proof (bucket_is_a_key (confidence e)) as Hk. cbn in Hk.
  destruct Hk as [<- | [<- | [<- | [<- | [<- | []]]]]];
    cbn [String.eqb Ascii.eqb Bool.eqb andb length]; lia.
Qed.

(* ===================================================================== *)
(** * The claims *)
(* ===================================================================== *)

(** ** C1: the no-overlap invariant

    C1: every [detect_pii] call returns, and no two distinct entities of
    its [entities_found] have overlapping half-open ranges. *)
Theorem entities_found_no_overlap :
  forall eng elapsed text,
  exists r,
    detect_pii eng elapsed text = Return r
    /\ forall i j a b,
         i <> j ->
         entities_found r !! i = Some a ->
         entities_found r !! j = Some b ->
         start_pos a >= end_pos b \/ start_pos b >= end_pos a.
Proof.
  intros eng elapsed text.
  destruct (detect_pii_returns eng elapsed text) as (ml & _ & Hr).
  eexists. split; [exact Hr |].
  apply pairwise_disjoint_lookup, pipeline_disjoint.
Qed.

(** On the scenario, the SSN and the telephone number found first and
    second do not overlap. *)
Lemma entities_found_no_overlap_witness :
  exists r ssn phone,
    detect_pii rule_only_engine 0 scenario_text = Return r
    /\ entities_found r !! 0%nat = Some ssn
    /\ entities_found r !! 1%nat = Some phone
    /\ (start_pos ssn >= end_pos phone \/ start_pos phone >= end_pos ssn).
Proof.
  destruct (entities_found_no_overlap rule_only_engine 0%Q scenario_text)
    as (r & Hr & H).
  vm_compute in Hr. injection Hr as <-.
  eexists. eexists. eexists. split; [vm_compute; reflexivity |].
  split; [reflexivity |]. split; [reflexivity |].
  apply (H 0%nat 1%nat); [lia | reflexivity | reflexivity].
Defined.

(** ** C2: masking completeness

    C2 (as amended): when the entities of [entities_found] have non-empty
    spans inside the text, which is so whenever the model entities do,
    and always in rule-only operation, [masked_content] is, for each
    entity [e], the masked rendering of the text before the span, then
    the replacement of [e], then the rendering of the text after the
    span; and that replacement does not contain [e.value] whenever the
    value has a character that the replacement cannot have: for a token
    [TYPE_###] any character other than a digit, a bracket, the
    underscore and the characters of the upper-cased type, for a
    partial-reveal mask any character other than the star and the first
    character of the value. *)
Theorem masked_span_holds_mask :
  forall eng elapsed text,
  exists r,
    detect_pii eng elapsed text = Return r
    /\ (forall ml_entities,
          _detect_ml eng text = Return ml_entities ->
          Forall (in_bounds text) ml_entities ->
          Forall (in_bounds text) (entities_found r))
    /\ forall before e after,
         entities_found r = before ++ e :: after ->
         Forall (in_bounds text) (entities_found r) ->
         let cfg := config eng in
         let mask := replacement cfg text before e in
         masked_content r
         = fst (mask_loop cfg after
                  (PyStr.slice_to text (start_pos e), counter_at cfg text before e))
           +:+ mask
           +:+ PyStr.slice_from (fst (mask_loop cfg before (text, ∅))) (end_pos e)
         /\ (escapes_mask cfg e = true -> PyStr.contains mask (value e) = false).
Proof.
  intros eng elapsed text.
  destruct (detect_pii_returns eng elapsed text) as (ml & Hml & Hr).
  eexists. split; [exact Hr |]. split.
  { intros ml_entities Hml' Hb. rewrite Hml in Hml'. injection Hml' as <-.
    apply pipeline_in_bounds, Hb. }
  intros before e after Hsplit Hbounds cfg mask. split.
  - rewrite pipeline_masked_loop.
    pose proof (pipeline_sorted (config eng) elapsed text ml) as Hs.
    pose proof (pipeline_disjoint (config eng) elapsed text ml) as Hd.
    rewrite Hsplit in *. apply mask_loop_region; assumption.
  - apply escapes_not_contained.
Qed.

(** On the scenario, the telephone number sits between the rendering of
    what precedes it and of what follows it, and its token does not hold
    the number. *)
Lemma masked_span_holds_mask_witness :
  exists r phone,
    detect_pii rule_only_engine 0 scenario_text = Return r
    /\ entities_found r !! 1%nat = Some phone
    /\ value phone = "555) 123-4567"
    /\ masked_content r
       = "Contact John Smith at [EMAIL_001] or ("
         +:+ "[PHONE_001]" +:+ ", SSN [SSN_001]."
    /\ PyStr.contains "[PHONE_001]" (value phone) = false.
Proof.
  destruct (masked_span_holds_mask rule_only_engine 0%Q scenario_text)
    as (r & Hr & Hin & H).
  specialize (Hin [] eq_refl (Forall_nil_2 _)).
  vm_compute in Hr. injection Hr as <-.
  eexists. eexists. split; [vm_compute; reflexivity |].
  split; [reflexivity |]. split; [reflexivity |].
  cbn [entities_found masked_content] in H.
  match goal with
  | H : forall before e after, ?l = _ -> _ |- _ =>
      match l with
      | [?ssn; ?phone; ?email] =>
          destruct (H [ssn] phone [email] eq_refl) as [Hshape Hfree]
      end
  end.
  - exact Hin.
  - split; [rewrite Hshape; vm_compute; reflexivity |].
    apply Hfree. vm_compute. reflexivity.
Defined.

(** C2 as stated fails when the DeBERTa fallback is the loaded backend:
    the word NAME is reported as a POTENTIAL_NAME, and its value occurs in
    the very token that replaces it. *)
Lemma value_survives_in_its_token :
  let eng := __init__ None deberta_only in
  exists r e,
    detect_pii eng 0 "my NAME" = Return r
    /\ entities_found r = [e]
    /\ value e = "NAME"
    /\ (start_pos e, end_pos e) = (3, 7)
    /\ replacement (config eng) "my NAME" [] e = "[POTENTIAL_NAME_001]"
    /\ masked_content r = "my " +:+ "[POTENTIAL_NAME_001]"
    /\ PyStr.contains (replacement (config eng) "my NAME" [] e) (value e) = true.
Proof.
  cbv zeta. eexists. eexists. split; [vm_compute; reflexivity |].
  repeat split; vm_compute; reflexivity.
Qed.

(** ** C3: the order of [entities_found]

    C3 (as amended): the [entities_found] list that [detect_pii] hands to
    its callers is sorted descending by [start_pos]: it is the very list
    that the masking step sorted in place. *)
Theorem entities_found_descending :
  forall eng elapsed text,
  exists r,
    detect_pii eng elapsed text = Return r
    /\ forall i j a b,
         (i < j)%nat ->
         entities_found r !! i = Some a ->
         entities_found r !! j = Some b ->
         start_pos b <= start_pos a.
Proof.
  intros eng elapsed text.
  destruct (detect_pii_returns eng elapsed text) as (ml & _ & Hr).
  eexists. split; [exact Hr |].
  apply sorted_desc_lookup. rewrite pipeline_entities_found.
  apply sort_desc_sorted.
Qed.

(** On the scenario, the SSN at the head starts after the e-mail address
    at the tail. *)
Lemma entities_found_descending_witness :
  exists r ssn email,
    detect_pii rule_only_engine 0 scenario_text = Return r
    /\ entities_found r !! 0%nat = Some ssn
    /\ entities_found r !! 2%nat = Some email
    /\ start_pos email <= start_pos ssn.
Proof.
  destruct (entities_found_descending rule_only_engine 0%Q scenario_text)
    as (r & Hr & H).
  vm_compute in Hr. injection Hr as <-.
  eexists. eexists. eexists. split; [vm_compute; reflexivity |].
  split; [reflexivity |]. split; [reflexivity |].
  apply (H 0%nat 2%nat); [lia | reflexivity | reflexivity].
Defined.

(** C3 as stated fails on the end-to-end scenario: the SSN at 66 comes
    first and the e-mail address at 22 last. *)
Lemma entities_found_not_ascending :
  exists r,
    detect_pii rule_only_engine 0 scenario_text = Return r
    /\ map start_pos (entities_found r) = [66; 47; 22]
    /\ ~ (forall i j a b,
            (i < j)%nat ->
            entities_found r !! i = Some a ->
            entities_found r !! j = Some b ->
            start_pos a <= start_pos b).
Proof.
  eexists. split; [vm_compute; reflexivity |].
  split; [reflexivity |].
  intros H. specialize (H 0%nat 1%nat _ _ ltac:(lia) eq_refl eq_refl).
  vm_compute in H. apply H. reflexivity.
Qed.

(** ** C4: the fusion step

    C4: [_fuse_and_resolve_entities] runs the specified resolution
    ([resolve_spec]: append when nothing overlaps, otherwise contend with
    the first overlapping resolved entity only, where a rule-based
    candidate replaces a model entity, replaces a rule-based entity only
    with strictly higher confidence, and any other candidate is dropped)
    over the concatenated candidates in stable ascending order of
    [start_pos]. *)
Theorem fuse_follows_spec :
  forall rule_entities ml_entities,
  exists candidates,
    stable_ascending (rule_entities ++ ml_entities) candidates
    /\ _fuse_and_resolve_entities rule_entities ml_entities
       = fuse_spec candidates.
Proof.
  intros rule_entities ml_entities.
  exists (sort_asc (rule_entities ++ ml_entities)). split.
  - split; [apply sort_asc_perm |].
    split; [apply sort_asc_sorted | intros k; apply sort_asc_stable].
  - unfold _fuse_and_resolve_entities, fuse_spec.
    destruct (rule_entities ++ ml_entities) as [| x l]; [reflexivity |].
    apply fuse_fold_spec.
Qed.

(** ** C5: structured entities are always fully masked

    C5: whatever the configuration, the masking loop replaces an entity
    of a structured type (EMAIL, CREDIT_CARD, PHONE, IP_ADDRESS, SSN,
    NATIONAL_ID, BANK_ACCT, IP) by the full token [TYPE_###] with the
    running number of its type; a text whose entities are all structured
    is masked the same under every [mask_format]; and under
    PARTIAL_REVEAL an e-mail address still becomes [EMAIL_001]. *)
Theorem structured_entities_fully_masked :
  forall cfg masked_text token_counter entity,
    entity_type entity ∈ structured_entities ->
    let n := next_number (entity_type entity) token_counter in
    mask_step cfg (masked_text, token_counter) entity
    = (PyStr.slice_to masked_text (start_pos entity)
       +:+ ("[" +:+ entity_type entity +:+ "_" +:+ PyStr.format_03d n +:+ "]")
       +:+ PyStr.slice_from masked_text (end_pos entity),
       <[entity_type entity := n]> token_counter)
    /\ (forall cfg' text entities,
          Forall (fun e => entity_type e ∈ structured_entities) entities ->
          _mask_text cfg text entities = _mask_text cfg' text entities)
    /\ (forall etype,
          etype ∈ structured_entities <->
          In etype ["EMAIL"; "CREDIT_CARD"; "PHONE"; "IP_ADDRESS"; "SSN";
                    "NATIONAL_ID"; "BANK_ACCT"; "IP"])
    /\ snd (_mask_text partial_reveal_config "Write to jo@example.org today"
              [email_entity "jo@example.org" 9])
       = "Write to [EMAIL_001] today".
Proof.
  intros cfg masked_text token_counter entity H n. split; [| split; [| split]].
  - unfold mask_step, splice.
    rewrite mask_for_structured, bump_lookup, bump_spec by exact H.
    unfold token. rewrite structured_upper by exact H. reflexivity.
  - intros cfg' text entities Hall. destruct entities as [| e entities]; [reflexivity |].
    unfold _mask_text. f_equal. f_equal.
    apply mask_loop_structured.
    eapply Permutation_Forall; [apply sort_desc_perm | exact Hall].
  - apply structured_names.
  - vm_compute. reflexivity.
Qed.

(** One turn of the loop on an e-mail address under PARTIAL_REVEAL. *)
Lemma structured_entities_fully_masked_witness :
  mask_step partial_reveal_config ("Write to jo@example.org today", ∅)
    (email_entity "jo@example.org" 9)
  = ("Write to [EMAIL_001] today", {[ "EMAIL" := 1%nat ]}).
Proof.
  destruct (structured_entities_fully_masked partial_reveal_config
              "Write to jo@example.org today" ∅
              (email_entity "jo@example.org" 9)) as [H _].
  - apply structured_names. cbn. tauto.
  - rewrite H. vm_compute. reflexivity.
Defined.

(** ** C6: the credit card validator

    C6 (as amended): [_luhn_check] implements the Luhn checksum over the
    decimal digits of its input and ignores every other character, not
    only separators: it returns true exactly when the input holds 13 to 19
    digits whose Luhn total is a multiple of ten.  It accepts
    4111111111111111 and rejects 4111111111111112, and it also rejects
    5555444433332222, whose Luhn total is 66. *)
Theorem luhn_check_digits_only :
  (forall number,
      _luhn_check number = true <->
      (13 <= length (digits_of number) <= 19)%nat
      /\ luhn_valid (digits_of number))
  /\ _luhn_check "4111111111111111" = true
  /\ _luhn_check "4111111111111112" = false
  /\ _luhn_check "5555444433332222" = false.
Proof.
  split; [| repeat split; vm_compute; reflexivity].
  intros number. unfold _luhn_check, luhn_valid.
  rewrite <- luhn_loop_total by apply digits_of_values.
  destruct (Nat.ltb_spec (length (digits_of number)) 13) as [Hlo | Hlo];
    destruct (Nat.ltb_spec 19 (length (digits_of number))) as [Hhi | Hhi];
    cbn [orb];
    try (split; [discriminate | intros [? _]; lia]).
  rewrite Z.eqb_eq. split; [intros H; split; [lia | exact H] | intros [_ H]; exact H].
Qed.

(** C6 as stated fails twice: 5555444433332222 does not validate, and a
    letter left among the digits after the separators are stripped is
    dropped instead of causing a rejection. *)
Lemma luhn_check_claim_fails :
  _luhn_check "5555444433332222" = false
  /\ luhn_total (digits_of "5555444433332222") = 66
  /\ _luhn_check "4111x111111111111" = true.
Proof. repeat split; vm_compute; reflexivity. Qed.

(** ** C7: the end-to-end scenario

    C7 fails in the code at the telephone number: the PHONE pattern opens
    with a word boundary, which cannot hold before a parenthesis that
    follows a space, so the match starts after the parenthesis and the
    parenthesis stays in the output.  The three entities, their types and
    the empty residual list are as C7 says. *)
Theorem scenario_keeps_open_paren :
  exists r,
    detect_pii rule_only_engine 0 scenario_text = Return r
    /\ map entity_type (entities_found r) = ["SSN"; "PHONE"; "EMAIL"]
    /\ map value (entities_found r)
       = ["123-45-6789"; "555) 123-4567"; "john.smith@email.com"]
    /\ masked_content r
       = "Contact John Smith at [EMAIL_001] or ([PHONE_001], SSN [SSN_001]."
    /\ masked_content r
       <> "Contact John Smith at [EMAIL_001] or [PHONE_001], SSN [SSN_001]."
    /\ residual_entities r = []
    /\ Re.finditer true PHONE_re "(555) 123-4567" = [(1%nat, 14%nat)]
    /\ Re.finditer true PHONE_re "x(555) 123-4567" = [(1%nat, 15%nat)].
Proof.
  eexists. split; [vm_compute; reflexivity |].
  repeat split; try reflexivity.
  vm_compute. discriminate.
Qed.

(** ** C8: confidence triage

    C8: triage returns exactly the resolved entities whose confidence lies
    in [min_confidence, questionable_upper_bound] (0.35 and 0.65 by
    default), each with status questionable; every returned entity is in
    [entities_found]; and triage removes nothing: [entities_found] is the
    resolved list up to order and status, and [masked_content] is what
    masking the resolved list itself gives. *)
Theorem triage_labels_only :
  (forall cfg e,
      in_band cfg e = true <->
      (min_confidence cfg <= confidence e)%Q
      /\ (confidence e <= snd (questionable_band cfg))%Q)
  /\ (min_confidence default_config == 0.35)%Q
  /\ (snd (questionable_band default_config) == 0.65)%Q
  /\ forall eng elapsed text,
     exists ml r,
       _detect_ml eng text = Return ml
       /\ detect_pii eng elapsed text = Return r
       /\ let cfg := config eng in
          let resolved :=
            _fuse_and_resolve_entities (_detect_rule_based text) ml in
          questionable_entities r
          = map (set_status "questionable") (List.filter (in_band cfg) resolved)
          /\ (forall q, q ∈ questionable_entities r ->
                        q ∈ entities_found r /\ status q = "questionable")
          /\ Permutation (map (mark_entity cfg) resolved) (entities_found r)
          /\ (forall e, same_but_status (mark_entity cfg e) e)
          /\ masked_content r = snd (_mask_text cfg text resolved).
Proof.
  split; [apply in_band_iff |].
  split; [reflexivity |]. split; [reflexivity |].
  intros eng elapsed text.
  destruct (detect_pii_returns eng elapsed text) as (ml & Hml & Hr).
  exists ml. eexists. split; [exact Hml |]. split; [exact Hr |].
  cbv zeta. split; [apply mark_snd |].
  split; [| split; [| split]].
  - intros q Hq. split.
    + rewrite pipeline_entities_found.
      rewrite <- (sort_desc_perm _). apply questionable_in_marked, Hq.
    + unfold pipeline in Hq. cbn [questionable_entities] in Hq.
      rewrite mark_snd in Hq. apply list_elem_of_fmap in Hq.
      destruct Hq as (e & -> & _). reflexivity.
  - rewrite pipeline_entities_found. apply sort_desc_perm.
  - apply mark_entity_same.
  - apply pipeline_masked_content.
Qed.

(** With a band up to 0.9, the name reported by the custom model at
    confidence 0.8 is returned as questionable and is in [entities_found]. *)
Lemma triage_labels_only_witness :
  exists r q,
    detect_pii review_engine 0 scenario_text = Return r
    /\ questionable_entities r = [q]
    /\ value q = "John Smith"
    /\ q ∈ entities_found r
    /\ status q = "questionable".
Proof.
  destruct triage_labels_only as (_ & _ & _ & H).
  destruct (H review_engine 0%Q scenario_text)
    as (ml & r & _ & Hr & _ & Hin & _).
  vm_compute in Hr. injection Hr as <-.
  eexists. eexists. split; [vm_compute; reflexivity |].
  split; [reflexivity |]. split; [reflexivity |].
  apply Hin. cbn [questionable_entities]. apply list_elem_of_here.
Defined.

(** ** C9: exceptions

    C9 (as amended): an exception raised by a model backend during a
    [detect_pii] call is caught and never reaches the caller; detection
    goes on with the next loaded backend of the chain (LongTransformer,
    custom model, BERT NER, DeBERTa heuristic), so the model detector
    contributes the entities of the first loaded backend that returns,
    and zero entities, the call giving the rule-only result, when every
    loaded backend raises; an exception raised by the pattern detector,
    by fusion or by masking reaches the caller. *)
Theorem model_exceptions_are_caught :
  (forall eng elapsed text,
      _detect_ml eng text = Return (first_returned (attempts eng text))
      /\ exists r, detect_pii eng elapsed text = Return r)
  /\ (forall eng elapsed text,
        Forall raises (attempts eng text) ->
        _detect_ml eng text = Return []
        /\ detect_pii eng elapsed text
           = detect_pii (no_backend (config eng)) elapsed text)
  /\ (forall detect_rule_based detect_ml fuse mark mask validate elapsed text e,
        let run := detect_pii_with detect_rule_based detect_ml fuse mark mask
                     validate elapsed text in
        (detect_rule_based text = Raise e -> run = Raise e)
        /\ (forall rule_entities ml_entities,
              detect_rule_based text = Return rule_entities ->
              detect_ml text = Return ml_entities ->
              (fuse rule_entities ml_entities = Raise e -> run = Raise e)
              /\ forall resolved marked questionable,
                   fuse rule_entities ml_entities = Return resolved ->
                   mark resolved = Return (marked, questionable) ->
                   mask text marked = Raise e -> run = Raise e)).
Proof.
  split; [| split].
  - intros eng elapsed text. split; [apply detect_ml_first_returned |].
    destruct (detect_pii_returns eng elapsed text) as (ml & _ & Hr).
    eexists. exact Hr.
  - intros eng elapsed text Hfail.
    assert (Hml : _detect_ml eng text = Return []).
    { rewrite detect_ml_first_returned, first_returned_all_raise by exact Hfail.
      reflexivity. }
    split; [exact Hml |].
    rewrite (detect_pii_pipeline eng elapsed text [] Hml).
    symmetry. apply (detect_pii_pipeline (no_backend (config eng))).
    reflexivity.
  - intros detect_rule_based detect_ml fuse mark mask validate elapsed text e run.
    subst run. unfold detect_pii_with. split.
    + intros ->. reflexivity.
    + intros rule_entities ml_entities -> ->. cbn [bind]. split.
      * intros ->. reflexivity.
      * intros resolved marked questionable Hfuse Hmark Hmask.
        rewrite Hfuse. cbn [bind]. rewrite Hmark. cbn [bind].
        rewrite Hmask. reflexivity.
Qed.

(** A LongTransformer backend that raises leaves the rule-only result, and
    a pattern detector that raises makes the call raise. *)
Lemma model_exceptions_are_caught_witness :
  _detect_ml failing_engine scenario_text = Return []
  /\ detect_pii failing_engine 0 scenario_text
     = detect_pii rule_only_engine 0 scenario_text
  /\ detect_pii_with (fun _ => Raise "TypeError") (_detect_ml rule_only_engine)
       (fun r m => Return (_fuse_and_resolve_entities r m))
       (fun es => Return (_mark_questionable_entities default_config es))
       (fun t es => Return (_mask_text default_config t es))
       (fun t => Return (_validate_residual_pii t)) 0 scenario_text
     = Raise "TypeError".
Proof.
  destruct model_exceptions_are_caught as (_ & Hzero & Hprop).
  split; [| split].
  - apply (Hzero failing_engine 0%Q scenario_text).
    repeat constructor. exists "RuntimeError". reflexivity.
  - apply (Hzero failing_engine 0%Q scenario_text).
    repeat constructor. exists "RuntimeError". reflexivity.
  - apply Hprop. reflexivity.
Defined.

(** C9 as stated fails for an engine that [__init__] can build: the BERT
    model is kept although its tokenizer failed to load, its inference
    raises and is caught, and the DeBERTa heuristic that was loaded next
    then supplies model entities. *)
Lemma raising_backend_not_zero_entities :
  let eng := __init__ None half_loaded_bert in
  (exists model,
      fallback_ner_model eng = Some model
      /\ _detect_with_bert_ner eng model "Ask Alice" = Raise "AttributeError")
  /\ (exists a b, _detect_ml eng "Ask Alice" = Return [a; b]
                  /\ value a = "Ask" /\ value b = "Alice"
                  /\ detection_method a = "base_deberta_heuristic")
  /\ _detect_ml eng "Ask Alice" <> Return []
  /\ (exists r r0,
        detect_pii eng 0 "Ask Alice" = Return r
        /\ detect_pii (no_backend (config eng)) 0 "Ask Alice" = Return r0
        /\ length (entities_found r) = 2%nat
        /\ entities_found r0 = []
        /\ masked_content r = "[POTENTIAL_NAME_002] [POTENTIAL_NAME_001]"
        /\ masked_content r0 = "Ask Alice").
Proof.
  cbv zeta. split; [| split; [| split]].
  - eexists. split; reflexivity.
  - eexists. eexists. split; [vm_compute; reflexivity |].
    repeat split; reflexivity.
  - vm_compute. discriminate.
  - eexists. eexists. split; [vm_compute; reflexivity |].
    split; [vm_compute; reflexivity |]. repeat split; reflexivity.
Qed.

(** ** C10: the raw input is kept

    C10: every result of [detect_pii] carries the input text unchanged in
    [original_text], next to [masked_content]; the value of every finding
    of the pattern detector can be read off it at the finding's span. *)
Theorem original_text_is_input :
  forall eng elapsed text,
  exists r,
    detect_pii eng elapsed text = Return r
    /\ original_text r = text
    /\ forall x,
         x ∈ _detect_rule_based text ->
         PyStr.slice (original_text r) (start_pos x) (end_pos x) = value x.
Proof.
  intros eng elapsed text.
  destruct (detect_pii_returns eng elapsed text) as (ml & _ & Hr).
  eexists. split; [exact Hr |]. split; [reflexivity |].
  intros x Hx. symmetry. apply detect_rule_based_value, Hx.
Qed.

(** On the scenario, the e-mail address is still in [original_text]. *)
Lemma original_text_is_input_witness :
  exists r,
    detect_pii rule_only_engine 0 scenario_text = Return r
    /\ PyStr.slice (original_text r) 22 42 = "john.smith@email.com".
Proof.
  destruct (original_text_is_input rule_only_engine 0%Q scenario_text)
    as (r & Hr & _ & H).
  exists r. split; [exact Hr |].
  apply (H (email_entity "john.smith@email.com" 22)).
  vm_compute. apply list_elem_of_here.
Defined.

(* ===================================================================== *)
(** * Further properties of the code *)
(* ===================================================================== *)

(** ** X1: what the pattern detector reports *)

(** X1: every finding of [_detect_rule_based] is typed by a pattern of the
    table, has confidence 1, method rule_based and status auto_masked, a
    non-empty span inside the text whose characters are its value, and
    passes the validator registered for its type (Luhn for CREDIT_CARD,
    the octet check for IP_ADDRESS, the group check for SSN). *)
Theorem pattern_findings_are_well_formed :
  forall text x,
    x ∈ _detect_rule_based text ->
    In (entity_type x) (map fst patterns)
    /\ confidence x = 1%Q
    /\ detection_method x = "rule_based"
    /\ status x = "auto_masked"
    /\ 0 <= start_pos x < end_pos x
    /\ end_pos x <= Z.of_nat (String.length text)
    /\ value x = PyStr.slice text (start_pos x) (end_pos x)
    /\ passes_validator x.
Proof.
  intros text x Hx.
  destruct (detect_rule_based_entry text x Hx) as (entry & Hentry & Hm).
  destruct (matches_of_tags _ _ _ _ _ Hm) as (Ht & Hc & Hd & Hs & Hv).
  pose proof (detect_rule_based_in_bounds text) as Hb.
  rewrite Forall_forall in Hb. destruct (Hb x Hx) as [Hspan Hend].
  split; [rewrite Ht; apply in_map, Hentry |].
  repeat split; try assumption; try lia.
  apply detect_rule_based_value, Hx.
Qed.

(** On a text with a card number, the finding is a CREDIT_CARD that
    passes the Luhn check. *)
Lemma pattern_findings_are_well_formed_witness :
  exists x,
    _detect_rule_based "card 4111-1111-1111-1111" = [x]
    /\ entity_type x = "CREDIT_CARD"
    /\ _luhn_check (value x) = true
    /\ (start_pos x, end_pos x) = (5, 24).
Proof.
  eexists. split; [vm_compute; reflexivity |].
  match goal with
  | |- context [entity_type ?x] =>
      destruct (pattern_findings_are_well_formed "card 4111-1111-1111-1111" x)
        as (_ & _ & _ & _ & _ & _ & _ & Hv)
  end.
  - vm_compute. apply list_elem_of_here.
  - split; [reflexivity |]. split; [exact Hv | reflexivity].
Defined.

(** ** X2: the residual validator is the pattern detector *)

(** X2: on every text the residual validator reports exactly the findings
    of the pattern detector, in the same order, retagged with method
    residual_validation and status residual; so it reports nothing exactly
    when the pattern detector finds nothing. *)
Theorem residual_scan_is_retagged_detection :
  forall masked_text,
    _validate_residual_pii masked_text
    = map retag_residual (_detect_rule_based masked_text)
    /\ (_validate_residual_pii masked_text = []
        <-> _detect_rule_based masked_text = []).
Proof.
  intros masked_text.
  assert (H : _validate_residual_pii masked_text
              = map retag_residual (_detect_rule_based masked_text)).
  { unfold _validate_residual_pii, _detect_rule_based.
    induction patterns as [| entry l IH]; [reflexivity |].
    cbn [flat_map]. rewrite map_app, IH.
    rewrite (matches_of_retag "rule_based" "auto_masked"). reflexivity. }
  split; [exact H |]. rewrite H.
  destruct (_detect_rule_based masked_text); cbn; split; congruence.
Qed.

(** ** X3: the Luhn check catches every single wrong digit *)

(** X3: if a number passes [_luhn_check], then the number obtained by
    replacing any one of its digits by a different digit does not. *)
Theorem luhn_detects_single_digit_error :
  forall before after c c',
    PyStr.isdigit c = true -> PyStr.isdigit c' = true -> c <> c' ->
    _luhn_check (before +:+ String c after) = true ->
    _luhn_check (before +:+ String c' after) = false.
Proof.
  intros before after c c' Hc Hc' Hne. unfold _luhn_check.
  rewrite !digits_of_app. cbn [digits_of]. rewrite Hc, Hc'.
  rewrite !length_app. cbn [length].
  destruct ((length (digits_of before) + S (length (digits_of after)) <? 13)%nat
            || (19 <? length (digits_of before) + S (length (digits_of after)))%nat)%bool;
    [discriminate |].
  rewrite !rev_app_distr. cbn [rev app]. rewrite <- !app_assoc. cbn [app].
  rewrite !luhn_loop_app, !luhn_loop_step.
  set (k := (0 + length (rev (digits_of after)))%nat).
  set (base := luhn_loop (rev (digits_of after)) 0 0).
  rewrite (luhn_loop_shift _ _ base (loop_term k (PyStr.digit_value c))).
  rewrite (luhn_loop_shift _ _ base (loop_term k (PyStr.digit_value c'))).
  set (rest := luhn_loop (rev (digits_of before)) (S k) base).
  rewrite Z.eqb_eq. intros Hvalid. apply Z.eqb_neq. intros Hvalid'.
  apply (loop_term_injective k (PyStr.digit_value c) (PyStr.digit_value c')).
  - apply digit_value_range, Hc.
  - apply digit_value_range, Hc'.
  - apply digit_value_injective; assumption.
  - replace (loop_term k (PyStr.digit_value c) - loop_term k (PyStr.digit_value c'))
      with ((rest + loop_term k (PyStr.digit_value c))
            - (rest + loop_term k (PyStr.digit_value c'))) by lia.
    rewrite Zminus_mod, Hvalid, Hvalid'. reflexivity.
Qed.

(** Changing the last digit of the test card number breaks it. *)
Lemma luhn_detects_single_digit_error_witness :
  _luhn_check "4111111111111111" = true
  /\ _luhn_check "4111111111111117" = false.
Proof.
  split; [reflexivity |].
  apply (luhn_detects_single_digit_error "411111111111111" EmptyString "1" "7");
    [reflexivity | reflexivity | discriminate | reflexivity].
Defined.

(** ** X4 to X6: shape of the fusion result *)

(** X4: the fused list is a subsequence of the candidates sorted by start
    position: fusion neither invents, duplicates nor reorders an entity.
    Hence it is ascending by start and no longer than its input. *)
Theorem fusion_keeps_a_sorted_subsequence :
  forall rule_entities ml_entities,
    _fuse_and_resolve_entities rule_entities ml_entities
      `sublist_of` sort_asc (rule_entities ++ ml_entities)
    /\ StronglySorted starts_le
         (_fuse_and_resolve_entities rule_entities ml_entities)
    /\ (length (_fuse_and_resolve_entities rule_entities ml_entities)
        <= length rule_entities + length ml_entities)%nat.
Proof.
  intros rule_entities ml_entities.
  split; [apply fuse_sublist |]. split; [apply fuse_sorted |].
  rewrite <- length_app, <- (length_sort_asc (rule_entities ++ ml_entities)).
  apply sublist_length, fuse_sublist.
Qed.

(** X5: when no two candidates overlap, fusion drops nothing: the result
    is the list of all candidates in stable ascending order of start. *)
Theorem fusion_of_disjoint_candidates_sorts :
  forall rule_entities ml_entities,
    pairwise_disjoint (rule_entities ++ ml_entities) ->
    _fuse_and_resolve_entities rule_entities ml_entities
    = sort_asc (rule_entities ++ ml_entities).
Proof. exact fuse_of_disjoint. Qed.

(** A model finding that precedes an e-mail address is put before it. *)
Lemma fusion_of_disjoint_candidates_sorts_witness :
  _fuse_and_resolve_entities
    [email_entity "jo@example.org" 9] [person_over "Jo" 0]
  = [person_over "Jo" 0; email_entity "jo@example.org" 9].
Proof.
  rewrite (fusion_of_disjoint_candidates_sorts
             [email_entity "jo@example.org" 9] [person_over "Jo" 0]).
  - reflexivity.
  - cbn. repeat split; try constructor; try constructor.
    unfold disjoint. cbn. lia.
Defined.

(** X6: fusion is idempotent: fusing its own result again, with nothing
    added, gives the same list. *)
Theorem fusion_is_idempotent :
  forall rule_entities ml_entities,
    _fuse_and_resolve_entities
      (_fuse_and_resolve_entities rule_entities ml_entities) []
    = _fuse_and_resolve_entities rule_entities ml_entities.
Proof.
  intros rule_entities ml_entities.
  rewrite fuse_of_disjoint; rewrite app_nil_r.
  - apply sort_asc_sorted_id, fuse_sorted.
  - apply fuse_disjoint.
Qed.

(** ** X7: pattern findings are never displaced *)

(** X7: whatever the model backends report, every finding of the pattern
    detector is covered in [entities_found] by a rule-based entity whose
    span overlaps it: a model entity never displaces a pattern finding,
    and of two overlapping pattern findings one stays. *)
Theorem pattern_findings_stay_covered :
  forall eng elapsed text,
  exists result,
    detect_pii eng elapsed text = Return result
    /\ forall x, x ∈ _detect_rule_based text ->
                 exists y, y ∈ entities_found result /\ covered_by x y.
Proof.
  intros eng elapsed text.
  destruct (detect_pii_returns eng elapsed text) as (ml & Hml & Hr).
  eexists. split; [exact Hr |]. intros x Hx.
  destruct (fuse_covers text ml x) as (y & Hy & Hcov); [| exact Hx |].
  - eapply stamped_model_only, detect_ml_stamped, Hml.
  - exists (mark_entity (config eng) y). split.
    + rewrite pipeline_entities_found.
      apply elem_of_sort_desc, list_elem_of_In, in_map, list_elem_of_In, Hy.
    + eapply covered_by_same; [apply mark_entity_same | exact Hcov].
Qed.

(** ** X8: methods of the entities and methods of the engine *)

(** X8: the detection method of every entity that [detect_pii] reports is
    one of those that [get_detection_methods] lists for the engine. *)
Theorem reported_methods_are_listed :
  forall eng elapsed text,
  exists result,
    detect_pii eng elapsed text = Return result
    /\ Forall (fun e => In (detection_method e) (get_detection_methods eng))
         (entities_found result).
Proof.
  intros eng elapsed text.
  destruct (detect_pii_returns eng elapsed text) as (ml & Hml & Hr).
  eexists. split; [exact Hr |]. apply Forall_forall. intros e He.
  apply pipeline_found_elem in He. destruct He as (e0 & He0 & ->).
  destruct (mark_entity_same (config eng) e0) as (_ & _ & _ & _ & _ & ->).
  destruct He0 as [He0 | He0].
  - destruct (detect_rule_based_rule text e0 He0) as [Hr0 _].
    apply is_rule_based_iff in Hr0. rewrite Hr0. apply rule_based_listed.
  - apply detect_ml_stamped in Hml. rewrite Forall_forall in Hml.
    apply (Hml e0 He0).
Qed.

(** ** X9: triage under the default thresholds *)

(** X9: the confidences that the detectors write are 1 (patterns), 0.85,
    0.8 and 0.3 (models).  With a band that lies between 0.3 and 0.8, as
    the default band from 0.35 to 0.65 does, no entity is ever marked:
    [questionable_entities] is empty and every entity keeps the status
    auto_masked. *)
Theorem band_between_model_confidences_marks_nothing :
  forall eng elapsed text,
    (3 # 10 < min_confidence (config eng))%Q ->
    (snd (questionable_band (config eng)) < 8 # 10)%Q ->
    exists result,
      detect_pii eng elapsed text = Return result
      /\ questionable_entities result = []
      /\ Forall (fun e => status e = "auto_masked") (entities_found result).
Proof.
  intros eng elapsed text Hlo Hhi.
  destruct (detect_pii_returns eng elapsed text) as (ml & Hml & Hr).
  eexists. split; [exact Hr |].
  apply detect_ml_stamped in Hml.
  assert (Hall : Forall (fun e => in_band (config eng) e = false
                                  /\ status e = "auto_masked")
                   (_fuse_and_resolve_entities (_detect_rule_based text) ml)).
  { apply Forall_forall. intros e He.
    apply fuse_elements, elem_of_app in He. destruct He as [He | He].
    - destruct (detect_rule_based_entry text e He) as (entry & _ & Hm).
      destruct (matches_of_tags _ _ _ _ _ Hm) as (_ & Hc & _ & Hs & _).
      split; [| exact Hs].
      destruct (in_band (config eng) e) eqn:Hb; [| reflexivity].
      apply in_band_iff in Hb. destruct Hb as [_ Hb]. rewrite Hc in Hb.
      exfalso. apply (Qlt_irrefl (8 # 10)).
      eapply Qle_lt_trans; [| exact Hhi].
      eapply Qle_trans; [| exact Hb]. discriminate.
    - rewrite Forall_forall in Hml. destruct (Hml e He) as [[Hp Hs] _].
      split; [| exact Hs].
      destruct (in_band (config eng) e) eqn:Hb; [| reflexivity].
      apply in_band_iff in Hb. destruct Hb as [Hb1 Hb2]. exfalso.
      cbn in Hp.
      destruct Hp as [Hp | [Hp | [Hp | [Hp | []]]]];
        injection Hp as _ Hc; rewrite <- Hc in Hb1, Hb2.
      + apply (Qlt_irrefl (8 # 10)).
        eapply Qle_lt_trans; [| exact Hhi].
        eapply Qle_trans; [| exact Hb2]. discriminate.
      + apply (Qlt_irrefl (8 # 10)).
        eapply Qle_lt_trans; [| exact Hhi]. exact Hb2.
      + apply (Qlt_irrefl (8 # 10)).
        eapply Qle_lt_trans; [| exact Hhi]. exact Hb2.
      + apply (Qlt_irrefl (3 # 10)).
        eapply Qlt_le_trans; [exact Hlo | exact Hb1]. }
  unfold pipeline. cbn [questionable_entities entities_found].
  rewrite mark_out_of_band.
  - split; [reflexivity |]. cbn [fst]. rewrite mask_text_fst.
    apply Forall_forall. intros e He. apply sort_desc_elem in He.
    rewrite Forall_forall in Hall. apply (Hall e He).
  - eapply Forall_impl; [exact Hall |]. intros e [He _]. exact He.
Qed.

(** The default engine on the scenario text. *)
Lemma band_between_model_confidences_marks_nothing_witness :
  exists result,
    detect_pii rule_only_engine 0 scenario_text = Return result
    /\ questionable_entities result = []
    /\ Forall (fun e => status e = "auto_masked") (entities_found result).
Proof.
  apply (band_between_model_confidences_marks_nothing
           rule_only_engine 0 scenario_text); reflexivity.
Defined.

(** ** X10: where the dictionary backends place their entities *)

(** X10: an entity built from the dictionary of the LongTransformer or of
    the custom model lies inside the text, at the first occurrence of its
    value, and the characters of its span are its value.  On the
    LongTransformer path the span is never empty. *)
Theorem dictionary_entities_sit_at_first_occurrence :
  forall text pii e,
    e ∈ longtransformer_entities text pii \/ e ∈ custom_model_entities text pii ->
    0 <= start_pos e <= end_pos e
    /\ end_pos e <= Z.of_nat (String.length text)
    /\ PyStr.slice text (start_pos e) (end_pos e) = value e
    /\ (forall j : nat, Z.of_nat j < start_pos e ->
          PyStr.startswith (value e) (PyStr.drop j text) = false)
    /\ (e ∈ longtransformer_entities text pii -> in_bounds text e).
Proof.
  intros text pii e He.
  assert (Hspan : start_pos e = PyStr.find text (value e)
                  /\ start_pos e <> -1
                  /\ end_pos e
                     = start_pos e + Z.of_nat (String.length (value e))).
  { destruct He as [He | He].
    - apply longtransformer_entities_elem in He.
      destruct He as (e0 & He0 & _ & ->).
      apply entities_of_pii_dict_elem in He0.
      destruct He0 as (_ & _ & _ & Hs & Hne & Hend & _).
      destruct (improve_keeps e0) as (-> & -> & -> & _). tauto.
    - apply entities_of_pii_dict_elem in He. tauto. }
  destruct Hspan as (Hs & Hne & Hend). rewrite Hs in Hne.
  destruct (find_spec text (value e) Hne) as (H0 & Hlen & Hslice & Hmin).
  rewrite Hend, Hs.
  split; [lia |]. split; [exact Hlen |]. split; [exact Hslice |].
  split; [exact Hmin |].
  intros Hlt.
  assert (Hv : value e <> EmptyString).
  { apply longtransformer_entities_elem in Hlt.
    destruct Hlt as (e0 & _ & Hkeep & ->).
    destruct (improve_keeps e0) as (-> & _).
    apply keep_ml_entity_nonempty, Hkeep. }
  unfold in_bounds. rewrite Hend, Hs.
  destruct (value e) as [| c v]; [contradiction |].
  cbn [String.length] in *. lia.
Qed.

(** A name reported twice by the custom model gives two entities over
    the same span, the first occurrence of the name. *)
Lemma dictionary_entities_sit_at_first_occurrence_witness :
  map (fun e => (start_pos e, end_pos e))
    (custom_model_entities "Ann met Ann" [("person", ["Ann"; "Ann"])])
  = [(0, 3); (0, 3)]
  /\ PyStr.slice "Ann met Ann" 0 3 = "Ann".
Proof.
  split; [reflexivity |].
  pose proof (dictionary_entities_sit_at_first_occurrence "Ann met Ann"
                [("person", ["Ann"; "Ann"])]
                {| entity_type := "PERSON"; value := "Ann"; start_pos := 0;
                   end_pos := 3; confidence := 8 # 10;
                   detection_method := "custom_pii_model";
                   status := "auto_masked" |}) as H.
  destruct H as (_ & _ & H & _); [| exact H].
  right. vm_compute. apply list_elem_of_here.
Defined.

(** ** X11: masking leaves the surroundings alone *)

(** X11: when non-overlapping entities inside the text all lie between
    the offsets [lo] and [hi], the masked text begins with the original
    text before [lo] and ends with the original text from [hi] on. *)
Theorem masking_changes_only_between_entities :
  forall cfg text entities lo hi,
    pairwise_disjoint entities ->
    Forall (in_bounds text) entities ->
    0 <= lo <= hi ->
    Forall (fun e => lo <= start_pos e /\ end_pos e <= hi) entities ->
    exists middle,
      snd (_mask_text cfg text entities)
      = PyStr.slice_to text lo +:+ middle +:+ PyStr.slice_from text hi.
Proof.
  intros cfg text entities lo hi Hdis Hin Hlohi Hbetween.
  unfold PyStr.slice_to, PyStr.slice_from. rewrite !bound_nonneg by lia.
  set (a := PyStr.take (Z.to_nat hi) text).
  set (b := PyStr.drop (Z.to_nat hi) text).
  assert (Htext : text = a +:+ b) by (symmetry; apply string_take_drop).
  assert (Hlen_a : String.length a = Nat.min (Z.to_nat hi) (String.length text))
    by apply length_take.
  destruct entities as [| e0 l] eqn:El.
  - exists (PyStr.drop (Z.to_nat lo) a). cbn [_mask_text snd].
    rewrite <- append_assoc.
    replace (PyStr.take (Z.to_nat lo) text)
      with (PyStr.take (Z.to_nat lo) a)
      by (unfold a; apply take_take; lia).
    rewrite string_take_drop. exact Htext.
  - rewrite <- El in *.
    assert (Hne : exists e, e ∈ entities).
    { exists e0. rewrite El. apply list_elem_of_here. }
    clear El.
    replace (snd (_mask_text cfg text entities))
      with (fst (mask_loop cfg (sort_desc entities) (text, ∅)))
      by (destruct entities; [destruct Hne as [? Hne]; inversion Hne | reflexivity]).
    assert (Hperm := sort_desc_perm entities).
    assert (Hin' : Forall (in_bounds text) (sort_desc entities)).
    { apply Forall_forall. intros e He. apply sort_desc_elem in He.
      rewrite Forall_forall in Hin. apply Hin, He. }
    assert (Hbetween' : Forall (fun e => lo <= start_pos e /\ end_pos e <= hi)
                          (sort_desc entities)).
    { apply Forall_forall. intros e He. apply sort_desc_elem in He.
      rewrite Forall_forall in Hbetween. apply Hbetween, He. }
    assert (Hchain : descending_chain (Z.of_nat (String.length a))
                       (sort_desc entities)).
    { apply chain_of_sorted.
      - apply sort_desc_sorted.
      - eapply pairwise_disjoint_perm; [exact Hperm | exact Hdis].
      - eapply Forall_impl; [exact Hin' |]. intros e [He _]. exact He.
      - apply Forall_forall. intros e He.
        rewrite Forall_forall in Hin', Hbetween'.
        destruct (Hin' e He) as [_ H1]. destruct (Hbetween' e He) as [_ H2].
        rewrite Hlen_a. lia. }
    replace (mask_loop cfg (sort_desc entities) (text, ∅))
      with (mask_loop cfg (sort_desc entities) (a +:+ b, ∅))
      by (rewrite <- Htext; reflexivity).
    rewrite mask_loop_append by exact Hchain. cbn [fst].
    set (m := fst (mask_loop cfg (sort_desc entities) (a, ∅))).
    assert (Hlo_a : (Z.to_nat lo <= String.length a)%nat).
    { destruct Hne as [e He]. rewrite Forall_forall in Hin, Hbetween.
      destruct (Hin e He) as [H1 H2]. destruct (Hbetween e He) as [H3 H4].
      rewrite Hlen_a. lia. }
    destruct (mask_loop_prefix cfg (sort_desc entities) a ∅ (Z.to_nat lo) Hlo_a)
      as [Hpre _].
    { eapply Forall_impl; [exact Hbetween' |]. intros e [He _]. lia. }
    fold m in Hpre.
    exists (PyStr.drop (Z.to_nat lo) m).
    rewrite <- append_assoc. f_equal.
    replace (PyStr.take (Z.to_nat lo) text)
      with (PyStr.take (Z.to_nat lo) a)
      by (unfold a; apply take_take; lia).
    rewrite <- Hpre. symmetry. apply string_take_drop.
Qed.

(** One address in the middle of a sentence. *)
Lemma masking_changes_only_between_entities_witness :
  exists middle,
    snd (_mask_text default_config "Write to jo@example.org today."
           [email_entity "jo@example.org" 9])
    = "Write to " +:+ middle +:+ " today.".
Proof.
  apply (masking_changes_only_between_entities default_config
           "Write to jo@example.org today."
           [email_entity "jo@example.org" 9] 9 23).
  - cbn. split; [constructor | exact I].
  - repeat constructor; cbn; lia.
  - lia.
  - repeat constructor; cbn; lia.
Defined.

(** ** X12: numbering of the tokens *)

(** X12: in token format, the masking loop numbers the entities of each
    type separately and in the order in which it visits them: after the
    entities [before], the entity [e] is replaced by the token of its type
    with number one plus the count of entities of that type in [before].
    As the loop runs from the end of the text, the last occurrence of a
    type carries number 001. *)
Theorem tokens_are_numbered_per_type :
  forall cfg text before e,
    mask_format cfg <> Some "PARTIAL_REVEAL" ->
    fst (mask_step cfg (mask_loop cfg before (text, ∅)) e)
    = splice (fst (mask_loop cfg before (text, ∅))) e
        (token (entity_type e) (S (count_type (entity_type e) before))).
Proof.
  intros cfg text before e Hfmt.
  destruct (mask_loop cfg before (text, ∅)) as [masked_text token_counter] eqn:E.
  cbn [mask_step fst]. f_equal.
  assert (Hn : default 0%nat (bump (entity_type e) token_counter !! entity_type e)
               = S (count_type (entity_type e) before)).
  { rewrite bump_default, String.eqb_refl.
    pose proof (mask_loop_counter cfg before text ∅ (entity_type e)) as H.
    rewrite E in H. cbn [snd] in H. rewrite H, lookup_empty. reflexivity. }
  unfold mask_for. rewrite Hn.
  destruct (bool_decide (entity_type e ∈ structured_entities)); [reflexivity |].
  destruct (bool_decide (entity_type e ∈ free_text_entities)); [| reflexivity].
  rewrite bool_decide_eq_false_2 by exact Hfmt. reflexivity.
Qed.

(** Two addresses: the second one in the text is number 001. *)
Lemma tokens_are_numbered_per_type_witness :
  exists result,
    detect_pii rule_only_engine 0 "ann@example.org, bob@example.org"
    = Return result
    /\ masked_content result = "[EMAIL_002], [EMAIL_001]"
    /\ fst (mask_step default_config
              (mask_loop default_config [email_entity "bob@example.org" 17]
                 ("ann@example.org, bob@example.org", ∅))
              (email_entity "ann@example.org" 0))
       = "[EMAIL_002], [EMAIL_001]".
Proof.
  eexists. split; [vm_compute; reflexivity |]. split; [reflexivity |].
  rewrite (tokens_are_numbered_per_type default_config
             "ann@example.org, bob@example.org"
             [email_entity "bob@example.org" 17]
             (email_entity "ann@example.org" 0)).
  - vm_compute. reflexivity.
  - discriminate.
Defined.

(** ** X13 and X14: the token loop of the BERT path *)

(** X13: the loop appends an entity only when it meets a label O or a
    label that starts with B-.  Tokens at the end of the input whose
    labels do neither add nothing: an entity that is still open when the
    tokens run out is never reported. *)
Theorem open_entity_at_the_end_is_dropped :
  forall pairs tail i entities current_entity current_value current_start,
    Forall keeps_open tail ->
    bert_loop i (pairs ++ tail) entities current_entity current_value
      current_start
    = bert_loop i pairs entities current_entity current_value current_start.
Proof. intros. apply bert_loop_app. assumption. Qed.

(** A text that is one tagged name yields no entity. *)
Lemma open_entity_at_the_end_is_dropped_witness :
  bert_loop 0 [("John", "B-PER"); ("Smith", "I-PER")] [] None EmptyString 0 = [].
Proof.
  change [("John", "B-PER"); ("Smith", "I-PER")]
    with ([("John", "B-PER")] ++ [("Smith", "I-PER")]).
  rewrite (open_entity_at_the_end_is_dropped
             [("John", "B-PER")] [("Smith", "I-PER")] 0 [] None EmptyString 0).
  - reflexivity.
  - repeat constructor; cbn; discriminate.
Defined.


(** ** X15: what the constructor can leave loaded *)

(** X15: whatever the loading attempts of [__init__] do, the engine it
    builds makes at most two attempts in [_detect_ml], and two only in one
    situation: a BERT model kept without its tokenizer, whose attempt
    raises AttributeError, followed by the DeBERTa heuristic.  In every
    other case at most one backend is loaded. *)
Theorem constructor_loads_one_backend :
  forall cfg ld text,
    (length (attempts (__init__ cfg ld) text) <= 2)%nat
    /\ (length (attempts (__init__ cfg ld) text) = 2%nat ->
        fallback_ner_model (__init__ cfg ld) <> None
        /\ fallback_tokenizer (__init__ cfg ld) = None
        /\ base_deberta (__init__ cfg ld) = true
        /\ _detect_ml (__init__ cfg ld) text
           = Return (_detect_with_base_deberta text)).
Proof.
  intros cfg ld text.
  rewrite detect_ml_first_returned.
  pose proof (init_shape cfg ld) as H. cbv zeta in H.
  unfold attempts, _detect_with_bert_ner.
  destruct H as [(H1 & H2 & H3 & H4) | [(H1 & H2 & H3 & H4)
                | [(H1 & H2 & H3 & H4 & H5) | (H1 & H2 & H3)]]].
  - rewrite H2, H3, H4.
    destruct (longtransformer_detector (__init__ cfg ld)); [| contradiction].
    cbn [app length]. split; [lia | discriminate].
  - rewrite H1, H3, H4.
    destruct (ml_detector (__init__ cfg ld)); [| contradiction].
    cbn [app length]. split; [lia | discriminate].
  - rewrite H1, H2, H5.
    destruct (fallback_ner_model (__init__ cfg ld)); [| contradiction].
    cbn [app length]. split; [lia | discriminate].
  - rewrite H1, H2, H3.
    destruct (fallback_ner_model (__init__ cfg ld)),
      (base_deberta (__init__ cfg ld));
      cbn [app length bind first_returned];
      (split; [lia |]); intros Hlen; try discriminate Hlen.
    repeat split. discriminate.
Qed.

(** The engine built from [half_loaded_bert] is in that situation. *)
Lemma constructor_loads_one_backend_witness :
  get_detection_methods (__init__ None half_loaded_bert)
  = ["rule_based"; "bert_ner"; "base_deberta_heuristic"]
  /\ _detect_ml (__init__ None half_loaded_bert) "Ask Maria"
     = Return (_detect_with_base_deberta "Ask Maria").
Proof.
  split; [reflexivity |].
  apply (constructor_loads_one_backend None half_loaded_bert "Ask Maria").
  reflexivity.
Defined.

(** ** X16: triage twice *)

(** X16: triage is idempotent: run again on the list it has just marked,
    it leaves the list as it is and returns the same questionable
    entities. *)
Theorem triage_is_idempotent :
  forall cfg entities,
    _mark_questionable_entities cfg
      (fst (_mark_questionable_entities cfg entities))
    = _mark_questionable_entities cfg entities.
Proof.
  intros cfg entities. induction entities as [| e l IH]; [reflexivity |].
  cbn [_mark_questionable_entities].
  destruct (_mark_questionable_entities cfg l) as [rest questionable] eqn:E.
  cbn [fst] in IH.
  destruct (in_band cfg e) eqn:B; cbn [fst _mark_questionable_entities];
    rewrite IH.
  - replace (in_band cfg (set_status "questionable" e)) with true
      by (symmetry; exact B).
    reflexivity.
  - rewrite B. reflexivity.
Qed.

(** ** X17: partial reveal keeps the length of the text *)

(** X17: in partial-reveal format, masking free-text entities whose
    values have at least two characters and fill their spans leaves the
    length of the text unchanged, whether or not the spans overlap. *)
Theorem partial_reveal_keeps_the_length :
  forall cfg text entities,
    mask_format cfg = Some "PARTIAL_REVEAL" ->
    Forall (revealable (String.length text)) entities ->
    String.length (snd (_mask_text cfg text entities)) = String.length text.
Proof.
  intros cfg text entities Hfmt Hall.
  destruct entities as [| e0 l] eqn:El; [reflexivity |].
  rewrite <- El in *. clear El.
  replace (snd (_mask_text cfg text entities))
    with (fst (mask_loop cfg (sort_desc entities) (text, ∅))).
  - apply mask_loop_reveal_length; [exact Hfmt |].
    apply Forall_forall. intros e He. apply sort_desc_elem in He.
    rewrite Forall_forall in Hall. apply Hall, He.
  - destruct entities; reflexivity.
Qed.

(** A name and an overlapping first name in a sentence of 22 characters. *)
Lemma partial_reveal_keeps_the_length_witness :
  snd (_mask_text partial_reveal_config "Contact John Smith now"
         [person_over "John Smith" 8; person_over "John" 8])
  = "Contact J********* now"
  /\ String.length "Contact J********* now"
     = String.length "Contact John Smith now".
Proof.
  split; [reflexivity |].
  change "Contact J********* now"
    with (snd (_mask_text partial_reveal_config "Contact John Smith now"
                 [person_over "John Smith" 8; person_over "John" 8])).
  apply (partial_reveal_keeps_the_length partial_reveal_config
           "Contact John Smith now"
           [person_over "John Smith" 8; person_over "John" 8]).
  - reflexivity.
  - apply Forall_cons; split; [| apply Forall_cons; split; [| apply Forall_nil_2]];
      (split; [refine (bool_decide_unpack _ _); vm_compute; exact I |]);
      (split; [refine (bool_decide_unpack _ _); vm_compute; exact I |]);
      cbn; lia.
Defined.

(** ** X18: the address validator on groups of digits *)



(** ** X19 and X20: reading a file in chunks *)

(** X19: with a positive chunk size, the chunks that [_read_file_chunks]
    yields, put end to end, are the text of the file; no chunk is empty
    and none is longer than the chunk size.  The loop ends by itself: any
    fuel above the length of the text gives the same chunks. *)
Theorem chunks_partition_the_text :
  forall cfg content n,
    0 < n ->
    join_chunks (FileProcessor._read_file_chunks cfg content (Some n)) = content
    /\ Forall (fun chunk => chunk <> EmptyString /\ Z.of_nat (String.length chunk) <= n)
         (FileProcessor._read_file_chunks cfg content (Some n))
    /\ forall fuel, (String.length content < fuel)%nat ->
         FileProcessor.read_file_chunks_loop fuel n content
         = FileProcessor._read_file_chunks cfg content (Some n).
Proof.
  intros cfg content n Hn. unfold FileProcessor._read_file_chunks.
  split; [apply read_file_chunks_join; lia |].
  split; [apply read_file_chunks_sizes, Hn |].
  intros fuel Hfuel. apply read_file_chunks_fuel; lia.
Qed.

(** Ten characters in chunks of four. *)
Lemma chunks_partition_the_text_witness :
  FileProcessor._read_file_chunks FileProcessor.default_processor_config
    "0123456789" (Some 4)
  = ["0123"; "4567"; "89"]
  /\ join_chunks ["0123"; "4567"; "89"] = "0123456789".
Proof.
  split; [reflexivity |].
  change ["0123"; "4567"; "89"]
    with (FileProcessor._read_file_chunks
            FileProcessor.default_processor_config "0123456789" (Some 4)).
  apply (chunks_partition_the_text FileProcessor.default_processor_config
           "0123456789" 4).
  lia.
Defined.

(** X20: a chunk size of zero makes [_read_file_chunks] yield nothing,
    whatever the file holds; a negative chunk size makes it yield the
    whole text as one chunk. *)
Theorem chunk_size_without_chunks :
  forall cfg content n,
    n <= 0 ->
    FileProcessor._read_file_chunks cfg content (Some n)
    = if n =? 0 then []
      else match content with
           | EmptyString => []
           | _ => [content]
           end.
Proof.
  intros cfg content n Hn. unfold FileProcessor._read_file_chunks.
  cbn [FileProcessor.read_file_chunks_loop]. unfold FileProcessor.read.
  destruct (n =? 0) eqn:E0.
  - apply Z.eqb_eq in E0. subst n. reflexivity.
  - apply Z.eqb_neq in E0.
    destruct (n <? 0) eqn:E; [| apply Z.ltb_ge in E; lia].
    destruct content as [| c content]; [reflexivity |].
    f_equal. apply read_file_chunks_empty.
Qed.

(** With chunk size zero the streaming processor returns an empty
    output for a file that holds an address. *)
Lemma chunk_size_without_chunks_witness :
  FileProcessor._read_file_chunks (chunks_of 0) "jo@example.org" (Some 0) = []
  /\ FileProcessor._process_text_file_streaming rule_only_engine (chunks_of 0)
       0 (text_file "a.txt" "jo@example.org")
     = Return (EmptyString, [], ∅).
Proof.
  split; [| reflexivity].
  rewrite (chunk_size_without_chunks (chunks_of 0) "jo@example.org" 0);
    [reflexivity | lia].
Defined.

(** ** X21 and X22: the two text processors *)

(** X21: the streaming processor runs the engine on each chunk by itself
    and keeps the positions that the engine reports.  With model
    backends that report spans inside their input, every entity it
    returns therefore has a span inside one chunk: its end position is
    at most the chunk size, wherever in the file the chunk lies. *)
Theorem streaming_positions_are_chunk_relative :
  forall eng cfg tick f masked entities stats,
    0 < FileProcessor.chunk_size cfg ->
    models_in_bounds eng ->
    FileProcessor._process_text_file_streaming eng cfg tick f
    = Return (masked, entities, stats) ->
    Forall (fun e => 0 <= start_pos e < end_pos e
                     /\ end_pos e <= FileProcessor.chunk_size cfg)
      entities.
Proof.
  intros eng cfg tick f masked entities stats Hn Hml.
  unfold FileProcessor._process_text_file_streaming.
  destruct (FileProcessor.read_text f) as [err | content];
    cbn [bind try_except]; [discriminate |].
  rewrite streaming_loop_spec. cbn [bind try_except].
  intros H. injection H as _ <- _. cbn [app].
  apply Forall_forall. intros e He.
  apply list_elem_of_In, in_flat_map in He. destruct He as (chunk & Hchunk & He).
  pose proof (read_file_chunks_sizes (FileProcessor.chunk_size cfg)
                (S (String.length content)) content Hn) as Hsizes.
  rewrite Forall_forall in Hsizes.
  destruct (Hsizes chunk (proj2 (list_elem_of_In _ _) Hchunk)) as [_ Hsize].
  pose proof (detected_in_bounds eng tick chunk Hml) as Hb.
  rewrite Forall_forall in Hb.
  destruct (Hb e (proj2 (list_elem_of_In _ _) He)) as [Hspan Hend].
  split; [exact Hspan | lia].
Qed.

(** Two addresses in a file read in chunks of 16 characters: the second
    one starts at offset 17 of the file and is reported at offset 1. *)
Lemma streaming_positions_are_chunk_relative_witness :
  exists masked entities,
    FileProcessor._process_text_file_streaming rule_only_engine (chunks_of 16)
      0 (text_file "a.txt" "ann@example.org, bob@example.org")
    = Return (masked, entities, ∅)
    /\ map (fun e => (value e, start_pos e)) entities
       = [("ann@example.org", 0); ("bob@example.org", 1)]
    /\ Forall (fun e => 0 <= start_pos e < end_pos e /\ end_pos e <= 16)
         entities.
Proof.
  eexists. eexists. split; [vm_compute; reflexivity |].
  split; [reflexivity |].
  eapply (streaming_positions_are_chunk_relative rule_only_engine
            (chunks_of 16) 0
            (text_file "a.txt" "ann@example.org, bob@example.org")).
  - reflexivity.
  - apply rule_only_in_bounds.
  - vm_compute. reflexivity.
Defined.

(** X22: on a file whose text is not empty and fits into one chunk, the
    streaming processor and the standard processor return the same
    masked text, the same entities and the same statistics. *)
Theorem one_chunk_streams_like_standard :
  forall eng cfg tick f content,
    FileProcessor.read_text f = Return content ->
    content <> EmptyString ->
    Z.of_nat (String.length content) <= FileProcessor.chunk_size cfg ->
    FileProcessor._process_text_file_streaming eng cfg tick f
    = FileProcessor._process_text_file_standard eng tick f.
Proof.
  intros eng cfg tick f content Hread Hne Hlen.
  unfold FileProcessor._process_text_file_streaming,
    FileProcessor._process_text_file_standard.
  rewrite Hread. cbn [bind].
  replace (FileProcessor._read_file_chunks cfg content None)
    with (FileProcessor._read_file_chunks cfg content
            (Some (FileProcessor.chunk_size cfg))) by reflexivity.
  rewrite (read_file_chunks_one cfg content _ Hne Hlen).
  rewrite streaming_loop_spec, detect_pii_detected. cbn [bind try_except].
  unfold detected, pipeline.
  cbn [map join_chunks fold_right flat_map app].
  rewrite append_empty_r, app_nil_r. reflexivity.
Qed.

(** A short note. *)
Lemma one_chunk_streams_like_standard_witness :
  FileProcessor._process_text_file_streaming rule_only_engine
    FileProcessor.default_processor_config 0
    (text_file "a.txt" "Write to jo@example.org")
  = Return ("Write to [EMAIL_001]",
            [email_entity "jo@example.org" 9], ∅).
Proof.
  rewrite (one_chunk_streams_like_standard rule_only_engine
             FileProcessor.default_processor_config 0
             (text_file "a.txt" "Write to jo@example.org")
             "Write to jo@example.org").
  - vm_compute. reflexivity.
  - reflexivity.
  - discriminate.
  - cbn. lia.
Defined.

(** ** X23: what [process_file] returns and when it raises *)


(** ** X24 and X25: the sequential strategies *)

(** X24: with a positive batch size the buffered strategy returns what
    the streaming strategy returns: the same results in the same order,
    the same state of the processor function and the same file count,
    with one result for every path.  With batch size zero it raises
    before any file is processed, and with a negative batch size it
    processes no file and returns no result. *)
Theorem buffered_strategy_is_the_streaming_one :
  forall (State Result : Type)
         (processor_func : State -> string -> State * exc Result)
         (error_dict : string -> string -> Result)
         batch_size file_paths st file_count,
    (0 < batch_size ->
     PerformanceOptimizer._process_sequential_buffered processor_func error_dict
       batch_size file_paths st file_count
     = Return (PerformanceOptimizer._process_sequential_streaming
                 processor_func error_dict file_paths st file_count)
     /\ length (snd (fst (PerformanceOptimizer._process_sequential_streaming
                            processor_func error_dict file_paths st file_count)))
        = length file_paths)
    /\ (batch_size = 0 ->
        PerformanceOptimizer._process_sequential_buffered processor_func
          error_dict batch_size file_paths st file_count
        = Raise "range() arg 3 must not be zero")
    /\ (batch_size < 0 ->
        PerformanceOptimizer._process_sequential_buffered processor_func
          error_dict batch_size file_paths st file_count
        = Return (st, [], file_count)).
Proof.
  intros State Result processor_func error_dict batch_size file_paths st
    file_count.
  unfold PerformanceOptimizer._process_sequential_buffered,
    PerformanceOptimizer._process_sequential_streaming,
    PerformanceOptimizer.range_from_zero.
  split; [| split].
  - intros Hb.
    destruct (batch_size =? 0) eqn:E0; [apply Z.eqb_eq in E0; lia |].
    destruct (batch_size <? 0) eqn:E1; [apply Z.ltb_lt in E1; lia |].
    cbn [bind]. split.
    + f_equal.
      rewrite (fold_left_flat_map _ _ _
                 (PerformanceOptimizer.process_one processor_func error_dict)
                 (fun i => PerformanceOptimizer.list_slice file_paths i
                             (i + batch_size))).
      rewrite buffered_batches by exact Hb. reflexivity.
    + pose proof (process_one_results State Result processor_func error_dict
                    file_paths st [] file_count) as H.
      destruct (fold_left _ file_paths _) as [[st' results'] count'].
      cbn [fst snd length] in *. lia.
  - intros ->. reflexivity.
  - intros Hb.
    destruct (batch_size =? 0) eqn:E0; [apply Z.eqb_eq in E0; lia |].
    destruct (batch_size <? 0) eqn:E1; [| apply Z.ltb_ge in E1; lia].
    reflexivity.
Qed.

(** Three paths in batches of two, the second path failing. *)
Lemma buffered_strategy_is_the_streaming_one_witness :
  PerformanceOptimizer._process_sequential_buffered sample_processor
    sample_error 2 ["a.txt"; "bad.txt"; "notes.md"] tt 0
  = Return (tt, [5; -1; 8], 2).
Proof.
  destruct (buffered_strategy_is_the_streaming_one unit Z sample_processor
              sample_error 2 ["a.txt"; "bad.txt"; "notes.md"] tt 0)
    as [H _].
  destruct (H ltac:(lia)) as [-> _]. reflexivity.
Defined.

(** X25: when the choices of the optimizer are made from the same
    readings of free memory and processor count, the strategy and the
    sizes agree: the streaming strategy comes with batch size 5 and one
    worker, the buffered strategy with batch size 10, so that its range
    never has step zero, and the parallel strategy with at least four
    processors and as many workers as the smaller of 3 and the cap on
    concurrent files.  No other strategy name is ever chosen than the
    four that [process_files] distinguishes. *)
Theorem strategy_and_sizes_agree :
  forall caps available_memory_mb cpu_count,
    let strategy :=
      PerformanceOptimizer._optimize_processing_strategy available_memory_mb
        cpu_count in
    let batch_size :=
      PerformanceOptimizer._calculate_optimal_batch_size caps
        available_memory_mb in
    let concurrency :=
      PerformanceOptimizer._calculate_optimal_concurrency caps
        available_memory_mb cpu_count in
    In strategy ["sequential_streaming"; "sequential_buffered";
                 "parallel_limited"; "sequential_optimized"]
    /\ (strategy = "sequential_streaming" -> batch_size = 5 /\ concurrency = 1)
    /\ (strategy = "sequential_buffered" ->
        batch_size = 10 /\ concurrency = Z.min 2 cpu_count)
    /\ (strategy = "parallel_limited" ->
        4 <= cpu_count
        /\ concurrency
           = Z.min 3 (PerformanceOptimizer.max_concurrent_files caps)).
Proof.
  intros caps available_memory_mb cpu_count. cbv zeta.
  unfold PerformanceOptimizer._optimize_processing_strategy,
    PerformanceOptimizer._calculate_optimal_batch_size,
    PerformanceOptimizer._calculate_optimal_concurrency.
  destruct (Qlt_le_dec available_memory_mb 2000);
    [cbn; repeat split; try discriminate; tauto |].
  destruct (Qlt_le_dec available_memory_mb 4000);
    [cbn; repeat split; try discriminate; tauto |].
  destruct (4 <=? cpu_count) eqn:E.
  - apply Z.leb_le in E. cbn. repeat split; try discriminate; try tauto; lia.
  - cbn. repeat split; try discriminate; tauto.
Qed.

(** ** X26: the exit code *)


(** ** X27 to X29: a run over several files *)






(** ** X30: the figures of the report *)

(** X30: the entity summary and the confidence histogram each count
    every reported entity exactly once.  The summary holds a type exactly
    when some entity has it, with the number of such entities; the
    histogram holds the five buckets and nothing else, each with the
    number of entities whose confidence falls in it, and the five
    numbers add up to the number of entities. *)
Theorem report_figures_count_each_entity_once :
  forall results,
    (forall t,
       ReportGenerator._generate_entity_summary results !! t
       = match count_type t (reported_entities results) with
         | O => None
         | S k => Some (Z.of_nat (S k))
         end)
    /\ (forall key,
          ReportGenerator._generate_confidence_histogram results !! key
          = if bool_decide (In key bucket_keys)
            then Some (count_bucket key (reported_entities results))
            else None)
    /\ fold_right Z.add 0
         (map (fun key => count_bucket key (reported_entities results))
            bucket_keys)
       = Z.of_nat (length (reported_entities results)).
Proof.
  intros results. split; [| split].
  - intros t. unfold ReportGenerator._generate_entity_summary.
    rewrite (fold_left_flat_map _ _ _ ReportGenerator.count_entity
               FileProcessor.entities_found).
    fold (reported_entities results).
    unfold ReportGenerator.count_entity. rewrite (count_fold entity_type).
    unfold count_type. rewrite lookup_empty. cbn [default from_option id].
    destruct (length _); [reflexivity |]. f_equal.
  - intros key. unfold ReportGenerator._generate_confidence_histogram.
    rewrite (fold_left_flat_map _ _ _ ReportGenerator.count_confidence
               FileProcessor.entities_found).
    fold (reported_entities results).
    unfold ReportGenerator.count_confidence. cbv zeta.
    rewrite (count_fold (fun e => ReportGenerator.bucket (confidence e))).
    unfold count_bucket.
    destruct (bool_decide (In key bucket_keys)) eqn:Ekey.
    + apply bool_decide_eq_true_1 in Ekey. cbn in Ekey.
      destruct Ekey as [<- | [<- | [<- | [<- | [<- | []]]]]];
        (destruct (length _); [reflexivity |]);
        vm_compute default; f_equal.
    + apply bool_decide_eq_false_1 in Ekey.
      replace (List.filter _ (reported_entities results)) with (@nil PIIEntity).
      * cbn [length]. unfold ReportGenerator.empty_histogram.
        cbn in Ekey.
        rewrite !lookup_insert_ne by (intros <-; apply Ekey; tauto).
        apply lookup_empty.
      * symmetry. induction (reported_entities results) as [| e l IH];
          [reflexivity |].
        cbn [List.filter]. rewrite <- IH.
        destruct (String.eqb_spec (ReportGenerator.bucket (confidence e)) key)
          as [<- | Hne]; [| reflexivity].
        exfalso. apply Ekey. apply bucket_is_a_key.
  - cbn [map fold_right bucket_keys].
    rewrite <- (buckets_partition (reported_entities results)). lia.
Qed.
